(** * Fair division of divisible goods: solvers, result objects, diagnostics

    A shallow embedding of the Python sources

      - [fair_division/models.py], [utils.py], [maxmin_solver.py],
        [nash_solver.py], [diagnostics.py]  (the library),
      - [app/algorithms/maxmin.py]          (the platform's LP solver),

    followed by the properties of the specification that concern them.

    Conventions of the embedding.
      - A NumPy [float64] is read as an exact rational ([Q]); equalities
        between computed numbers are therefore stated with [==].  Rounding,
        NaN and infinities are outside that reading: a statement below holds
        of the float code as far as it does not rest on exact cancellation.
        Where rounding decides, the lines are taken over an arithmetic that
        rounds ([contracts.rounds]) and replayed on IEEE binary64 numbers
        ([float64]).
      - A NumPy array is its shape and its row-major buffer.
      - A Python exception is a value of [py.exn]; a function that may raise
        returns a [py.result].  A function that talks to an optimisation
        engine or reads the clock is a [py.prog]: a finite tree whose inner
        nodes are the calls made, in program order.
      - Array reads are total (default [0]); every statement below carries
        the shapes under which Python's accesses are in range. *)

From Stdlib Require Import QArith Qminmax Qabs Lqa Lia List String Bool PeanoNat ZArith.
From Stdlib Require Import Sorted.
From Stdlib Require Floats.
From stdpp Require Import base list gmap strings.
Import ListNotations.

Local Open Scope Q_scope.

(** ** Python: exceptions, results, effectful programs *)

Module py.

(** An f-string: literal text interleaved with formatted values. *)
Inductive piece : Type :=
| Lit (s : string)
| FNat (n : nat)
| FInt (z : Z)
| FShape (sh : list nat)
| FArr (xs : list Q).

Definition fstring : Type := list piece.

Inductive exn : Type :=
| ValueError (msg : fstring)
| RuntimeError (msg : fstring)
| IndexError (msg : fstring)
| ZeroDivisionError (msg : fstring)
| OverflowError (msg : fstring).

Definition message (e : exn) : fstring :=
  match e with
  | ValueError m | RuntimeError m | IndexError m | ZeroDivisionError m
  | OverflowError m => m
  end.

(** [sub in s] on Python strings. *)
Definition contains (sub s : string) : bool :=
  match String.index 0 sub s with
  | Some _ => true
  | None => false
  end.

(** The literal text of the message mentions [sub]. *)
Definition cites (sub : string) (m : fstring) : bool :=
  existsb (fun p => match p with Lit s => contains sub s | _ => false end) m.

Inductive result (A : Type) : Type :=
| Ok (a : A)
| Raise (e : exn).
Arguments Ok {A} a.
Arguments Raise {A} e.

Definition rbind {A B} (r : result A) (f : A -> result B) : result B :=
  match r with
  | Ok a => f a
  | Raise e => Raise e
  end.

(** Programs over a family [E] of external calls ([E X] is a call that
    answers with an [X]). *)
Inductive prog (E : Type -> Type) (A : Type) : Type :=
| Ret (a : A)
| Throw (e : exn)
| Vis (X : Type) (ev : E X) (k : X -> prog E A).
Arguments Ret {E A} a.
Arguments Throw {E A} e.
Arguments Vis {E A X} ev k.

Fixpoint bind {E A B} (p : prog E A) (f : A -> prog E B) : prog E B :=
  match p with
  | Ret a => f a
  | Throw e => Throw e
  | Vis ev k => Vis ev (fun x => bind (k x) f)
  end.

Definition call {E X} (ev : E X) : prog E X := Vis ev Ret.

Definition lift {E A} (r : result A) : prog E A :=
  match r with
  | Ok a => Ret a
  | Raise e => Throw e
  end.

(** Running a program against an environment that answers every call
    and may change from one call to the next (a clock, an engine). *)
Fixpoint run {E A S} (env : forall X, E X -> S -> X * S) (p : prog E A) (s : S)
    : result A * S :=
  match p with
  | Ret a => (Ok a, s)
  | Throw e => (Raise e, s)
  | Vis ev k => let '(x, s') := env _ ev s in run env (k x) s'
  end.

(** [for i in range(n): for j in range(m): body], threading the state. *)
Definition for_range {S} (n : nat) (body : nat -> S -> S) (s : S) : S :=
  fold_left (fun s i => body i s) (seq 0 n) s.
Definition for_range2 {S} (n m : nat) (body : nat -> nat -> S -> S) (s : S) : S :=
  for_range n (fun i => for_range m (body i)) s.

(** A loop whose body may [return]: the first iteration that returns
    decides; [None] when the loop runs to its end. *)
Fixpoint for_return {A B} (body : A -> option B) (xs : list A) : option B :=
  match xs with
  | [] => None
  | x :: xs' =>
      match body x with
      | Some b => Some b
      | None => for_return body xs'
      end
  end.

(** [enumerate(xs)]. *)
Definition enumerate {A} (xs : list A) : list (nat * A) := zip (seq 0 (length xs)) xs.

(** [xs.index(x)] on a list of integers: the first position, or
    [ValueError]. *)
Fixpoint index (xs : list Z) (x : Z) : result nat :=
  match xs with
  | [] => Raise (ValueError [FInt x; Lit " is not in list"])
  | y :: ys => if (y =? x)%Z then Ok 0%nat else rbind (index ys x) (fun i => Ok (S i))
  end.

(** [int(x)]: truncation toward zero. *)
Definition int (x : Q) : Z := Z.quot (Qnum x) (Z.pos (Qden x)).

(** An integer passed where the wrapped C++ function takes an [int64_t]:
    outside the range the wrapper raises [OverflowError]. *)
Definition fits_int64 (z : Z) : bool := (- 2 ^ 63 <=? z)%Z && (z <=? 2 ^ 63 - 1)%Z.

(** [x / n] with [n] an [int]: a zero divisor raises. *)
Definition truediv (x : Q) (n : nat) : result Q :=
  if (n =? 0)%nat then Raise (ZeroDivisionError [Lit "float division by zero"])
  else Ok (x / inject_Z (Z.of_nat n)).

(** The program makes no external call at all. *)
Definition silent {E A} (p : prog E A) : Prop :=
  match p with
  | Vis _ _ => False
  | _ => True
  end.

End py.

#[global] Instance prog_ret {E} : MRet (py.prog E) := fun A a => py.Ret a.
#[global] Instance prog_bind {E} : MBind (py.prog E) := fun A B f p => py.bind p f.

(** ** NumPy arrays over the rationals *)

Module np.
Import py.

Record ndarray : Type := mk { shape : list nat; data : list Q }.

Definition size_of (sh : list nat) : nat := fold_right Nat.mul 1%nat sh.
Definition ndim (a : ndarray) : nat := length (shape a).
Definition dim (a : ndarray) (k : nat) : nat := nth k (shape a) 0%nat.

(** The buffer has as many cells as the shape says. *)
Definition wf (a : ndarray) : Prop := length (data a) = size_of (shape a).

Definition full (sh : list nat) (v : Q) : ndarray := mk sh (repeat v (size_of sh)).
Definition zeros (sh : list nat) : ndarray := full sh 0.
Definition ones (sh : list nat) : ndarray := full sh 1.

(** [a[i]] and [a[i, j]]. *)
Definition item1 (a : ndarray) (i : nat) : Q := nth i (data a) 0.
Definition item2 (a : ndarray) (i j : nat) : Q := nth (i * dim a 1 + j) (data a) 0.

(** [a[i, j] = v]. *)
Definition setitem2 (a : ndarray) (i j : nat) (v : Q) : ndarray :=
  mk (shape a) (<[(i * dim a 1 + j)%nat := v]> (data a)).

(** [a[i, :]] and [a[:, j]], as lists. *)
Definition row (a : ndarray) (i : nat) : list Q := map (item2 a i) (seq 0 (dim a 1)).
Definition col (a : ndarray) (j : nat) : list Q :=
  map (fun i => item2 a i j) (seq 0 (dim a 0)).

Definition sum (xs : list Q) : Q := fold_right Qplus 0 xs.

(** [a.sum(axis=0)], [a.sum(axis=1)] of a matrix. *)
Definition sum_axis0 (a : ndarray) : ndarray :=
  mk [dim a 1] (map (fun j => sum (col a j)) (seq 0 (dim a 1))).
Definition sum_axis1 (a : ndarray) : ndarray :=
  mk [dim a 0] (map (fun i => sum (row a i)) (seq 0 (dim a 0))).

(** Elementwise operations between arrays of one shape, and with a scalar. *)
Definition map2 (f : Q -> Q -> Q) (a b : ndarray) : ndarray :=
  mk (shape a) (zip_with f (data a) (data b)).
Definition mul := map2 Qmult.
Definition sub := map2 Qminus.
Definition smap (f : Q -> Q) (a : ndarray) : ndarray := mk (shape a) (map f (data a)).
Definition div_scalar (a : ndarray) (c : Q) : ndarray := smap (fun x => x / c) a.
Definition mul_scalar (a : ndarray) (c : Q) : ndarray := smap (fun x => x * c) a.
Definition maximum (a : ndarray) (c : Q) : ndarray := smap (fun x => Qmax x c) a.

Definition Qltb (x y : Q) : bool := negb (Qle_bool y x).

(** The builtin [max(a, b)]: the first of the largest. *)
Definition max2 (a b : Q) : Q := if Qltb a b then b else a.

(** [n_agents, n_goods = a.shape]. *)
Definition unpack2 (sh : list nat) : result (nat * nat) :=
  match sh with
  | [n; m] => Ok (n, m)
  | _ => Raise (ValueError [Lit "cannot unpack shape "; FShape sh; Lit " into 2 values"])
  end.

(** [(xs * ys).sum()] on two vectors. *)
Definition dot (xs ys : list Q) : Q := sum (zip_with Qmult xs ys).

(** [np.sort]: ascending. *)
Fixpoint insert_asc (x : Q) (xs : list Q) : list Q :=
  match xs with
  | [] => [x]
  | y :: ys => if Qle_bool x y then x :: y :: ys else y :: insert_asc x ys
  end.
Definition sort (xs : list Q) : list Q := fold_right insert_asc [] xs.

(** A bound that may be [np.inf] / [solver.infinity()]. *)
Inductive ubound : Type := Finite (q : Q) | Infinity.

(** [a[i, :] = xs]. *)
Definition setrow (a : ndarray) (i : nat) (xs : list Q) : ndarray :=
  for_range (dim a 1) (fun j a => setitem2 a i j (nth j xs 0)) a.

(** [a.flatten()]. *)
Definition flatten (a : ndarray) : ndarray := mk [length (data a)] (data a).

(** [np.any(a < c)], [np.any(a <= c)], [np.all(a >= c)]. *)
Definition any_lt (a : ndarray) (c : Q) : bool := existsb (fun x => Qltb x c) (data a).
Definition any_le (a : ndarray) (c : Q) : bool := existsb (fun x => Qle_bool x c) (data a).
Definition all_ge (a : ndarray) (c : Q) : bool := forallb (fun x => Qle_bool c x) (data a).

(** [np.allclose(a, b, atol=atol)]: the relative tolerance keeps its
    default, [rtol = 1e-5].  On finite numbers [np.isclose] is
    [(abs(x - y) <= atol + rtol * abs(y)) | (x == y)]; the second disjunct
    is that of NumPy 2.0 and later, and changes the answer only when
    [atol + rtol * abs(y)] is negative. *)
Definition rtol : Q := 1 # 100000.
Definition isclose (atol x y : Q) : bool :=
  Qle_bool (Qabs (x - y)) (atol + rtol * Qabs y) || Qeq_bool x y.
Definition allclose_scalar (xs : list Q) (y atol : Q) : bool :=
  forallb (fun x => isclose atol x y) xs.
Definition allclose (xs ys : list Q) (atol : Q) : bool :=
  forallb (fun p => isclose atol (fst p) (snd p)) (zip xs ys).

(** [a.min()], [a.max()]: no identity on an empty array. *)
Definition amin (a : ndarray) : result Q :=
  match data a with
  | [] => Raise (ValueError
            [Lit "zero-size array to reduction operation minimum which has no identity"])
  | x :: xs => Ok (fold_left Qmin xs x)
  end.
Definition amax (a : ndarray) : result Q :=
  match data a with
  | [] => Raise (ValueError
            [Lit "zero-size array to reduction operation maximum which has no identity"])
  | x :: xs => Ok (fold_left Qmax xs x)
  end.

(** [x.reshape((n, m))]. *)
Definition reshape2 (a : ndarray) (n m : nat) : result ndarray :=
  if (length (data a) =? n * m)%nat then Ok (mk [n; m] (data a))
  else Raise (ValueError [Lit "cannot reshape array of size "; FNat (length (data a));
                          Lit " into shape "; FShape [n; m]]).

Definition shape_eqb (s1 s2 : list nat) : bool := bool_decide (s1 = s2).

(** [a[:, j] /= c] and [a[:, j] = v], cell by cell down the column. *)
Definition update_col (f : Q -> Q) (j : nat) (a : ndarray) : ndarray :=
  for_range (dim a 0) (fun i a => setitem2 a i j (f (item2 a i j))) a.
Definition idiv_col (j : nat) (c : Q) : ndarray -> ndarray := update_col (fun x => x / c) j.
Definition fill_col (j : nat) (v : Q) : ndarray -> ndarray := update_col (fun _ => v) j.

(** Arrays live in a store; a variable holds a reference.  [a.copy()]
    allocates a fresh cell. *)
Abbreviation heap := (list ndarray).
Abbreviation loc := nat.
Definition deref (h : heap) (l : loc) : ndarray := default (zeros [0%nat]) (h !! l).
Definition copy (l : loc) (h : heap) : loc * heap := (length h, h ++ [deref h l]).

End np.

(** What a metadata bag or summary dict may hold. *)
Inductive pyval : Type :=
| VNone
| VBool (b : bool)
| VInt (n : nat)
| VFloat (q : Q)
| VStr (s : string)
| VArr (a : np.ndarray).

(** ** fair_division/models.py *)

Module models.
Import py np.

Record AllocationResult : Type := {
  allocation : ndarray;
  utilities : ndarray;
  objective_value : Q;
  solver_status : string;
  solve_time : Q;
  metadata : gmap string pyval
}.

(** [AllocationResult.__post_init__]. *)
Definition __post_init__ (self : AllocationResult) : result unit :=
  match shape (allocation self) with
  | [n_agents; n_goods] =>
      if any_lt (allocation self) (- (1 # 1000000000)) then
        Raise (ValueError [Lit "Allocation contains negative values"])
      else
        let col_sums := sum_axis0 (allocation self) in
        if negb (allclose_scalar (data col_sums) 1 (1 # 1000000)) then
          Raise (ValueError [Lit "Goods not fully allocated. Column sums: ";
                             FArr (data col_sums)])
        else if negb (shape_eqb (shape (utilities self)) [n_agents]) then
          Raise (ValueError [Lit "Utilities shape "; FShape (shape (utilities self));
                             Lit " doesn't match n_agents="; FNat n_agents])
        else Ok tt
  | sh =>
      Raise (ValueError [Lit "cannot unpack shape "; FShape sh; Lit " into 2 values"])
  end.

(** The dataclass constructor: fill the fields, then run the validation;
    an exception there means no object. *)
Definition new_AllocationResult (allocation utilities : ndarray) (objective_value : Q)
    (solver_status : string) (solve_time : Q) (metadata : gmap string pyval)
    : result AllocationResult :=
  let self := Build_AllocationResult allocation utilities objective_value
                solver_status solve_time metadata in
  rbind (__post_init__ self) (fun _ => Ok self).

Record FairnessReport : Type := {
  fr_utilities : ndarray;
  total_utility : Q;
  nash_welfare : Q;
  min_utility : Q;
  is_pareto_efficient : bool;
  pareto_check_note : fstring;
  envy_matrix : ndarray;
  max_envy : Q;
  is_envy_free : bool;
  envious_pairs : list (nat * nat * Q);
  proportional_shares : ndarray;
  proportionality_gaps : ndarray;
  is_proportional : bool;
  is_symmetric_instance : bool;
  is_symmetric_allocation : bool;
  fairness_summary : gmap string pyval
}.

End models.

(** ** fair_division/utils.py *)

Module utils.
Import py np.

Definition validate_inputs (utilities entitlements : ndarray) : result (nat * nat) :=
  if negb (ndim utilities =? 2)%nat then
    Raise (ValueError [Lit "utilities must be 2D, got shape "; FShape (shape utilities)])
  else
    let n_agents := dim utilities 0 in
    let n_goods := dim utilities 1 in
    if negb (shape_eqb (shape entitlements) [n_agents]) then
      Raise (ValueError [Lit "entitlements shape "; FShape (shape entitlements);
                         Lit " doesn't match n_agents="; FNat n_agents])
    else if any_lt utilities 0 then
      Raise (ValueError [Lit "Utilities must be non-negative"])
    else if any_le entitlements 0 then
      Raise (ValueError [Lit "Entitlements must be strictly positive"])
    else Ok (n_agents, n_goods).

(** One turn of the loop of [normalize_allocation] on column [j] of the
    array at [allocation]. *)
Definition normalize_column (allocation : loc) (tolerance : Q) (n_agents j : nat)
    (h : heap) : result heap :=
  let col_sum := sum (col (deref h allocation) j) in
  if Qltb tolerance (Qabs (col_sum - 1)) then
    if Qltb tolerance col_sum then
      Ok (alter (idiv_col j col_sum) allocation h)
    else
      if (n_agents =? 0)%nat then
        Raise (ZeroDivisionError [Lit "float division by zero"])
      else
        Ok (alter (fill_col j (1 / inject_Z (Z.of_nat n_agents))) allocation h)
  else Ok h.

Fixpoint normalize_columns (allocation : loc) (tolerance : Q) (n_agents : nat)
    (js : list nat) (h : heap) : result heap :=
  match js with
  | [] => Ok h
  | j :: js' =>
      rbind (normalize_column allocation tolerance n_agents j h)
            (normalize_columns allocation tolerance n_agents js')
  end.

(** [normalize_allocation(allocation, tolerance)]: the argument is a
    reference; the result is the reference returned and the store left
    behind. *)
Definition normalize_allocation (allocation : loc) (tolerance : Q) (h : heap)
    : result (loc * heap) :=
  let '(allocation, h) := copy allocation h in
  match shape (deref h allocation) with
  | [n_agents; n_goods] =>
      rbind (normalize_columns allocation tolerance n_agents (seq 0 n_goods) h)
            (fun h' => Ok (allocation, h'))
  | sh => Raise (ValueError [Lit "cannot unpack shape "; FShape sh; Lit " into 2 values"])
  end.

(** [generate_symmetric_utilities(n_agents, utilities_per_agent)]:
    [np.tile(v, (n_agents, 1))] of a vector stacks [n_agents] copies of it
    as rows. *)
Definition generate_symmetric_utilities (n_agents : nat) (utilities_per_agent : ndarray)
    : ndarray :=
  mk [n_agents; dim utilities_per_agent 0]
     (concat (repeat (data utilities_per_agent) n_agents)).

End utils.

(** ** fair_division/maxmin_solver.py *)

Module maxmin_solver.
Import py np models.

(** The linear program handed to OR-Tools.  The solver object is filled by
    [NumVar], [Objective] and [Constraint] calls and read by [Solve]; the
    model is what those calls have accumulated. *)
Inductive var : Type := X (i j : nat) | T.
Record NumVar : Type := { var_lb : Q; var_ub : ubound; var_name : fstring }.
Record Constraint : Type := {
  c_lb : Q; c_ub : ubound; c_name : fstring;
  coefficients : list (var * Q)
}.
Record Model : Type := {
  time_limit_ms : Z;
  x : list (nat * nat * NumVar);
  t : NumVar;
  objective : list (var * Q);
  maximization : bool;
  constraints : list Constraint
}.

Inductive Status : Type :=
| OPTIMAL | FEASIBLE | INFEASIBLE | UNBOUNDED | ABNORMAL | MODEL_INVALID | NOT_SOLVED.

(** What [Solve] leaves in the solver: a status and the values that
    [solution_value()] reads. *)
Record Answer : Type := {
  status : Status;
  x_value : nat -> nat -> Q;
  t_value : Q
}.

Inductive ortools : Type -> Type :=
| CreateSolver (name : string) : ortools bool
| time_time : ortools Q
| Solve (m : Model) : ortools Answer.

(** A point of the program: every variable within its bounds and every
    constraint row within its range. *)
Definition in_range (lb : Q) (ub : ubound) (v : Q) : bool :=
  Qle_bool lb v && match ub with Finite u => Qle_bool v u | Infinity => true end.
Definition value (a : Answer) (v : var) : Q :=
  match v with
  | X i j => x_value a i j
  | T => t_value a
  end.
Definition feasible (m : Model) (a : Answer) : bool :=
  forallb (fun '(i, j, nv) => in_range (var_lb nv) (var_ub nv) (x_value a i j)) (x m)
  && in_range (var_lb (t m)) (var_ub (t m)) (t_value a)
  && forallb (fun c =>
       in_range (c_lb c) (c_ub c)
         (sum (map (fun '(v, q) => q * value a v) (coefficients c))))
       (constraints m).

(** What GLOP promises of a point it reports as [OPTIMAL] or [FEASIBLE]:
    bounds and rows hold up to its primal feasibility tolerance [slack]
    ([1e-6] unless the caller changes it, which this caller does not). *)
Definition widen (slack : Q) (ub : ubound) : ubound :=
  match ub with Finite u => Finite (u + slack) | Infinity => Infinity end.
Definition feasible_within (slack : Q) (m : Model) (a : Answer) : bool :=
  forallb (fun '(i, j, nv) =>
       in_range (var_lb nv - slack) (widen slack (var_ub nv)) (x_value a i j)) (x m)
  && in_range (var_lb (t m) - slack) (widen slack (var_ub (t m))) (t_value a)
  && forallb (fun c =>
       in_range (c_lb c - slack) (widen slack (c_ub c))
         (sum (map (fun '(v, q) => q * value a v) (coefficients c))))
       (constraints m).

Definition pairs (n m : nat) : list (nat * nat) :=
  flat_map (fun i => map (pair i) (seq 0 m)) (seq 0 n).

Definition build_model (utilities entitlements : ndarray) (epsilon time_limit_seconds : Q)
    (n_agents n_goods : nat) : Model :=
  {| time_limit_ms := int (time_limit_seconds * 1000);
     x := map (fun ij => (ij, {| var_lb := 0; var_ub := Finite 1;
                                 var_name := [Lit "x_"; FNat ij.1; Lit "_"; FNat ij.2] |}))
              (pairs n_agents n_goods);
     t := {| var_lb := epsilon; var_ub := Infinity;
             var_name := [Lit "min_normalized_utility"] |};
     objective := [(T, 1)];
     maximization := true;
     constraints :=
       map (fun i => {| c_lb := 0; c_ub := Infinity;
                        c_name := [Lit "min_utility_agent_"; FNat i];
                        coefficients :=
                          map (fun j => (X i j, item2 utilities i j)) (seq 0 n_goods)
                          ++ [(T, - item1 entitlements i)] |})
           (seq 0 n_agents)
       ++
       map (fun j => {| c_lb := 1; c_ub := Finite 1;
                        c_name := [Lit "allocate_good_"; FNat j];
                        coefficients := map (fun i => (X i j, 1)) (seq 0 n_agents) |})
           (seq 0 n_goods) |}.

Definition solve_maxmin_allocation (utilities entitlements : ndarray)
    (epsilon time_limit_seconds : Q) : prog ortools AllocationResult :=
  if negb (ndim utilities =? 2)%nat then
    Throw (ValueError [Lit "utilities must be 2D, got shape "; FShape (shape utilities)])
  else
    let n_agents := dim utilities 0 in
    let n_goods := dim utilities 1 in
    if negb (shape_eqb (shape entitlements) [n_agents]) then
      Throw (ValueError [Lit "entitlements shape "; FShape (shape entitlements);
                         Lit " doesn't match n_agents="; FNat n_agents])
    else if any_lt utilities 0 then
      Throw (ValueError [Lit "Utilities must be non-negative"])
    else if any_le entitlements 0 then
      Throw (ValueError [Lit "Entitlements must be strictly positive"])
    else if Qle_bool epsilon 0 then
      Throw (ValueError [Lit "epsilon must be positive"])
    else
      solver ← call (CreateSolver "GLOP");
      if negb solver then Throw (RuntimeError [Lit "Could not create OR-Tools solver"])
      else if negb (fits_int64 (int (time_limit_seconds * 1000))) then
        (* [SetTimeLimit] takes an [int64_t] *)
        Throw (OverflowError
                 [Lit "in method 'Solver_SetTimeLimit', argument 2 of type 'int64_t'"])
      else
        let model := build_model utilities entitlements epsilon time_limit_seconds
                       n_agents n_goods in
        start_time ← call time_time;
        answer ← call (Solve model);
        end_time ← call time_time;
        let solve_time := end_time - start_time in
        let extract (solver_status : string) : prog ortools AllocationResult :=
          let allocation :=
            for_range2 n_agents n_goods
              (fun i j a => setitem2 a i j (x_value answer i j))
              (zeros [n_agents; n_goods]) in
          let realized_utilities := sum_axis1 (mul allocation utilities) in
          let objective_value := t_value answer in
          lift (new_AllocationResult allocation realized_utilities objective_value
                  solver_status solve_time
                  {[ "min_normalized_utility" := VFloat objective_value;
                     "normalized_utilities" :=
                       VArr (map2 Qdiv realized_utilities entitlements);
                     "algorithm" := VStr "max_min_egalitarian" ]}) in
        match status answer with
        | OPTIMAL => extract "optimal"
        | FEASIBLE => extract "feasible"
        | _ =>
            lift (new_AllocationResult (zeros [n_agents; n_goods]) (zeros [n_agents]) 0
                    "infeasible" solve_time
                    {[ "error" := VStr "No feasible solution found" ]})
        end.

End maxmin_solver.

(** ** fair_division/nash_solver.py *)

Module nash_solver.
Import py np models.

(** The arguments of [scipy.optimize.minimize] and its [OptimizeResult]. *)
Record LinearConstraint : Type := { lc_A : ndarray; lc_lb : ndarray; lc_ub : ndarray }.
Record NonlinearConstraint : Type := {
  nlc_fun : ndarray -> result ndarray;
  nlc_lb : ndarray;
  nlc_ub : list ubound;
  nlc_jac : ndarray -> result ndarray
}.
Record Problem : Type := {
  p_fun : ndarray -> result Q;
  p_x0 : ndarray;
  p_method : string;
  p_jac : ndarray -> result ndarray;
  p_constraints : LinearConstraint * NonlinearConstraint;
  p_bounds : list (Q * Q);
  p_options : gmap string pyval
}.
Record OptimizeResult : Type := {
  res_x : ndarray;
  res_fun : Q;
  success : bool;
  message : string;
  nit : option nat
}.

Inductive scipy : Type -> Type :=
| time_time : scipy Q
| minimize (p : Problem) : scipy OptimizeResult.

Section WithTranscendentals.

(** [np.log] and [np.exp] have no rational model; they are parameters. *)
Variables np_log np_exp : Q -> Q.

(** The problem handed to [minimize]: objective, gradient, constraints,
    bounds, initial guess and options, as the function body builds them.
    The quotient [1.0 / n_agents] of the initial guess raises when there is
    no agent: [solve_nash_allocation] evaluates it first, and reaches
    [minimize] with this problem only when it has a value. *)
Definition build_problem (utilities entitlements : ndarray) (epsilon : Q)
    (solver_options : option (gmap string pyval)) (n_agents n_goods : nat) : Problem :=
  let weights := div_scalar entitlements (sum (data entitlements)) in
  let unflatten (x_flat : ndarray) : result ndarray :=
    reshape2 x_flat n_agents n_goods in
  let objective (x_flat : ndarray) : result Q :=
    rbind (unflatten x_flat) (fun x =>
      let agent_utilities := maximum (sum_axis1 (mul x utilities)) epsilon in
      let nash_welfare := sum (data (mul weights (smap np_log agent_utilities))) in
      Ok (- nash_welfare)) in
  let objective_grad (x_flat : ndarray) : result ndarray :=
    rbind (unflatten x_flat) (fun x =>
      let agent_utilities := maximum (sum_axis1 (mul x utilities)) epsilon in
      let grad_matrix :=
        for_range n_agents
          (fun i g => setrow g i
             (map (fun u => item1 weights i * u / item1 agent_utilities i)
                  (row utilities i)))
          (zeros [n_agents; n_goods]) in
      Ok (smap Qopp (flatten grad_matrix))) in
  let A_eq :=
    for_range2 n_goods n_agents
      (fun j i a => setitem2 a j (i * n_goods + j) 1)
      (zeros [n_goods; (n_agents * n_goods)%nat]) in
  let b_eq := ones [n_goods] in
  let linear_constraint := {| lc_A := A_eq; lc_lb := b_eq; lc_ub := b_eq |} in
  let utility_constraints (x_flat : ndarray) : result ndarray :=
    rbind (unflatten x_flat) (fun x => Ok (sum_axis1 (mul x utilities))) in
  let utility_constraints_jac (x_flat : ndarray) : result ndarray :=
    Ok (for_range2 n_agents n_goods
          (fun i j jac => setitem2 jac i (i * n_goods + j) (item2 utilities i j))
          (zeros [n_agents; (n_agents * n_goods)%nat])) in
  let nonlinear_constraint :=
    {| nlc_fun := utility_constraints;
       nlc_lb := full [n_agents] epsilon;
       nlc_ub := repeat Infinity n_agents;
       nlc_jac := utility_constraints_jac |} in
  let bounds := repeat (0, 1) (n_agents * n_goods) in
  let x0 := full [(n_agents * n_goods)%nat] (1 / inject_Z (Z.of_nat n_agents)) in
  let solver_options := default ∅ solver_options in
  let max_iter := default (VInt 1000) (solver_options !! "maxiter") in
  let options : gmap string pyval :=
    solver_options ∪
    {[ "maxiter" := max_iter; "disp" := VBool false;
       "ftol" := VFloat (1 # 1000000000) ]} in
  {| p_fun := objective; p_x0 := x0; p_method := "SLSQP";
     p_jac := objective_grad;
     p_constraints := (linear_constraint, nonlinear_constraint);
     p_bounds := bounds; p_options := options |}.

(** The metadata bag of a Nash result. *)
Definition nash_metadata (res : OptimizeResult) : gmap string pyval :=
  let objective_value := - res_fun res in
  let nash_product := np_exp objective_value in
  {[ "log_nash_welfare" := VFloat objective_value;
     "nash_product" := VFloat nash_product;
     "algorithm" := VStr "nash_social_welfare";
     "scipy_message" := VStr (message res);
     "scipy_success" := VBool (success res);
     "iterations" := match nit res with Some k => VInt k | None => VNone end ]}.

Definition solve_nash_allocation (utilities entitlements : ndarray)
    (epsilon time_limit_seconds : Q) (solver_options : option (gmap string pyval))
    : prog scipy AllocationResult :=
  if negb (ndim utilities =? 2)%nat then
    Throw (ValueError [Lit "utilities must be 2D, got shape "; FShape (shape utilities)])
  else
    let n_agents := dim utilities 0 in
    let n_goods := dim utilities 1 in
    if negb (shape_eqb (shape entitlements) [n_agents]) then
      Throw (ValueError [Lit "entitlements shape "; FShape (shape entitlements);
                         Lit " doesn't match n_agents="; FNat n_agents])
    else if any_lt utilities 0 then
      Throw (ValueError [Lit "Utilities must be non-negative"])
    else if any_le entitlements 0 then
      Throw (ValueError [Lit "Entitlements must be strictly positive"])
    else if Qle_bool epsilon 0 then
      Throw (ValueError [Lit "epsilon must be positive"])
    else
      (* x0 = np.full(n_agents * n_goods, 1.0 / n_agents) *)
      _ ← lift (truediv 1 n_agents);
      start_time ← call time_time;
      res ← call (minimize (build_problem utilities entitlements epsilon solver_options
                              n_agents n_goods));
      end_time ← call time_time;
      let solve_time := end_time - start_time in
      x_opt ← lift (reshape2 (res_x res) n_agents n_goods);
      let agent_utilities := sum_axis1 (mul x_opt utilities) in
      let objective_value := - res_fun res in
      let solver_status := if success res then "optimal" else "feasible" in
      lift (new_AllocationResult x_opt agent_utilities objective_value
              solver_status solve_time (nash_metadata res)).

End WithTranscendentals.

End nash_solver.

(** ** fair_division/diagnostics.py *)

Module diagnostics.
Import py np models.

Definition _check_pareto_efficiency_heuristic (allocation utilities realized_utilities : ndarray)
    (tolerance : Q) : result (bool * fstring) :=
  rbind (unpack2 (shape allocation)) (fun '(n_agents, n_goods) =>
    let col_sums := sum_axis0 allocation in
    if negb (allclose_scalar (data col_sums) 1 tolerance) then
      Ok (false, [Lit "Goods not fully allocated"])
    else
      match
        for_return (fun j =>
          for_return (fun i =>
            if Qltb tolerance (item2 allocation i j) && Qltb (item2 utilities i j) tolerance
            then
              for_return (fun k =>
                if negb (k =? i)%nat && Qltb tolerance (item2 utilities k j)
                   && Qltb (item2 allocation k j) (1 - tolerance)
                then Some (j, i, k) else None)
                (seq 0 n_agents)
            else None)
            (seq 0 n_agents))
          (seq 0 n_goods)
      with
      | Some (j, i, k) =>
          Ok (false, [Lit "Good "; FNat j; Lit " allocated inefficiently (agent "; FNat i;
                      Lit " values it 0, agent "; FNat k; Lit " values it positive)"])
      | None => Ok (true, [Lit "No obvious inefficiency detected (heuristic check)"])
      end).

(** [envious_pairs.sort(key=lambda x: x[2], reverse=True)]: stable. *)
Fixpoint insert_desc (p : nat * nat * Q) (ps : list (nat * nat * Q)) : list (nat * nat * Q) :=
  match ps with
  | [] => [p]
  | q :: ps' => if Qltb q.2 p.2 then p :: q :: ps' else q :: insert_desc p ps'
  end.
Definition sort_desc (ps : list (nat * nat * Q)) : list (nat * nat * Q) :=
  fold_left (fun acc p => insert_desc p acc) ps [].

(** The body of the double loop of [_analyze_envy], on the pair
    [(envy_matrix, envious_pairs)]. *)
Definition envy_step (allocation utilities realized_utilities : ndarray) (tolerance : Q)
    (i k : nat) (st : ndarray * list (nat * nat * Q)) : ndarray * list (nat * nat * Q) :=
  if (i =? k)%nat then st
  else
    let bundle_k := row allocation k in
    let utility_i_for_k := dot (row utilities i) bundle_k in
    let envy := utility_i_for_k - item1 realized_utilities i in
    let envy_matrix := setitem2 st.1 i k (max2 0 envy) in
    if Qltb tolerance envy then (envy_matrix, st.2 ++ [(i, k, envy)])
    else (envy_matrix, st.2).

Definition _analyze_envy (allocation utilities realized_utilities : ndarray) (tolerance : Q)
    : result (ndarray * Q * bool * list (nat * nat * Q)) :=
  let n_agents := length (data realized_utilities) in
  let '(envy_matrix, envious_pairs) :=
    for_range2 n_agents n_agents
      (envy_step allocation utilities realized_utilities tolerance)
      (zeros [n_agents; n_agents], []) in
  rbind (amax envy_matrix) (fun max_envy =>
    let is_envy_free := Qle_bool max_envy tolerance in
    Ok (envy_matrix, max_envy, is_envy_free, sort_desc envious_pairs)).

Definition _check_symmetric_instance (utilities entitlements : ndarray) (tolerance : Q)
    : result bool :=
  let n_agents := dim utilities 0 in
  if negb (forallb (fun i => allclose (row utilities i) (row utilities 0) tolerance)
             (seq 1 (n_agents - 1)))
  then Ok false
  else
    match data entitlements with
    | [] => Raise (IndexError [Lit "index 0 is out of bounds for axis 0 with size 0"])
    | e0 :: _ => Ok (allclose_scalar (data entitlements) e0 tolerance)
    end.

Definition _check_symmetric_allocation (allocation realized_utilities utilities entitlements
    : ndarray) (tolerance : Q) : bool :=
  let n_agents := dim utilities 0 in
  forallb (fun i =>
    forallb (fun k =>
      if allclose (row utilities i) (row utilities k) tolerance
         && Qle_bool (Qabs (item1 entitlements i - item1 entitlements k)) tolerance
      then negb (Qltb tolerance (Qabs (item1 realized_utilities i - item1 realized_utilities k)))
      else true)
      (seq (i + 1) (n_agents - (i + 1))))
    (seq 0 n_agents).

Definition _compute_overall_fairness_score (is_pareto_efficient is_envy_free is_proportional
    : bool) (max_envy : Q) : string :=
  if is_pareto_efficient && is_envy_free && is_proportional then
    "Excellent (Pareto + EF + Proportional)"
  else if is_pareto_efficient && is_envy_free then "Very Good (Pareto + EF)"
  else if is_pareto_efficient && Qltb max_envy (1 # 10) then "Good (Pareto + Low Envy)"
  else if is_pareto_efficient then "Fair (Pareto Efficient)"
  else if is_envy_free then "Fair (Envy-Free)"
  else "Limited (Some fairness issues)".

(** The Gini coefficient of the utilities, as the formula reads on exact
    cells.  Its two terms cancel when all utilities are equal; in float64
    they cancel only up to rounding, and no statement below rests on the
    value of this field. *)
Definition _compute_welfare_concentration (utilities : ndarray) : Q :=
  let n := length (data utilities) in
  if (n =? 0)%nat then 0
  else
    let sorted_utilities := sort (data utilities) in
    let total := sum sorted_utilities in
    if Qeq_bool total 0 then 0
    else
      let nq := inject_Z (Z.of_nat n) in
      let ranks := map (fun r => inject_Z (Z.of_nat r)) (seq 1 n) in
      (2 * dot ranks sorted_utilities) / (nq * total) - (nq + 1) / nq.

Definition compute_envy_matrix (allocation utilities : ndarray) : ndarray :=
  let n_agents := dim allocation 0 in
  let realized_utilities := sum_axis1 (mul allocation utilities) in
  for_range2 n_agents n_agents
    (fun i k envy_matrix =>
       if (i =? k)%nat then envy_matrix
       else
         let bundle_k := row allocation k in
         let utility_i_for_k := dot (row utilities i) bundle_k in
         setitem2 envy_matrix i k (max2 0 (utility_i_for_k - item1 realized_utilities i)))
    (zeros [n_agents; n_agents]).

Definition check_ef1 (allocation utilities : ndarray) (tolerance : Q) : result bool :=
  rbind (unpack2 (shape allocation)) (fun '(n_agents, n_goods) =>
    let realized_utilities := sum_axis1 (mul allocation utilities) in
    Ok (forallb (fun i =>
          forallb (fun k =>
            if (i =? k)%nat then true
            else
              let bundle_k := row allocation k in
              let utility_i_for_k := dot (row utilities i) bundle_k in
              if Qle_bool (utility_i_for_k - item1 realized_utilities i) tolerance then true
              else
                existsb (fun j =>
                  Qltb tolerance (nth j bundle_k 0)
                  && (let reduced_bundle := <[j := 0]> bundle_k in
                      let utility_i_for_reduced := dot (row utilities i) reduced_bundle in
                      Qle_bool (utility_i_for_reduced - item1 realized_utilities i) tolerance))
                  (seq 0 n_goods))
            (seq 0 n_agents))
          (seq 0 n_agents))).

(** The lines of [analyze_fairness] that lead to the proportionality gaps
    (93, 96, 118 and 119), on the cells of the arrays, for any type of
    number with its arithmetic: [np_sum] is [ndarray.sum()], and [mul],
    [truediv] and [sub] are [*], [/] and [-] on two cells. *)
Section Cells.

Context {F : Type}.
Variables (np_sum : list F -> F) (mul truediv sub : F -> F -> F).

Definition realized_utilities_of (allocation utilities : list (list F)) : list F :=
  zip_with (fun a u => np_sum (zip_with mul a u)) allocation utilities.

Definition proportionality_gaps_of (realized_utilities entitlements : list F) : list F :=
  let total_utility := np_sum realized_utilities in
  let proportional_shares :=
    map (fun w => mul (truediv w (np_sum entitlements)) total_utility) entitlements in
  zip_with sub realized_utilities proportional_shares.

End Cells.

Section WithTranscendentals.

Variables np_log np_exp : Q -> Q.

Definition analyze_fairness (allocation utilities entitlements : ndarray) (tolerance : Q)
    : result FairnessReport :=
  rbind (unpack2 (shape allocation)) (fun '(n_agents, n_goods) =>
    let realized_utilities := sum_axis1 (mul allocation utilities) in
    let total_utility := sum (data realized_utilities) in
    rbind (amin realized_utilities) (fun min_utility =>
    let positive_utilities := maximum realized_utilities (1 # 10000000000) in
    let normalized_weights := div_scalar entitlements (sum (data entitlements)) in
    let log_nash := sum (data (mul normalized_weights (smap np_log positive_utilities))) in
    let nash_welfare := np_exp log_nash in
    rbind (_check_pareto_efficiency_heuristic allocation utilities realized_utilities
             tolerance) (fun '(is_pareto_efficient, pareto_note) =>
    rbind (_analyze_envy allocation utilities realized_utilities tolerance)
      (fun '(envy_matrix, max_envy, is_envy_free, envious_pairs) =>
    let proportional_shares :=
      mul_scalar (div_scalar entitlements (sum (data entitlements))) total_utility in
    let proportionality_gaps := sub realized_utilities proportional_shares in
    let is_proportional := all_ge proportionality_gaps (- tolerance) in
    rbind (_check_symmetric_instance utilities entitlements tolerance)
      (fun is_symmetric_instance =>
    let is_symmetric_allocation :=
      _check_symmetric_allocation allocation realized_utilities utilities entitlements
        tolerance in
    rbind (amin proportionality_gaps) (fun min_gap =>
    let fairness_summary : gmap string pyval :=
      {[ "overall_fairness_score" :=
           VStr (_compute_overall_fairness_score is_pareto_efficient is_envy_free
                   is_proportional max_envy);
         "num_envious_pairs" := VInt (length envious_pairs);
         "max_proportionality_gap" := VFloat min_gap;
         "welfare_concentration" :=
           VFloat (_compute_welfare_concentration realized_utilities) ]} in
    Ok {| fr_utilities := realized_utilities;
          total_utility := total_utility;
          nash_welfare := nash_welfare;
          min_utility := min_utility;
          is_pareto_efficient := is_pareto_efficient;
          pareto_check_note := pareto_note;
          envy_matrix := envy_matrix;
          max_envy := max_envy;
          is_envy_free := is_envy_free;
          envious_pairs := envious_pairs;
          proportional_shares := proportional_shares;
          proportionality_gaps := proportionality_gaps;
          is_proportional := is_proportional;
          is_symmetric_instance := is_symmetric_instance;
          is_symmetric_allocation := is_symmetric_allocation;
          fairness_summary := fairness_summary |})))))).

End WithTranscendentals.

End diagnostics.

(** ** app/algorithms/maxmin.py (the platform) *)

Module app_algorithms_maxmin.
Import py.

(** The arguments of [scipy.optimize.linprog] and the fields read from its
    result.  Calls to the logger are left out. *)
Record LinprogResult : Type := {
  lp_success : bool;
  lp_message : string;
  lp_x : list Q
}.

Inductive highs : Type -> Type :=
| linprog (c : list Q) (A_ub : list (list Q)) (b_ub : list Q)
          (bounds : list (Q * option Q)) (method : string) : highs LinprogResult.

Record MaxMinSolver : Type := {
  agents : list Z;
  goods : list Z;
  utilities : gmap (Z * Z) Q;
  entitlements : gmap Z Q;
  good_values : gmap Z Q;
  budget : Q;
  restrictions : list (Z * Z * bool);
  n_agents : nat;
  n_goods : nat;
  n_vars : nat
}.

(** [MaxMinSolver.__init__]; [restrictions] keeps the order of the items of
    the dict it is given. *)
Definition __init__ (agents goods : list Z) (utilities : gmap (Z * Z) Q)
    (entitlements good_values : gmap Z Q) (budget : Q)
    (restrictions : option (list (Z * Z * bool))) : MaxMinSolver :=
  {| agents := agents; goods := goods; utilities := utilities;
     entitlements := entitlements; good_values := good_values; budget := budget;
     restrictions := default [] restrictions;
     n_agents := length agents; n_goods := length goods;
     n_vars := length agents * length goods + 1 |}.

(** The loop "Handle restrictions": every pair mapped to [False] gets the
    bounds [(0, 0)]. *)
Fixpoint handle_restrictions (self : MaxMinSolver) (items : list (Z * Z * bool))
    (bounds : list (Q * option Q)) : result (list (Q * option Q)) :=
  match items with
  | [] => Ok bounds
  | (agent_id, good_id, allowed) :: items' =>
      if negb allowed then
        rbind (index (agents self) agent_id) (fun i =>
        rbind (index (goods self) good_id) (fun j =>
          let idx := (i * n_goods self + j)%nat in
          handle_restrictions self items' (<[idx := (0, Some 0)]> bounds)))
      else handle_restrictions self items' bounds
  end.

Definition build_bounds (self : MaxMinSolver) : result (list (Q * option Q)) :=
  handle_restrictions self (restrictions self) (repeat (0, None) (n_vars self)).

(** The loop "Extract allocations". *)
Definition extract_allocations (self : MaxMinSolver) (x : list Q) : gmap (Z * Z) Q :=
  fold_left (fun allocations '(i, agent_id) =>
    fold_left (fun allocations '(j, good_id) =>
      let idx := (i * n_goods self + j)%nat in
      let amount := nth idx x 0 in
      if np.Qltb (1 # 1000000) amount then <[(agent_id, good_id) := amount]> allocations
      else allocations)
      (enumerate (goods self)) allocations)
    (enumerate (agents self)) (∅ : gmap (Z * Z) Q).

Definition solve (self : MaxMinSolver) : prog highs (gmap (Z * Z) Q * Q) :=
  let last := (n_vars self - 1)%nat in
  let zeros := repeat 0 (n_vars self) in
  let c := <[last := - 1]> zeros in
  let agent_rows :=
    map (fun '(i, agent_id) =>
           let row :=
             fold_left (fun row '(j, good_id) =>
               let idx := (i * n_goods self + j)%nat in
               let utility := default 0 (utilities self !! (agent_id, good_id)) in
               <[idx := - utility]> row)
               (enumerate (goods self)) zeros in
           <[last := 1]> row)
        (enumerate (agents self)) in
  let good_rows :=
    map (fun '(j, good_id) =>
           for_range (n_agents self) (fun i row => <[(i * n_goods self + j)%nat := 1]> row)
             zeros)
        (enumerate (goods self)) in
  let budget_row :=
    for_range (n_agents self) (fun i row =>
      fold_left (fun row '(j, good_id) =>
        let idx := (i * n_goods self + j)%nat in
        let value := default 0 (good_values self !! good_id) in
        <[idx := value]> row)
        (enumerate (goods self)) row)
      zeros in
  let A_ub := agent_rows ++ good_rows ++ [budget_row] in
  let b_ub := repeat 0 (n_agents self) ++ repeat 1 (n_goods self) ++ [budget self] in
  bounds ← lift (build_bounds self);
  res ← call (linprog c A_ub b_ub bounds "highs");
  if negb (lp_success res) then
    Throw (ValueError [Lit "Optimization failed: "; Lit (lp_message res)])
  else
    let allocations := extract_allocations self (lp_x res) in
    let objective_value := List.last (lp_x res) 0 in
    mret (allocations, objective_value).

End app_algorithms_maxmin.

(** ** Preconditions and engine contracts used in the statements *)

Module contracts.
Import py np.

(** Inputs on which the tests that open both solvers all pass. *)
Definition valid_inputs (utilities entitlements : ndarray) (epsilon : Q) (n m : nat) : Prop :=
  shape utilities = [n; m] /\ shape entitlements = [n]
  /\ any_lt utilities 0 = false /\ any_le entitlements 0 = false /\ 0 < epsilon.

(** A point returned by [linprog] exceeds no upper bound by more than
    [slack] (the engine's feasibility tolerance). *)
Definition respects_upper (slack : Q) (bounds : list (Q * option Q)) (x : list Q) : Prop :=
  forall idx lo hi, bounds !! idx = Some (lo, Some hi) -> nth idx x 0 <= hi + slack.

(** [U_i = sum_j allocation[i,j] * utilities[i,j]], agent [i]'s realized
    utility, and [sum_j utilities[i,j] * allocation[k,j]], what agent [i]
    makes of agent [k]'s bundle; [m] is the number of goods. *)
Definition own_utility (allocation utilities : ndarray) (m i : nat) : Q :=
  sum (map (fun j => item2 allocation i j * item2 utilities i j) (seq 0 m)).
Definition bundle_value (allocation utilities : ndarray) (m i k : nat) : Q :=
  sum (map (fun j => item2 utilities i j * item2 allocation k j) (seq 0 m)).

(** The cell [(i, j)] that [normalize_allocation] leaves, read off the
    branches of its loop: a column whose sum is within [tolerance] of [1] is
    kept; otherwise it is divided by its sum when that exceeds [tolerance],
    and set to [1 / n_agents] when it does not. *)
Definition normalized_cell (a : ndarray) (tolerance : Q) (n_agents i j : nat) : Q :=
  let col_sum := sum (col a j) in
  if Qltb tolerance (Qabs (col_sum - 1)) then
    if Qltb tolerance col_sum then item2 a i j / col_sum
    else 1 / inject_Z (Z.of_nat n_agents)
  else item2 a i j.

(** The order of [envious_pairs]: larger amounts first. *)
Definition by_amount_desc (p q : nat * nat * Q) : Prop := q.2 <= p.2.

(** The standard model of floating-point arithmetic, with unit roundoff
    [u] ([2^-53] for float64), barring overflow and underflow: an operation
    on two cells returns the exact result with a relative error of at most
    [u], and a sum of [k] cells with [k * u < 1], in whatever order the
    additions are made, is off by at most [gamma u (k - 1)] times the sum
    of the magnitudes. *)
Definition gamma (u : Q) (k : nat) : Q :=
  inject_Z (Z.of_nat k) * u / (1 - inject_Z (Z.of_nat k) * u).
Definition rounds (u : Q) (op exact : Q -> Q -> Q) : Prop :=
  forall x y, Qabs (op x y - exact x y) <= u * Qabs (exact x y).
Definition rounds_quotient (u : Q) (truediv : Q -> Q -> Q) : Prop :=
  forall x y, ~ y == 0 -> Qabs (truediv x y - x / y) <= u * Qabs (x / y).
Definition rounds_sum (u : Q) (np_sum : list Q -> Q) : Prop :=
  forall xs,
    inject_Z (Z.of_nat (length xs)) * u < 1 ->
    Qabs (np_sum xs - sum xs) <= gamma u (length xs - 1) * sum (map Qabs xs).

End contracts.

(** ** The proportionality lines in binary64 *)

Module float64.
Import Floats.
Local Open Scope float_scope.

(** [ndarray.sum()] on fewer than eight cells: one addition after the
    other. *)
Definition np_sum (xs : list float) : float := fold_left PrimFloat.add xs 0.

Definition realized_utilities : list (list float) -> list (list float) -> list float :=
  diagnostics.realized_utilities_of np_sum PrimFloat.mul.
Definition proportionality_gaps : list float -> list float -> list float :=
  diagnostics.proportionality_gaps_of np_sum PrimFloat.mul PrimFloat.div PrimFloat.sub.

(** Each of two agents holds one good, which it alone values; the
    entitlements are [4] and [1]. *)
Definition allocation : list (list float) := [[1; 0]; [0; 1]].
Definition utilities : list (list float) := [[43464098; 0]; [0; 20246634]].
Definition entitlements : list float := [4; 1].

(** The double nearest to [1e-9], and the gap sum of the instance. *)
Definition bound : float := 0x1.12e0be826d695p-30.
Definition gap_sum : float :=
  np_sum (proportionality_gaps (realized_utilities allocation utilities) entitlements).
Definition minus_two_to_the_minus_29 : float := - 0x1p-29.

End float64.

(** ** Environments and inputs of the worked scenarios *)

Module scenarios.
Import py np.

(** A clock that ticks once per reading. *)
Definition tick (clock : nat) : Q * nat := (inject_Z (Z.of_nat clock), S clock).

(** An OR-Tools that creates the solver and answers every [Solve] with the
    given answer. *)
Definition ortools_env (a : maxmin_solver.Answer)
    : forall X, maxmin_solver.ortools X -> nat -> X * nat :=
  fun X ev clock =>
    match ev in maxmin_solver.ortools X return X * nat with
    | maxmin_solver.CreateSolver _ => (true, clock)
    | maxmin_solver.time_time => tick clock
    | maxmin_solver.Solve _ => (a, clock)
    end.

(** A SciPy whose [minimize] answers with the given result. *)
Definition scipy_env (r : nash_solver.OptimizeResult)
    : forall X, nash_solver.scipy X -> nat -> X * nat :=
  fun X ev clock =>
    match ev in nash_solver.scipy X return X * nat with
    | nash_solver.time_time => tick clock
    | nash_solver.minimize _ => (r, clock)
    end.

(** What GLOP holds after finding a program infeasible: the status, and
    zeros for the values. *)
Definition infeasible_answer : maxmin_solver.Answer :=
  {| maxmin_solver.status := maxmin_solver.INFEASIBLE;
     maxmin_solver.x_value := fun _ _ => 0;
     maxmin_solver.t_value := 0 |}.

(** The largest value a row can take while every variable stays within
    [slack] of its bounds ([None]: no largest value). *)
Definition bounds_of (m : maxmin_solver.Model) (v : maxmin_solver.var) : Q * ubound :=
  match v with
  | maxmin_solver.T =>
      (maxmin_solver.var_lb (maxmin_solver.t m), maxmin_solver.var_ub (maxmin_solver.t m))
  | maxmin_solver.X i j =>
      match find (fun p => (p.1.1 =? i)%nat && (p.1.2 =? j)%nat) (maxmin_solver.x m) with
      | Some p => (maxmin_solver.var_lb p.2, maxmin_solver.var_ub p.2)
      | None => (0, Infinity)
      end
  end.
Definition largest_term (slack : Q) (m : maxmin_solver.Model)
    (term : maxmin_solver.var * Q) : option Q :=
  let '(v, q) := term in
  let '(lb, ub) := bounds_of m v in
  if Qeq_bool q 0 then Some 0
  else if Qle_bool q 0 then Some (q * (lb - slack))
  else match ub with Finite u => Some (q * (u + slack)) | Infinity => None end.
Definition largest_activity (slack : Q) (m : maxmin_solver.Model)
    (c : maxmin_solver.Constraint) : option Q :=
  fold_right (fun term acc =>
                match largest_term slack m term, acc with
                | Some a, Some b => Some (a + b)
                | _, _ => None
                end)
             (Some 0) (maxmin_solver.coefficients c).
Definition out_of_reach (slack : Q) (m : maxmin_solver.Model)
    (c : maxmin_solver.Constraint) : bool :=
  match largest_activity slack m c with
  | Some a => Qltb a (maxmin_solver.c_lb c - slack)
  | None => false
  end.

(** An OR-Tools whose GLOP, with primal tolerance [slack], finds a program
    infeasible when one of its rows is out of reach of the variables'
    bounds by more than the tolerance, and answers any other program with
    the given answer. *)
Definition glop_env (slack : Q) (a : maxmin_solver.Answer)
    : forall X, maxmin_solver.ortools X -> nat -> X * nat :=
  fun X ev clock =>
    match ev in maxmin_solver.ortools X return X * nat with
    | maxmin_solver.CreateSolver _ => (true, clock)
    | maxmin_solver.time_time => tick clock
    | maxmin_solver.Solve m =>
        (if existsb (out_of_reach slack m) (maxmin_solver.constraints m)
         then infeasible_answer else a, clock)
    end.

(** A machine where [pywraplp.Solver.CreateSolver] returns [None]. *)
Definition ortools_missing : forall X, maxmin_solver.ortools X -> nat -> X * nat :=
  fun X ev clock =>
    match ev in maxmin_solver.ortools X return X * nat with
    | maxmin_solver.CreateSolver _ => (false, clock)
    | maxmin_solver.time_time => tick clock
    | maxmin_solver.Solve _ => (infeasible_answer, clock)
    end.

(** GLOP giving the single agent the whole of the single good. *)
Definition whole_good_answer : maxmin_solver.Answer :=
  {| maxmin_solver.status := maxmin_solver.OPTIMAL;
     maxmin_solver.x_value := fun _ _ => 1;
     maxmin_solver.t_value := 1 |}.

(** SLSQP on one agent who values the single good at [0], with
    [epsilon = 1e-3]: the constraint [U_0 >= epsilon] has no solution, so
    the run fails; it stops at the point [v] (the whole good, [v = 1], is
    both the initial guess and the only point of the box that allocates the
    good), where the objective is [-log(epsilon)]. *)
Definition failed_near_whole_good (v : Q) (message : string) (nit : option nat)
    : nash_solver.OptimizeResult :=
  {| nash_solver.res_x := mk [1%nat] [v];
     nash_solver.res_fun := 6907755 # 1000000;
     nash_solver.success := false;
     nash_solver.message := message;
     nash_solver.nit := nit |}.
Definition failed_at_whole_good : nash_solver.OptimizeResult :=
  failed_near_whole_good 1 "Inequality constraints incompatible" (Some 1%nat).

(** GLOP giving each of two agents the good of its own index. *)
Definition diagonal_answer : maxmin_solver.Answer :=
  {| maxmin_solver.status := maxmin_solver.OPTIMAL;
     maxmin_solver.x_value := fun i j => if (i =? j)%nat then 1 else 0;
     maxmin_solver.t_value := 10 |}.

(** SLSQP converging to the same assignment. *)
Definition converged_at_diagonal : nash_solver.OptimizeResult :=
  {| nash_solver.res_x := mk [4%nat] [1; 0; 0; 1];
     nash_solver.res_fun := 0;
     nash_solver.success := true;
     nash_solver.message := "Optimization terminated successfully";
     nash_solver.nit := Some 12%nat |}.

(** A HiGHS that answers every [linprog] with the given result. *)
Definition highs_env (r : app_algorithms_maxmin.LinprogResult)
    : forall X, app_algorithms_maxmin.highs X -> nat -> X * nat :=
  fun X ev calls =>
    match ev in app_algorithms_maxmin.highs X return X * nat with
    | app_algorithms_maxmin.linprog _ _ _ _ _ => (r, S calls)
    end.

(** HiGHS finding the program infeasible, and HiGHS giving each of two
    agents one of two goods ([t = 5]). *)
Definition lp_infeasible : app_algorithms_maxmin.LinprogResult :=
  {| app_algorithms_maxmin.lp_success := false;
     app_algorithms_maxmin.lp_message := "The problem is infeasible.";
     app_algorithms_maxmin.lp_x := [] |}.
Definition lp_split : app_algorithms_maxmin.LinprogResult :=
  {| app_algorithms_maxmin.lp_success := true;
     app_algorithms_maxmin.lp_message := "Optimization terminated successfully.";
     app_algorithms_maxmin.lp_x := [1; 0; 0; 1; 5] |}.

Definition U_symmetric : ndarray := mk [2%nat; 2%nat] [10; 5; 5; 10].
Definition U_negative : ndarray := mk [2%nat; 2%nat] [10; - 5; 5; 10].
Definition w_equal : ndarray := mk [2%nat] [1; 1].

End scenarios.

(** * Properties *)

(** ** Arithmetic and array lemmas *)

Module np_facts.
Import py np.

Lemma Qltb_lt (x y : Q) : Qltb x y = true <-> x < y.
Proof.
  unfold Qltb. rewrite negb_true_iff, <- not_true_iff_false, Qle_bool_iff.
  split; [apply Qnot_le_lt | apply Qlt_not_le].
Qed.

Lemma Qltb_ge (x y : Q) : Qltb x y = false <-> y <= x.
Proof. unfold Qltb. rewrite negb_false_iff. apply Qle_bool_iff. Qed.

Lemma Qle_bool_gt (x y : Q) : Qle_bool x y = false <-> y < x.
Proof.
  rewrite <- not_true_iff_false, Qle_bool_iff.
  split; [apply Qnot_le_lt | apply Qlt_not_le].
Qed.

Lemma max2_Qmax (a b : Q) : max2 a b == Qmax a b.
Proof.
  unfold max2. destruct (Qltb a b) eqn:E.
  - apply Qltb_lt in E. symmetry. apply Q.max_r. lra.
  - apply Qltb_ge in E. symmetry. apply Q.max_l. exact E.
Qed.

(** Cells of a well-formed matrix are exactly its indexed entries. *)
Lemma cell_index (n m idx : nat) :
  (idx < n * m)%nat ->
  exists i j, (i < n)%nat /\ (j < m)%nat /\ idx = (i * m + j)%nat.
Proof.
  intros H. assert (Hm : (m <> 0)%nat) by (intros ->; lia).
  exists (idx / m)%nat, (idx mod m)%nat. repeat split.
  - apply Nat.Div0.div_lt_upper_bound. lia.
  - apply Nat.mod_upper_bound. exact Hm.
  - rewrite (Nat.div_mod_eq idx m) at 1. lia.
Qed.

Lemma index_cell (n m i j : nat) : (i < n)%nat -> (j < m)%nat -> (i * m + j < n * m)%nat.
Proof. intros Hi Hj. nia. Qed.

Lemma wf_matrix_length (a : ndarray) (n m : nat) :
  shape a = [n; m] -> wf a -> length (data a) = (n * m)%nat.
Proof. unfold wf. intros -> ->. simpl. lia. Qed.

Lemma In_data_item2 (a : ndarray) (n m : nat) (x : Q) :
  shape a = [n; m] -> wf a ->
  In x (data a) <-> exists i j, (i < n)%nat /\ (j < m)%nat /\ item2 a i j = x.
Proof.
  intros Hs Hw. pose proof (wf_matrix_length a n m Hs Hw) as Hl.
  unfold item2, dim. rewrite Hs. simpl. split.
  - intros Hin. destruct (In_nth _ _ 0 Hin) as (idx & Hidx & Hnth).
    rewrite Hl in Hidx. destruct (cell_index n m idx Hidx) as (i & j & Hi & Hj & ->).
    eauto.
  - intros (i & j & Hi & Hj & <-). apply nth_In. rewrite Hl. now apply index_cell.
Qed.

Lemma any_lt_spec (a : ndarray) (n m : nat) (c : Q) :
  shape a = [n; m] -> wf a ->
  any_lt a c = true <-> exists i j, (i < n)%nat /\ (j < m)%nat /\ item2 a i j < c.
Proof.
  intros Hs Hw. unfold any_lt. rewrite existsb_exists. split.
  - intros (x & Hin & Hx). apply Qltb_lt in Hx.
    apply (In_data_item2 a n m x Hs Hw) in Hin as (i & j & Hi & Hj & <-). eauto.
  - intros (i & j & Hi & Hj & Hx). exists (item2 a i j). split.
    + apply (In_data_item2 a n m _ Hs Hw). eauto.
    + now apply Qltb_lt.
Qed.

(** *** Loops *)

Lemma for_range_S {S} (n : nat) (body : nat -> S -> S) (s : S) :
  for_range (Datatypes.S n) body s = body n (for_range n body s).
Proof. unfold for_range. rewrite seq_S, fold_left_app. reflexivity. Qed.

(** Loop invariants: [P k s] after [k] iterations. *)
Lemma for_range_ind {S} (P : nat -> S -> Prop) (n : nat) (body : nat -> S -> S) (s : S) :
  P 0%nat s ->
  (forall k s', (k < n)%nat -> P k s' -> P (Datatypes.S k) (body k s')) ->
  P n (for_range n body s).
Proof.
  intros H0 Hstep. induction n as [|n IH]; [exact H0 |].
  rewrite for_range_S. apply Hstep; [lia |]. apply IH.
  intros k s' Hk. apply Hstep. lia.
Qed.

(** *** Reading and writing cells *)

Lemma nth_map_seq {A} (g : nat -> A) (n i : nat) (d : A) :
  (i < n)%nat -> nth i (map g (seq 0 n)) d = g i.
Proof.
  intros Hi. rewrite (nth_indep _ d (g 0%nat)) by (rewrite length_map, length_seq; exact Hi).
  rewrite map_nth, seq_nth by exact Hi. reflexivity.
Qed.

Lemma nth_zip_with (f : Q -> Q -> Q) (xs ys : list Q) (idx : nat) :
  (idx < length xs)%nat -> (idx < length ys)%nat ->
  nth idx (zip_with f xs ys) 0 = f (nth idx xs 0) (nth idx ys 0).
Proof.
  revert ys idx. induction xs as [|x xs IH]; intros [|y ys] [|idx]; simpl; try lia; auto.
  intros Hx Hy. apply IH; lia.
Qed.

Lemma zip_with_maps {A} (f : Q -> Q -> Q) (g h : A -> Q) (l : list A) :
  zip_with f (map g l) (map h l) = map (fun x => f (g x) (h x)) l.
Proof. induction l as [|x l IH]; simpl; [reflexivity | now rewrite IH]. Qed.

Lemma setitem2_wf (a : ndarray) (i j : nat) (v : Q) : wf a -> wf (setitem2 a i j v).
Proof. unfold wf, setitem2. cbn [shape data]. now rewrite length_insert. Qed.

Lemma cell_index_inj (m i j i' j' : nat) :
  (j < m)%nat -> (j' < m)%nat -> (i * m + j = i' * m + j')%nat -> i = i' /\ j = j'.
Proof. intros Hj Hj' E. assert (i = i') by nia. subst. split; [reflexivity | lia]. Qed.

Lemma item2_setitem2 (a : ndarray) (n m i j i' j' : nat) (v : Q) :
  shape a = [n; m] -> wf a ->
  (i < n)%nat -> (j < m)%nat -> (i' < n)%nat -> (j' < m)%nat ->
  item2 (setitem2 a i j v) i' j' = if (i' =? i)%nat && (j' =? j)%nat then v else item2 a i' j'.
Proof.
  intros Hs Hw Hi Hj Hi' Hj'. pose proof (wf_matrix_length a n m Hs Hw) as Hl.
  unfold item2, setitem2, dim. cbn [shape data]. rewrite Hs. cbn [nth].
  rewrite !nth_lookup.
  destruct ((i' =? i)%nat && (j' =? j)%nat) eqn:E.
  - apply andb_true_iff in E as [->%Nat.eqb_eq ->%Nat.eqb_eq].
    rewrite list_lookup_insert_eq; [reflexivity |]. rewrite Hl. now apply index_cell.
  - rewrite list_lookup_insert_ne; [reflexivity |].
    intros Heq. destruct (cell_index_inj m i j i' j' Hj Hj' Heq) as [-> ->].
    rewrite !Nat.eqb_refl in E. discriminate.
Qed.

(** A double loop that writes [f i j] into every cell it does not skip. *)
Lemma fill_loop_spec (skip : nat -> nat -> bool) (f : nat -> nat -> Q) (n m : nat)
    (a0 : ndarray) :
  shape a0 = [n; m] -> wf a0 ->
  let r := for_range2 n m
             (fun i j a => if skip i j then a else setitem2 a i j (f i j)) a0 in
  shape r = [n; m] /\ wf r /\
  forall i j, (i < n)%nat -> (j < m)%nat ->
    item2 r i j = if skip i j then item2 a0 i j else f i j.
Proof.
  intros Hs Hw r. subst r. unfold for_range2.
  set (P := fun (k : nat) (a : ndarray) =>
         shape a = [n; m] /\ wf a /\
         forall i j, (i < n)%nat -> (j < m)%nat ->
           item2 a i j = if (i <? k)%nat && negb (skip i j) then f i j else item2 a0 i j).
  match goal with |- context [for_range n ?body a0] =>
    assert (HP : P n (for_range n body a0)) end.
  { apply for_range_ind.
    - repeat split; auto.
    - intros k a Hk (Hsa & Hwa & Ha).
      set (R := fun (l : nat) (b : ndarray) =>
             shape b = [n; m] /\ wf b /\
             forall i j, (i < n)%nat -> (j < m)%nat ->
               item2 b i j =
                 if ((i <? k)%nat || ((i =? k)%nat && (j <? l)%nat)) && negb (skip i j)
                 then f i j else item2 a0 i j).
      match goal with |- P _ (for_range m ?body a) =>
        assert (HR : R m (for_range m body a)) end.
      { apply for_range_ind.
        - split; [exact Hsa | split; [exact Hwa |]]. intros i j Hi Hj.
          rewrite (Ha i j Hi Hj). now rewrite andb_false_r, orb_false_r.
        - intros l b Hl (Hsb & Hwb & Hb). destruct (skip k l) eqn:Esk.
          + split; [exact Hsb | split; [exact Hwb |]]. intros i j Hi Hj.
            rewrite (Hb i j Hi Hj).
            destruct (i <? k)%nat eqn:E1; [reflexivity |]. cbn [orb].
            destruct (i =? k)%nat eqn:E2; [| reflexivity]. cbn [andb].
            apply Nat.eqb_eq in E2. subst i.
            destruct (Nat.eq_dec j l) as [-> | Hne].
            * rewrite Esk. cbn [negb]. now rewrite !andb_false_r.
            * replace (j <? Datatypes.S l)%nat with (j <? l)%nat; [reflexivity |].
              destruct (Nat.ltb_spec j l), (Nat.ltb_spec j (Datatypes.S l)); auto; lia.
          + split; [exact Hsb | split; [now apply setitem2_wf |]]. intros i j Hi Hj.
            rewrite (item2_setitem2 b n m k l i j _ Hsb Hwb Hk Hl Hi Hj), (Hb i j Hi Hj).
            destruct (i =? k)%nat eqn:E2; cbn [andb].
            * apply Nat.eqb_eq in E2. subst i. rewrite Nat.ltb_irrefl. cbn [orb].
              destruct (j =? l)%nat eqn:E3.
              -- apply Nat.eqb_eq in E3. subst j. rewrite Esk.
                 replace (l <? Datatypes.S l)%nat with true; [reflexivity |].
                 symmetry. apply Nat.ltb_lt. lia.
              -- apply Nat.eqb_neq in E3.
                 replace (j <? Datatypes.S l)%nat with (j <? l)%nat; [reflexivity |].
                 destruct (Nat.ltb_spec j l), (Nat.ltb_spec j (Datatypes.S l)); auto; lia.
            * reflexivity. }
      destruct HR as (Hsb & Hwb & Hb). split; [exact Hsb | split; [exact Hwb |]].
      intros i j Hi Hj. rewrite (Hb i j Hi Hj).
      replace (i <? Datatypes.S k)%nat with ((i <? k)%nat || (i =? k)%nat).
      + replace (j <? m)%nat with true by (symmetry; apply Nat.ltb_lt; exact Hj).
        now rewrite andb_true_r.
      + destruct (Nat.ltb_spec i k), (Nat.eqb_spec i k), (Nat.ltb_spec i (Datatypes.S k));
          auto; lia. }
  destruct HP as (Hsr & Hwr & Hr). split; [exact Hsr | split; [exact Hwr |]].
  intros i j Hi Hj. rewrite (Hr i j Hi Hj).
  replace (i <? n)%nat with true by (symmetry; apply Nat.ltb_lt; exact Hi).
  cbn [andb]. destruct (skip i j); reflexivity.
Qed.

Lemma truediv_agent (x : Q) (n : nat) :
  (1 <= n)%nat -> py.truediv x n = py.Ok (x / inject_Z (Z.of_nat n)).
Proof. intros Hn. unfold py.truediv. destruct n; [lia | reflexivity]. Qed.

(** Where the tolerance is not negative, the equality disjunct of
    [np.isclose] adds nothing: the test is the comparison of the distance
    with the tolerance, in every version of NumPy. *)
Lemma isclose_true (atol x y : Q) :
  0 <= atol + rtol * Qabs y ->
  isclose atol x y = true <-> Qabs (x - y) <= atol + rtol * Qabs y.
Proof.
  intros Htol. unfold isclose. rewrite orb_true_iff, Qle_bool_iff. split.
  - intros [H | H]; [exact H |]. apply Qeq_bool_iff in H.
    assert (Hz : x - y == 0) by (rewrite H; ring).
    rewrite Hz. exact Htol.
  - intros H. now left.
Qed.

Lemma isclose_false (atol x y : Q) :
  0 <= atol + rtol * Qabs y ->
  isclose atol x y = false <-> atol + rtol * Qabs y < Qabs (x - y).
Proof.
  intros Htol. rewrite <- not_true_iff_false, (isclose_true _ _ _ Htol).
  split; [apply Qnot_le_lt | apply Qlt_not_le].
Qed.

(** Entries within the tolerance are close, whatever its sign. *)
Lemma isclose_intro (atol x y : Q) :
  Qabs (x - y) <= atol + rtol * Qabs y -> isclose atol x y = true.
Proof.
  intros H. unfold isclose. apply orb_true_iff. left. now apply Qle_bool_iff.
Qed.

Lemma allclose_scalar_intro {A} (f : A -> Q) (xs : list A) (y atol : Q) :
  (forall x, In x xs -> Qabs (f x - y) <= atol + rtol * Qabs y) ->
  allclose_scalar (map f xs) y atol = true.
Proof.
  intros H. unfold allclose_scalar. rewrite forallb_forall. intros z Hz.
  apply in_map_iff in Hz as (x & <- & Hx). apply isclose_intro, H, Hx.
Qed.

(** [np.allclose] against a scalar holds exactly when every entry is close. *)
Lemma allclose_scalar_true {A} (f : A -> Q) (xs : list A) (y atol : Q) :
  0 <= atol + rtol * Qabs y ->
  allclose_scalar (map f xs) y atol = true <->
  forall x, In x xs -> Qabs (f x - y) <= atol + rtol * Qabs y.
Proof.
  intros Htol. unfold allclose_scalar. induction xs as [|x xs IH]; simpl.
  - split; [intros _ ? [] | reflexivity].
  - rewrite andb_true_iff, IH, (isclose_true _ _ _ Htol). split.
    + intros [H1 H2] z [<-|Hz]; [exact H1 | now apply H2].
    + intros H. split; [apply H; now left | intros z Hz; apply H; now right].
Qed.

Lemma allclose_scalar_false {A} (f : A -> Q) (xs : list A) (y atol : Q) :
  0 <= atol + rtol * Qabs y ->
  allclose_scalar (map f xs) y atol = false <->
  exists x, In x xs /\ atol + rtol * Qabs y < Qabs (f x - y).
Proof.
  intros Htol. unfold allclose_scalar. induction xs as [|x xs IH]; simpl.
  - split; [discriminate | intros (? & [] & _)].
  - rewrite andb_false_iff, IH, (isclose_false _ _ _ Htol). split.
    + intros [H | (z & Hz & H)]; [exists x; split; [now left | exact H] |].
      exists z. split; [now right | exact H].
    + intros (z & [<-|Hz] & H); [now left | right; eauto].
Qed.

End np_facts.

(** Runs a solver through its opening tests on [contracts.valid_inputs]. *)
Ltac pass_validation Hv :=
  destruct Hv as (Hs & Hsw & Hneg & Hpos & Heps);
  unfold np.ndim, np.dim, np.shape_eqb; rewrite Hs, Hsw; cbn [length nth Nat.eqb negb];
  rewrite bool_decide_eq_true_2 by reflexivity; cbn [negb];
  rewrite Hneg, Hpos;
  replace (Qle_bool _ 0) with false
    by (symmetry; apply np_facts.Qle_bool_gt; exact Heps).

(** ** The result object ([models.py]) *)

Module models_facts.
Import py np models np_facts.

Lemma post_init_cases (self : AllocationResult) (n m : nat) :
  shape (allocation self) = [n; m] ->
  __post_init__ self =
    if any_lt (allocation self) (- (1 # 1000000000)) then
      Raise (ValueError [Lit "Allocation contains negative values"])
    else if negb (allclose_scalar (data (sum_axis0 (allocation self))) 1 (1 # 1000000)) then
      Raise (ValueError [Lit "Goods not fully allocated. Column sums: ";
                         FArr (data (sum_axis0 (allocation self)))])
    else if negb (shape_eqb (shape (utilities self)) [n]) then
      Raise (ValueError [Lit "Utilities shape "; FShape (shape (utilities self));
                         Lit " doesn't match n_agents="; FNat n])
    else Ok tt.
Proof. intros Hs. unfold __post_init__. rewrite Hs. reflexivity. Qed.

Lemma allclose_tolerance : (1 # 1000000) + rtol * Qabs 1 == 11 # 1000000.
Proof. reflexivity. Qed.

(** The column check of the constructor fails exactly when some column sum
    is further than [1e-6 + 1e-5 * |1.0|] from [1]. *)
Lemma column_check_false (a : ndarray) (n m : nat) :
  shape a = [n; m] ->
  allclose_scalar (data (sum_axis0 a)) 1 (1 # 1000000) = false <->
  exists j, (j < m)%nat /\ 11 # 1000000 < Qabs (sum (col a j) - 1).
Proof.
  intros Hs. unfold sum_axis0. cbn [data]. unfold dim at 1. rewrite Hs. cbn [nth].
  rewrite allclose_scalar_false by (rewrite allclose_tolerance; lra).
  setoid_rewrite allclose_tolerance.
  split; intros (j & Hj & H); exists j; (split; [|exact H]).
  - apply in_seq in Hj. lia.
  - apply in_seq. lia.
Qed.

(** C4 (as amended).  On a well-formed [n x m] allocation the constructor of
    [AllocationResult] raises if and only if some entry is below [-1e-9], or
    some column sum is further than [1.1e-5] from [1] (the absolute
    tolerance [1e-6] plus [np.allclose]'s default relative tolerance
    [1e-5 * |1.0|]), or the utilities do not have shape [(n_agents,)];
    otherwise it returns the record of its arguments. *)
Theorem constructor_raises_iff (a u : ndarray) (ov : Q) (st : string) (t : Q)
    (md : gmap string pyval) (n m : nat) :
  shape a = [n; m] -> wf a ->
  let bad :=
    (exists i j, (i < n)%nat /\ (j < m)%nat /\ item2 a i j < - (1 # 1000000000))
    \/ (exists j, (j < m)%nat /\ 11 # 1000000 < Qabs (sum (col a j) - 1))
    \/ shape u <> [n] in
  ((exists e, new_AllocationResult a u ov st t md = Raise e) <-> bad)
  /\ (~ bad ->
      new_AllocationResult a u ov st t md = Ok (Build_AllocationResult a u ov st t md)).
Proof.
  intros Hs Hw bad. unfold new_AllocationResult.
  rewrite (post_init_cases (Build_AllocationResult a u ov st t md) n m Hs).
  cbn [allocation utilities].
  pose proof (any_lt_spec a n m (- (1 # 1000000000)) Hs Hw) as Hneg.
  pose proof (column_check_false a n m Hs) as Hcol.
  destruct (any_lt a _) eqn:E1.
  { assert (bad) by (left; now apply Hneg). cbn. split; [split; eauto | tauto]. }
  destruct (allclose_scalar _ 1 _) eqn:E2; cbn [negb].
  2:{ assert (bad) by (right; left; now apply Hcol). cbn. split; [split; eauto | tauto]. }
  unfold shape_eqb. destruct (bool_decide (shape u = [n])) eqn:E3; cbn.
  - apply bool_decide_eq_true in E3.
    assert (Hgood : ~ bad).
    { intros [H | [H | H]].
      - apply Hneg in H. discriminate.
      - apply Hcol in H. discriminate.
      - contradiction. }
    split; [split; [intros [e He]; discriminate | tauto] | reflexivity].
  - apply bool_decide_eq_false in E3.
    assert (bad) by (right; now right). split; [split; eauto | tauto].
Qed.

(** A [1 x 1] allocation that meets none of the three conditions. *)
Lemma constructor_raises_iff_witness :
  let a := mk [1%nat; 1%nat] [1] in
  let u := mk [1%nat] [3] in
  shape a = [1%nat; 1%nat] /\ wf a /\
  new_AllocationResult a u 3 "optimal" 0 ∅ = Ok (Build_AllocationResult a u 3 "optimal" 0 ∅).
Proof.
  intros a u. split; [reflexivity | split; [reflexivity |]].
  apply (constructor_raises_iff a u 3 "optimal" 0 ∅ 1 1 eq_refl eq_refl).
  intros [(i & j & Hi & Hj & H) | [(j & Hj & H) | H]].
  - assert (i = 0%nat) by lia. assert (j = 0%nat) by lia. subst. vm_compute in H. discriminate.
  - assert (j = 0%nat) by lia. subst. vm_compute in H. discriminate.
  - apply H. reflexivity.
Defined.

(** C4 as stated fails: the column of this allocation sums to [1.000005],
    off by more than [1e-6], no entry is negative and the utilities have
    the right shape, yet the constructor accepts it. *)
Lemma constructor_accepts_column_off_by_5e6 :
  let a := mk [1%nat; 1%nat] [1000005 # 1000000] in
  let u := mk [1%nat] [1000005 # 1000000] in
  1 # 1000000 < Qabs (sum (col a 0) - 1)
  /\ ~ (exists e, new_AllocationResult a u 0 "optimal" 0 ∅ = Raise e).
Proof.
  intros a u. split; [reflexivity |]. intros [e He]. vm_compute in He. discriminate.
Qed.

End models_facts.

(** ** The max-min solver ([maxmin_solver.py]) *)

Module maxmin_facts.
Import py np models np_facts models_facts maxmin_solver contracts.

Lemma nth_repeat_same (v : Q) (k idx : nat) : nth idx (repeat v k) v = v.
Proof.
  revert idx. induction k as [|k IH]; intros [|idx]; simpl; auto.
Qed.

Lemma item2_zeros (sh : list nat) (i j : nat) : item2 (zeros sh) i j = 0.
Proof. unfold item2, zeros, full. cbn [data]. apply nth_repeat_same. Qed.

Lemma sum_all_zero {A} (xs : list A) : sum (map (fun _ => 0) xs) = 0.
Proof. induction xs as [|x xs IH]; simpl; [reflexivity | now rewrite IH]. Qed.

Lemma col_zeros (n m j : nat) : sum (col (zeros [n; m]) j) = 0.
Proof.
  unfold col. rewrite (map_ext _ (fun _ => 0)); [apply sum_all_zero |].
  intros i. apply item2_zeros.
Qed.

Lemma any_lt_zeros (sh : list nat) (c : Q) : c <= 0 -> any_lt (zeros sh) c = false.
Proof.
  intros Hc. unfold any_lt, zeros, full. cbn [data].
  induction (size_of sh) as [|k IH]; simpl; [reflexivity |].
  rewrite IH, orb_false_r. now apply Qltb_ge.
Qed.

(** The all-zeros result of the infeasible branch does not pass the
    constructor as soon as there is a good. *)
Lemma zero_allocation_rejected (n m : nat) (u : ndarray) (ov : Q) (st : string) (t : Q)
    (md : gmap string pyval) :
  new_AllocationResult (zeros [n; S m]) u ov st t md =
  Raise (ValueError [Lit "Goods not fully allocated. Column sums: ";
                     FArr (data (sum_axis0 (zeros [n; S m])))]).
Proof.
  unfold new_AllocationResult.
  rewrite (post_init_cases (Build_AllocationResult (zeros [n; S m]) u ov st t md)
             n (S m) eq_refl).
  cbn [allocation utilities].
  rewrite any_lt_zeros by (unfold Qle; simpl; lia).
  assert (E : allclose_scalar (data (sum_axis0 (zeros [n; S m]))) 1 (1 # 1000000) = false).
  { apply (column_check_false (zeros [n; S m]) n (S m) eq_refl). exists 0%nat. split; [lia |].
    rewrite col_zeros. reflexivity. }
  rewrite E. reflexivity.
Qed.

(** Whatever the inputs (valid, with at least one good, and a time limit
    whose milliseconds fit an [int64_t]) and whatever the engine does, a
    status other than [OPTIMAL] or [FEASIBLE] ends in the constructor's
    [ValueError], not in an [AllocationResult]. *)
Lemma infeasible_branch_raises {S : Type} (U w : ndarray) (eps tl : Q) (n m : nat)
    (env : forall X, ortools X -> S -> X * S) (s0 : S) :
  valid_inputs U w eps n (Datatypes.S m) ->
  fits_int64 (int (tl * 1000)) = true ->
  let '(solver, s1) := env _ (CreateSolver "GLOP") s0 in
  let '(_, s2) := env _ time_time s1 in
  let '(answer, s3) := env _ (Solve (build_model U w eps tl n (Datatypes.S m))) s2 in
  let '(_, s4) := env _ time_time s3 in
  solver = true -> status answer <> OPTIMAL -> status answer <> FEASIBLE ->
  run env (solve_maxmin_allocation U w eps tl) s0 =
    (Raise (ValueError [Lit "Goods not fully allocated. Column sums: ";
                        FArr (data (sum_axis0 (zeros [n; Datatypes.S m])))]), s4).
Proof.
  intros Hv Htl. unfold solve_maxmin_allocation. pass_validation Hv.
  unfold mbind, prog_bind, call. cbn [bind run].
  destruct (env _ (CreateSolver "GLOP") s0) as [solver s1].
  destruct (env _ time_time s1) as [t0 s2] eqn:E2.
  destruct (env _ (Solve _) s2) as [answer s3] eqn:E3.
  destruct (env _ time_time s3) as [t1 s4] eqn:E4.
  intros -> Hno Hnf. rewrite Htl. cbn [negb bind run]. rewrite E2, E3, E4.
  destruct (status answer); try contradiction;
    rewrite zero_allocation_rejected; reflexivity.
Qed.

(** The program of one agent who values the single good at [0], with
    [epsilon = 1e-5]: the bound [t >= epsilon] and the agent's row
    [0 * x - t >= 0] cannot both hold within a tolerance below [5e-6]. *)
Lemma worthless_good_infeasible (slack : Q) (a : Answer) :
  slack < 5 # 1000000 ->
  feasible_within slack
    (build_model (mk [1%nat; 1%nat] [0]) (mk [1%nat] [1]) (1 # 100000) 300 1 1) a = false.
Proof.
  intros Hslack. unfold feasible_within, build_model.
  cbn [x t constraints pairs flat_map seq map app forallb var_lb var_ub c_lb c_ub
       coefficients widen in_range value sum fold_right andb].
  unfold in_range.
  destruct (Qle_bool ((1 # 100000) - slack) (t_value a)) eqn:Et;
    [| now rewrite ?andb_false_r].
  destruct (Qle_bool (0 - slack)
              (item2 (mk [1%nat; 1%nat] [0]) 0 0 * x_value a 0 0
               + (- item1 (mk [1%nat] [1]) 0 * t_value a + 0))) eqn:Er;
    [| now rewrite ?andb_false_r].
  exfalso. apply Qle_bool_iff in Et, Er.
  unfold item2, item1 in Er. cbn [dim shape nth data Nat.mul Nat.add] in Er. lra.
Qed.

(** C1 at a concrete instance.  One agent who values the single good at
    [0], with [epsilon = 1e-5].  No point is within GLOP's tolerance of the
    program ([t >= 1e-5] against the agent's row [0 * x - t >= 0]), so an
    engine that reports [OPTIMAL] or [FEASIBLE] only with a point feasible
    within a tolerance below [5e-6] reports another status; the call then
    ends in the [ValueError] of the constructor's column check instead of
    returning an [AllocationResult] with status "infeasible". *)
Theorem maxmin_infeasible_raises {S : Type} (env : forall X, ortools X -> S -> X * S)
    (s0 : S) (slack : Q) :
  let U := mk [1%nat; 1%nat] [0] in
  let w := mk [1%nat] [1] in
  let epsilon := 1 # 100000 in
  let model := build_model U w epsilon 300 1 1 in
  let '(solver, s1) := env _ (CreateSolver "GLOP") s0 in
  let '(_, s2) := env _ time_time s1 in
  let '(answer, s3) := env _ (Solve model) s2 in
  let '(_, s4) := env _ time_time s3 in
  slack < 5 # 1000000 ->
  solver = true ->
  (status answer = OPTIMAL \/ status answer = FEASIBLE ->
   feasible_within slack model answer = true) ->
  (forall a, feasible_within slack model a = false)
  /\ status answer <> OPTIMAL /\ status answer <> FEASIBLE
  /\ run env (solve_maxmin_allocation U w epsilon 300) s0 =
       (Raise (ValueError [Lit "Goods not fully allocated. Column sums: "; FArr [0]]), s4).
Proof.
  intros U w epsilon model.
  assert (Hv : valid_inputs U w epsilon 1 1) by (repeat split; reflexivity).
  pose proof (infeasible_branch_raises U w epsilon 300 1 0 env s0 Hv eq_refl) as H.
  fold model in H.
  destruct (env _ (CreateSolver "GLOP") s0) as [solver s1].
  destruct (env _ time_time s1) as [t0 s2].
  destruct (env _ (Solve model) s2) as [answer s3].
  destruct (env _ time_time s3) as [t1 s4].
  intros Hslack Hsolver Hcontract.
  assert (Hnone : forall a, feasible_within slack model a = false)
    by (intros a; apply worthless_good_infeasible; exact Hslack).
  assert (Hno : status answer <> OPTIMAL).
  { intros E. rewrite Hnone in Hcontract. discriminate Hcontract. now left. }
  assert (Hnf : status answer <> FEASIBLE).
  { intros E. rewrite Hnone in Hcontract. discriminate Hcontract. now right. }
  split; [exact Hnone | split; [exact Hno | split; [exact Hnf |]]].
  exact (H Hsolver Hno Hnf).
Qed.

Lemma maxmin_infeasible_raises_witness :
  let env := scenarios.glop_env (1 # 1000000) scenarios.whole_good_answer in
  let U := mk [1%nat; 1%nat] [0] in
  let w := mk [1%nat] [1] in
  (1 # 1000000) < 5 # 1000000
  /\ status (env _ (Solve (build_model U w (1 # 100000) 300 1 1)) 1%nat).1 = INFEASIBLE
  /\ run env (solve_maxmin_allocation U w (1 # 100000) 300) 0%nat =
       (Raise (ValueError [Lit "Goods not fully allocated. Column sums: "; FArr [0]]), 2%nat).
Proof.
  intros env U w. split; [reflexivity | split; [reflexivity |]].
  pose proof (maxmin_infeasible_raises env 0%nat (1 # 1000000)) as H.
  cbv beta iota zeta delta [env scenarios.glop_env scenarios.tick] in H.
  apply H; [reflexivity | reflexivity |].
  intros [E | E]; vm_compute in E; discriminate E.
Defined.

(** The program built by [solve_maxmin_allocation] bounds every allocation
    variable by [[0, 1]]: no variable is forced to [0]. *)
Lemma model_bounds (U w : ndarray) (eps tl : Q) (n m : nat) (ij : nat * nat) (v : NumVar) :
  In (ij, v) (x (build_model U w eps tl n m)) -> var_lb v = 0 /\ var_ub v = Finite 1.
Proof.
  unfold build_model. cbn [x]. rewrite in_map_iff.
  intros (p & [= <- <-] & _). split; reflexivity.
Qed.

(** C3 as stated fails for [solve_maxmin_allocation]: it has no
    restrictions argument.  With one agent and one good, a caller who wants
    the pair [(0, 0)] forbidden still gets a program whose variable
    [x[0,0]] has upper bound [1]; the point [x[0,0] = 1], [t = 1] is feasible
    for that program, and on GLOP's answer [OPTIMAL] the solver returns it:
    the restricted pair receives the whole good. *)
Lemma restricted_pair_gets_whole_good :
  let U := mk [1%nat; 1%nat] [1] in
  let w := mk [1%nat] [1] in
  let model := build_model U w (1 # 1000000) 300 1 1 in
  (exists v, In ((0%nat, 0%nat), v) (x model) /\ var_ub v = Finite 1)
  /\ feasible model scenarios.whole_good_answer = true
  /\ exists r,
       (run (scenarios.ortools_env scenarios.whole_good_answer)
            (solve_maxmin_allocation U w (1 # 1000000) 300) 0%nat).1 = Ok r
       /\ solver_status r = "optimal"
       /\ 1 # 1000000 < item2 (allocation r) 0 0.
Proof.
  intros U w model. split; [| split].
  - eexists. split; [left; reflexivity | reflexivity].
  - vm_compute. reflexivity.
  - eexists. split; [vm_compute; reflexivity | split; reflexivity].
Qed.

(** C5 as stated fails: with a negative utility and entitlements of the
    wrong length, both solvers stop at the shape test, and the message does
    not mention "non-negative". *)
Lemma negative_utility_wrong_shape :
  let U := scenarios.U_negative in
  let w := mk [3%nat] [1; 1; 1] in
  item2 U 0 1 < 0
  /\ (exists msg, solve_maxmin_allocation U w (1 # 1000000) 300 = Throw (ValueError msg)
                  /\ cites "non-negative" msg = false)
  /\ (forall np_log np_exp, exists msg,
        nash_solver.solve_nash_allocation np_log np_exp U w (1 # 1000000) 300 None
          = Throw (ValueError msg)
        /\ cites "non-negative" msg = false).
Proof.
  intros U w. split; [reflexivity |]. split.
  - eexists. split; [vm_compute; reflexivity | reflexivity].
  - intros np_log np_exp. eexists. split; [reflexivity | reflexivity].
Qed.

(** C5 (as amended).  For every utilities matrix with a negative entry,
    entitlements of shape [(n_agents,)] and any epsilon, both solvers raise
    the [ValueError] "Utilities must be non-negative"; the program is that
    exception alone, so no call to an engine comes before it. *)
Theorem negative_utility_rejected (np_log np_exp : Q -> Q) (U w : ndarray) (eps tl : Q)
    (opts : option (gmap string pyval)) (n m i j : nat) :
  shape U = [n; m] -> wf U -> shape w = [n] ->
  (i < n)%nat -> (j < m)%nat -> item2 U i j < 0 ->
  let maxmin := solve_maxmin_allocation U w eps tl in
  let nash := nash_solver.solve_nash_allocation np_log np_exp U w eps tl opts in
  exists msg, cites "non-negative" msg = true
    /\ maxmin = Throw (ValueError msg) /\ nash = Throw (ValueError msg)
    /\ silent maxmin /\ silent nash.
Proof.
  intros Hs Hw Hsw Hi Hj Hneg maxmin nash.
  assert (E : any_lt U 0 = true) by (apply (any_lt_spec U n m 0 Hs Hw); eauto).
  exists [Lit "Utilities must be non-negative"]. split; [reflexivity |].
  subst maxmin nash.
  unfold solve_maxmin_allocation, nash_solver.solve_nash_allocation.
  unfold ndim, dim, shape_eqb. rewrite Hs, Hsw. cbn [length nth Nat.eqb negb].
  rewrite bool_decide_eq_true_2 by reflexivity. cbn [negb]. rewrite E.
  repeat split; exact I.
Qed.

Lemma negative_utility_rejected_witness :
  exists msg, cites "non-negative" msg = true
    /\ solve_maxmin_allocation scenarios.U_negative scenarios.w_equal (1 # 1000000) 300
         = Throw (ValueError msg)
    /\ nash_solver.solve_nash_allocation (fun x => x) (fun x => x)
         scenarios.U_negative scenarios.w_equal (1 # 1000000) 300 None
         = Throw (ValueError msg).
Proof.
  destruct (negative_utility_rejected (fun x => x) (fun x => x)
              scenarios.U_negative scenarios.w_equal (1 # 1000000) 300 None 2 2 0 1)
    as (msg & Hc & Hm & Hn & _); try reflexivity; try lia.
  exists msg. split; [exact Hc | split; [exact Hm | exact Hn]].
Defined.

End maxmin_facts.

(** ** The Nash solver ([nash_solver.py]) *)

Module nash_facts.
Import py np models np_facts models_facts nash_solver contracts.

Lemma sum_axis1_shape (a : ndarray) (n m : nat) :
  shape a = [n; m] -> shape (sum_axis1 a) = [n].
Proof. intros Hs. unfold sum_axis1, dim. rewrite Hs. reflexivity. Qed.

Lemma scipy_message_kept (np_exp : Q -> Q) (res : OptimizeResult) :
  nash_metadata np_exp res !! "scipy_message" = Some (VStr (message res)).
Proof. unfold nash_metadata. now simplify_map_eq. Qed.

(** C2 (as amended).  With at least one agent: when the engine reports
    failure the solver raises nothing of its own: it labels the run
    "feasible" and hands the point to the [AllocationResult] constructor.
    The run is returned, with status "feasible" and the engine's message
    under [scipy_message], exactly when the point has [n * m] cells, no
    entry below [-1e-9] and every column sum within [1.1e-5] of [1];
    otherwise the exception is the [ValueError] of the reshape or of the
    constructor, whose text is fixed and is not the engine's message. *)
Theorem failed_run_outcome {S : Type} (np_log np_exp : Q -> Q) (U w : ndarray) (eps tl : Q)
    (opts : option (gmap string pyval)) (n m : nat)
    (env : forall X, scipy X -> S -> X * S) (s0 : S) :
  valid_inputs U w eps n m ->
  (1 <= n)%nat ->
  let '(_, s1) := env _ time_time s0 in
  let '(res, s2) := env _ (minimize (build_problem np_log U w eps opts n m)) s1 in
  let '(_, s3) := env _ time_time s2 in
  success res = false ->
  let x := mk [n; m] (data (res_x res)) in
  let accepted :=
    length (data (res_x res)) = (n * m)%nat
    /\ (forall i j, (i < n)%nat -> (j < m)%nat -> - (1 # 1000000000) <= item2 x i j)
    /\ (forall j, (j < m)%nat -> Qabs (sum (col x j) - 1) <= 11 # 1000000) in
  let outcome := run env (solve_nash_allocation np_log np_exp U w eps tl opts) s0 in
  (accepted ->
     exists r, outcome = (Ok r, s3) /\ allocation r = x /\ solver_status r = "feasible"
               /\ metadata r !! "scipy_message" = Some (VStr (message res)))
  /\ (~ accepted ->
      exists lit rest, outcome = (Raise (ValueError (Lit lit :: rest)), s3)
        /\ In lit ["cannot reshape array of size ";
                   "Allocation contains negative values";
                   "Goods not fully allocated. Column sums: "]).
Proof.
  intros Hv Hn. unfold solve_nash_allocation. pose proof Hv as (HsU & _).
  pass_validation Hv. rewrite (truediv_agent 1 n Hn).
  unfold mbind, prog_bind, call. cbn [lift bind run].
  destruct (env _ time_time s0) as [t0 s1].
  destruct (env _ (minimize _) s1) as [res s2].
  destruct (env _ time_time s2) as [t1 s3].
  intros Hfail. rewrite Hfail.
  set (x := {| shape := [n; m]; data := data (res_x res) |}).
  set (accepted := length (data (res_x res)) = (n * m)%nat /\ _ /\ _).
  unfold reshape2. destruct (length (data (res_x res)) =? n * m)%nat eqn:El.
  2:{ apply Nat.eqb_neq in El. cbn [lift bind run]. split.
      - intros (Hlen & _). contradiction.
      - intros _. do 2 eexists. split; [reflexivity | now left]. }
  apply Nat.eqb_eq in El. cbn [lift bind run]. fold x.
  assert (Hsx : shape x = [n; m]) by reflexivity.
  assert (Hwx : wf x) by (unfold wf, x; cbn; lia).
  unfold new_AllocationResult.
  rewrite (post_init_cases (Build_AllocationResult x _ _ _ _ _) n m Hsx).
  cbn [allocation utilities].
  pose proof (any_lt_spec x n m (- (1 # 1000000000)) Hsx Hwx) as Hneg'.
  pose proof (column_check_false x n m Hsx) as Hcol.
  destruct (any_lt x _) eqn:E1.
  { cbn [rbind lift run]. split.
    - intros (_ & Hnn & _). destruct Hneg' as [Hex _].
      destruct (Hex eq_refl) as (i & j & Hi & Hj & Hlt).
      specialize (Hnn i j Hi Hj). lra.
    - intros _. do 2 eexists. split; [reflexivity | right; now left]. }
  destruct (allclose_scalar _ 1 _) eqn:E2; cbn [negb].
  2:{ cbn [rbind lift run]. split.
      - intros (_ & _ & Hc). destruct Hcol as [Hex _].
        destruct (Hex eq_refl) as (j & Hj & Hlt). specialize (Hc j Hj). lra.
      - intros _. do 2 eexists. split; [reflexivity | right; right; now left]. }
  assert (Esh : shape (sum_axis1 (mul x U)) = [n]) by (apply (sum_axis1_shape _ n m); reflexivity).
  unfold shape_eqb. rewrite Esh, bool_decide_eq_true_2 by reflexivity.
  cbn [negb rbind lift run]. split.
  - intros _. eexists. split; [reflexivity |]. cbn [allocation solver_status metadata].
    split; [reflexivity | split; [reflexivity | apply scipy_message_kept]].
  - intros Hna. exfalso. apply Hna. split; [exact El | split].
    + intros i j Hi Hj. apply Qnot_lt_le. intros Hlt.
      assert (false = true) by (apply Hneg'; eauto). discriminate.
    + intros j Hj. apply Qnot_lt_le. intros Hlt.
      assert (true = false) by (apply Hcol; eauto). discriminate.
Qed.

Lemma failed_run_outcome_witness :
  let U := mk [1%nat; 1%nat] [0] in
  let w := mk [1%nat] [1] in
  valid_inputs U w (1 # 1000) 1 1
  /\ success scenarios.failed_at_whole_good = false
  /\ exists r,
       run (scenarios.scipy_env scenarios.failed_at_whole_good)
           (solve_nash_allocation (fun x => x) (fun x => x) U w (1 # 1000) 300 None) 0%nat
       = (Ok r, 2%nat)
       /\ solver_status r = "feasible"
       /\ metadata r !! "scipy_message" = Some (VStr "Inequality constraints incompatible").
Proof.
  intros U w.
  assert (Hv : valid_inputs U w (1 # 1000) 1 1) by (repeat split; reflexivity).
  split; [exact Hv | split; [reflexivity |]].
  pose proof (failed_run_outcome (fun x => x) (fun x => x) U w (1 # 1000) 300 None 1 1
                (scenarios.scipy_env scenarios.failed_at_whole_good) 0%nat Hv
                (le_n 1)) as H.
  cbv beta iota delta [scenarios.scipy_env scenarios.tick] in H.
  destruct (H eq_refl) as [Hacc _]. clear H.
  destruct Hacc as (r & Hr & _ & Hst & Hmsg).
  - split; [reflexivity | split].
    + intros [|i] [|j] Hi Hj; try lia; intros HH; vm_compute in HH; discriminate HH.
    + intros [|j] Hj; try lia; intros HH; vm_compute in HH; discriminate HH.
  - exists r. split; [exact Hr | split; [exact Hst | exact Hmsg]].
Defined.

(** C2 as stated fails.  One agent values the single good at [0] and
    [epsilon] is [1e-3]: no allocation gives the agent a utility of
    [epsilon], so no point is within tolerance of feasibility and the engine
    can only report failure.  Whatever its message, when it stops within
    [1e-6] of the whole good (the initial guess) the solver raises nothing:
    it returns the point with status "feasible", the agent's utility [0]
    below [epsilon]. *)
Lemma failed_infeasible_point_returned_feasible :
  let U := mk [1%nat; 1%nat] [0] in
  let w := mk [1%nat] [1] in
  let epsilon := 1 # 1000 in
  (forall v, item1 (sum_axis1 (mul (mk [1%nat; 1%nat] [v]) U)) 0 + (1 # 1000000) < epsilon)
  /\ forall (v : Q) (msg : string) (k : option nat),
       Qabs (v - 1) <= 1 # 1000000 ->
       let res := scenarios.failed_near_whole_good v msg k in
       success res = false
       /\ exists r,
            (run (scenarios.scipy_env res)
                 (solve_nash_allocation (fun x => x) (fun x => x) U w epsilon 300 None)
                 0%nat).1 = Ok r
            /\ solver_status r = "feasible"
            /\ item2 (allocation r) 0 0 = v
            /\ item1 (utilities r) 0 < epsilon
            /\ metadata r !! "scipy_success" = Some (VBool false).
Proof.
  intros U w epsilon. split.
  - intros v. unfold item1, sum_axis1, mul, map2, row, item2, dim, sum, epsilon, U.
    cbn. lra.
  - intros v msg k Hv res. split; [reflexivity |].
    assert (Hin : valid_inputs U w epsilon 1 1) by (repeat split; reflexivity).
    unfold solve_nash_allocation. pass_validation Hin.
    unfold mbind, prog_bind, call.
    cbn [truediv Nat.eqb lift bind run scenarios.scipy_env scenarios.tick fst snd].
    unfold res, scenarios.failed_near_whole_good, reshape2.
    cbn [res_x data success length Nat.mul Nat.add Nat.eqb lift bind run].
    set (x := {| shape := [1%nat; 1%nat]; data := [v] |}).
    assert (Hsx : shape x = [1%nat; 1%nat]) by reflexivity.
    unfold new_AllocationResult.
    rewrite (post_init_cases (Build_AllocationResult x _ _ _ _ _) 1 1 Hsx).
    cbn [allocation utilities].
    assert (E1 : any_lt x (- (1 # 1000000000)) = false).
    { unfold any_lt, x. cbn [data existsb]. rewrite orb_false_r. apply Qltb_ge.
      apply Qabs_Qle_condition in Hv. lra. }
    assert (E2 : allclose_scalar (data (sum_axis0 x)) 1 (1 # 1000000) = true).
    { apply not_false_iff_true. intros E.
      apply (column_check_false x 1 1 Hsx) in E. destruct E as (j & Hj & Hlt).
      assert (j = 0%nat) by lia. subst j.
      unfold col, item2, x, dim, sum in Hlt.
      cbn [shape data nth seq map fold_right Nat.mul Nat.add] in Hlt.
      assert (Hq : v + 0 - 1 == v - 1) by ring. rewrite Hq in Hlt. lra. }
    rewrite E1, E2. cbn [negb].
    unfold shape_eqb. rewrite bool_decide_eq_true_2 by reflexivity.
    cbn [negb rbind lift run fst]. eexists. split; [reflexivity |].
    cbn [solver_status allocation utilities metadata].
    split; [reflexivity | split; [reflexivity | split]].
    + unfold item1, sum_axis1, mul, map2, row, item2, dim, sum, epsilon, U, x. cbn. lra.
    + unfold nash_metadata. now simplify_map_eq.
Qed.

End nash_facts.

(** ** The platform's LP solver ([app/algorithms/maxmin.py]) *)

Module platform_facts.
Import py np_facts app_algorithms_maxmin contracts.

Lemma fold_left_invariant {A B} (P : A -> Prop) (f : A -> B -> A) (l : list B) (a : A) :
  P a -> (forall a b, In b l -> P a -> P (f a b)) -> P (fold_left f l a).
Proof.
  revert a. induction l as [|b l IH]; intros a Ha Hstep; simpl; [exact Ha |].
  apply IH.
  - apply Hstep; [now left | exact Ha].
  - intros a' b' Hb'. apply Hstep. now right.
Qed.

Lemma index_lookup (xs : list Z) (x : Z) (i : nat) : index xs x = Ok i -> xs !! i = Some x.
Proof.
  revert i. induction xs as [|y ys IH]; intros i; simpl; [discriminate |].
  destruct (y =? x)%Z eqn:E.
  - intros [= <-]. apply Z.eqb_eq in E. now subst.
  - destruct (index ys x) as [k|e]; simpl; [|discriminate].
    intros [= <-]. simpl. now apply IH.
Qed.

Lemma index_known (xs : list Z) (x : Z) : In x xs -> exists i, index xs x = Ok i.
Proof.
  induction xs as [|y ys IH]; simpl; [intros [] |].
  intros Hin. destruct (y =? x)%Z eqn:E; [eauto |].
  destruct Hin as [-> | Hin]; [rewrite Z.eqb_refl in E; discriminate |].
  destruct (IH Hin) as [i ->]. simpl. eauto.
Qed.

Lemma enumerate_from_lookup {A} (xs : list A) (k i : nat) (y : A) :
  In (i, y) (zip (seq k (length xs)) xs) -> (k <= i)%nat /\ xs !! (i - k)%nat = Some y.
Proof.
  revert k. induction xs as [|x xs IH]; intros k; simpl; [intros [] |].
  intros [[= <- <-] | Hin].
  - split; [lia |]. now rewrite Nat.sub_diag.
  - destruct (IH _ Hin) as [Hle Hl]. split; [lia |].
    replace (i - k)%nat with (S (i - S k)) by lia. exact Hl.
Qed.

Lemma enumerate_lookup {A} (xs : list A) (i : nat) (y : A) :
  In (i, y) (enumerate xs) -> xs !! i = Some y.
Proof.
  intros Hin. destruct (enumerate_from_lookup xs 0 i y Hin) as [_ H].
  now rewrite Nat.sub_0_r in H.
Qed.

(** The loop over the restrictions succeeds when every forbidden pair names
    a known agent and good; it keeps the length of the bounds, never undoes
    a pair of bounds [(0, 0)], and sets one for every forbidden pair. *)
Lemma handle_restrictions_spec (self : MaxMinSolver) (items : list (Z * Z * bool)) :
  (forall a g, In (a, g, false) items -> In a (agents self) /\ In g (goods self)) ->
  forall bs, exists bs',
    handle_restrictions self items bs = Ok bs'
    /\ length bs' = length bs
    /\ (forall idx, bs !! idx = Some (0, Some 0) -> bs' !! idx = Some (0, Some 0))
    /\ (forall a g i j, In (a, g, false) items ->
          index (agents self) a = Ok i -> index (goods self) g = Ok j ->
          (i * n_goods self + j < length bs)%nat ->
          bs' !! (i * n_goods self + j)%nat = Some (0, Some 0)).
Proof.
  induction items as [|[[a0 g0] allowed] items IH]; intros Hknown bs.
  - exists bs. simpl. split; [reflexivity |]. split; [reflexivity |].
    split; [auto |]. intros a g i j [].
  - assert (Hknown' : forall a g, In (a, g, false) items ->
                        In a (agents self) /\ In g (goods self))
      by (intros a g Hin; apply Hknown; now right).
    simpl. destruct allowed; cbn [negb].
    + destruct (IH Hknown' bs) as (bs' & -> & Hlen & Hkeep & Hset).
      exists bs'. split; [reflexivity |]. split; [exact Hlen |]. split; [exact Hkeep |].
      intros a g i j [[=] | Hin]. now apply Hset.
    + destruct (Hknown a0 g0 (or_introl eq_refl)) as [Ha0 Hg0].
      destruct (index_known _ _ Ha0) as [i0 Ei0].
      destruct (index_known _ _ Hg0) as [j0 Ej0].
      rewrite Ei0, Ej0. cbn [rbind].
      destruct (IH Hknown' (<[(i0 * n_goods self + j0)%nat := (0, Some 0)]> bs))
        as (bs' & -> & Hlen & Hkeep & Hset).
      rewrite length_insert in Hlen.
      exists bs'. split; [reflexivity |]. split; [exact Hlen |]. split.
      * intros idx Hidx. apply Hkeep.
        destruct (decide (idx = (i0 * n_goods self + j0)%nat)) as [-> | Hne].
        -- apply list_lookup_insert_eq. now apply lookup_lt_Some in Hidx.
        -- now rewrite list_lookup_insert_ne by congruence.
      * intros a g i j [[= -> ->] | Hin] Ei Ej Hlt.
        -- rewrite Ei0 in Ei. rewrite Ej0 in Ej. injection Ei as <-. injection Ej as <-.
           apply Hkeep. now apply list_lookup_insert_eq.
        -- apply (Hset a g i j Hin Ei Ej). now rewrite length_insert.
Qed.

(** A pair whose cell holds at most [1e-6] wherever it occurs gets no entry
    in the extracted allocations. *)
Lemma extract_skips (self : MaxMinSolver) (x : list Q) (a g : Z) :
  (forall i j, agents self !! i = Some a -> goods self !! j = Some g ->
     nth (i * n_goods self + j) x 0 <= 1 # 1000000) ->
  extract_allocations self x !! (a, g) = None.
Proof.
  intros Hsmall. unfold extract_allocations.
  apply (fold_left_invariant (fun m : gmap (Z * Z) Q => m !! (a, g) = None)).
  - apply lookup_empty.
  - intros acc [i agent_id] Hi Hacc.
    apply (fold_left_invariant (fun m : gmap (Z * Z) Q => m !! (a, g) = None));
      [exact Hacc |].
    intros acc' [j good_id] Hj Hacc'.
    destruct (np.Qltb _ _) eqn:E; [| exact Hacc'].
    apply Qltb_lt in E.
    destruct (decide ((agent_id, good_id) = (a, g))) as [[= -> ->] | Hne].
    + apply enumerate_lookup in Hi, Hj. specialize (Hsmall i j Hi Hj). lra.
    + now rewrite lookup_insert_ne.
Qed.

Lemma index_bound (xs : list Z) (x : Z) (i : nat) :
  index xs x = Ok i -> (i < length xs)%nat.
Proof. intros H. apply index_lookup in H. now apply lookup_lt_Some in H. Qed.

(** C3 (as amended).  [solve_maxmin_allocation] takes no restrictions: its
    program bounds every [x[i,j]] by [[0, 1]].  It is the platform's
    [MaxMinSolver] that accepts them: for every pair mapped to [False] (of a
    known agent and good, identifiers being distinct) [solve] sets the
    bounds of that variable to [(0, 0)], and whenever the engine's point
    exceeds no upper bound by more than [1e-6], what [solve] returns has no
    amount for the restricted pair; the only exception is the failure of the
    optimisation. *)
Theorem restricted_pair_not_allocated {S : Type} (agents goods : list Z)
    (utilities : gmap (Z * Z) Q) (entitlements good_values : gmap Z Q) (budget : Q)
    (restrictions : list (Z * Z * bool)) (a g : Z) (slack : Q) :
  let self := __init__ agents goods utilities entitlements good_values budget
                (Some restrictions) in
  NoDup agents -> NoDup goods ->
  (forall a' g', In (a', g', false) restrictions -> In a' agents /\ In g' goods) ->
  In (a, g, false) restrictions ->
  slack <= 1 # 1000000 ->
  (forall U w eps tl n m ij v,
     In (ij, v) (maxmin_solver.x (maxmin_solver.build_model U w eps tl n m)) ->
     maxmin_solver.var_lb v = 0 /\ maxmin_solver.var_ub v = np.Finite 1)
  /\ exists bounds i j,
       build_bounds self = Ok bounds
       /\ index agents a = Ok i /\ index goods g = Ok j
       /\ bounds !! (i * length goods + j)%nat = Some (0, Some 0)
       /\ forall (env : forall X, highs X -> S -> X * S) (s : S),
            (forall c A b bd meth s',
               lp_success (env _ (linprog c A b bd meth) s').1 = true ->
               respects_upper slack bd (lp_x (env _ (linprog c A b bd meth) s').1)) ->
            match (run env (solve self) s).1 with
            | Ok (allocations, _) => allocations !! (a, g) = None
            | Raise e => exists msg, e = ValueError [Lit "Optimization failed: "; Lit msg]
            end.
Proof.
  intros self Hda Hdg Hknown Hin Hslack. split.
  { intros U w eps tl n m ij v. apply maxmin_facts.model_bounds. }
  destruct (Hknown a g Hin) as [Ha Hg].
  destruct (index_known _ _ Ha) as [i Ei]. destruct (index_known _ _ Hg) as [j Ej].
  destruct (handle_restrictions_spec self restrictions Hknown
              (repeat (0, None) (n_vars self))) as (bounds & Eb & Hlen & _ & Hset).
  assert (Hidx : (i * length goods + j < length agents * length goods + 1)%nat).
  { apply index_bound in Ei, Ej. nia. }
  assert (Hb : bounds !! (i * length goods + j)%nat = Some (0, Some 0)).
  { apply (Hset a g i j Hin Ei Ej). rewrite repeat_length. exact Hidx. }
  exists bounds, i, j. repeat split; auto.
  intros env s Hcontract. unfold solve.
  change (build_bounds self) with
    (handle_restrictions self restrictions (repeat (0, None) (n_vars self))).
  rewrite Eb. unfold mbind, prog_bind, call, mret, prog_ret. cbn [lift bind run].
  match goal with |- context [env _ (linprog ?c ?A ?b ?bd ?meth) s] =>
    specialize (Hcontract c A b bd meth s);
    destruct (env _ (linprog c A b bd meth) s) as [res s'] end.
  cbn [fst] in Hcontract.
  destruct (lp_success res); cbn [negb run fst]; [| eauto].
  apply extract_skips. intros i' j' Hi' Hj'.
  assert (i' = i) as ->.
  { apply (NoDup_lookup agents i' i a Hda Hi'). now apply index_lookup. }
  assert (j' = j) as ->.
  { apply (NoDup_lookup goods j' j g Hdg Hj'). now apply index_lookup. }
  specialize (Hcontract eq_refl _ _ _ Hb).
  change (n_goods self) with (length goods). lra.
Qed.

(** Agents [7] and [9], goods [3] and [4], the pair (7, 4) forbidden: the
    variable of index [0 * 2 + 1] is bounded by [(0, 0)]. *)
Lemma restricted_pair_not_allocated_witness :
  exists bounds,
    build_bounds (__init__ [7; 9]%Z [3; 4]%Z ∅ ∅ ∅ 100
                    (Some [((7, 4)%Z, false); ((9, 3)%Z, true)])) = Ok bounds
    /\ bounds !! 1%nat = Some (0, Some 0).
Proof.
  destruct (restricted_pair_not_allocated (S := unit) [7; 9]%Z [3; 4]%Z ∅ ∅ ∅ 100
              [((7, 4)%Z, false); ((9, 3)%Z, true)] 7%Z 4%Z (1 # 10000000))
    as [_ (bounds & i & j & Hb & Ei & Ej & Hl & _)].
  - apply NoDup_cons_2; [| apply NoDup_singleton].
    intros H. apply list_elem_of_In in H. destruct H as [H | []]. discriminate H.
  - apply NoDup_cons_2; [| apply NoDup_singleton].
    intros H. apply list_elem_of_In in H. destruct H as [H | []]. discriminate H.
  - intros a' g' [[= <- <-] | [[=] | []]]. split; simpl; auto.
  - now left.
  - unfold Qle. simpl. lia.
  - exists bounds. split; [exact Hb |].
    vm_compute in Ei. vm_compute in Ej. injection Ei as <-. injection Ej as <-. exact Hl.
Defined.

End platform_facts.

(** ** The diagnostics ([diagnostics.py]) *)

Module diagnostics_facts.
Import py np models np_facts diagnostics contracts.

(** *** Realized utilities and bundle values *)

Lemma item2_mul (a u : ndarray) (n m i j : nat) :
  shape a = [n; m] -> shape u = [n; m] -> wf a -> wf u ->
  (i < n)%nat -> (j < m)%nat ->
  item2 (mul a u) i j = item2 a i j * item2 u i j.
Proof.
  intros Ha Hu Hwa Hwu Hi Hj. unfold item2, mul, map2, dim. cbn [shape data].
  rewrite Ha, Hu. cbn [nth].
  apply nth_zip_with.
  - rewrite (wf_matrix_length a n m Ha Hwa). now apply index_cell.
  - rewrite (wf_matrix_length u n m Hu Hwu). now apply index_cell.
Qed.

Lemma realized_item (a u : ndarray) (n m i : nat) :
  shape a = [n; m] -> shape u = [n; m] -> wf a -> wf u -> (i < n)%nat ->
  item1 (sum_axis1 (mul a u)) i = own_utility a u m i.
Proof.
  intros Ha Hu Hwa Hwu Hi. unfold item1, sum_axis1, row, own_utility. cbn [data].
  unfold dim at 1 2. cbn [mul map2 shape]. rewrite Ha. cbn [nth].
  rewrite nth_map_seq by exact Hi. f_equal. apply map_ext_in.
  intros j Hj. apply in_seq in Hj. apply (item2_mul a u n m); auto; lia.
Qed.

Lemma realized_length (a u : ndarray) (n m : nat) :
  shape a = [n; m] -> length (data (sum_axis1 (mul a u))) = n.
Proof.
  intros Ha. unfold sum_axis1, dim. cbn [data mul map2 shape]. rewrite Ha. cbn [nth].
  now rewrite length_map, length_seq.
Qed.

Lemma dot_rows (a u : ndarray) (n m i k : nat) :
  shape a = [n; m] -> shape u = [n; m] ->
  dot (row u i) (row a k) = bundle_value a u m i k.
Proof.
  intros Ha Hu. unfold dot, row, dim, bundle_value. rewrite Ha, Hu. cbn [nth].
  now rewrite zip_with_maps.
Qed.

(** *** Loops with an early return, loops on a pair *)

Lemma for_return_some {A B} (body : A -> option B) (xs : list A) (b : B) :
  for_return body xs = Some b -> exists x, In x xs /\ body x = Some b.
Proof.
  induction xs as [|x xs IH]; simpl; [discriminate |].
  destruct (body x) eqn:E.
  - intros [= ->]. eauto.
  - intros H. destruct (IH H) as (y & Hy & Hb). eauto.
Qed.

Lemma for_range_fst {A B} (n : nat) (body : nat -> A * B -> A * B) (body1 : nat -> A -> A) :
  (forall i st, (body i st).1 = body1 i st.1) ->
  forall st, (for_range n body st).1 = for_range n body1 st.1.
Proof.
  intros Hb st. induction n as [|n IH]; [reflexivity |].
  now rewrite !for_range_S, Hb, IH.
Qed.

Lemma for_range2_fst {A B} (n m : nat) (step : nat -> nat -> A * B -> A * B)
    (step1 : nat -> nat -> A -> A) :
  (forall i j st, (step i j st).1 = step1 i j st.1) ->
  forall st, (for_range2 n m step st).1 = for_range2 n m step1 st.1.
Proof.
  intros Hs st. unfold for_range2. apply for_range_fst.
  intros i st'. apply for_range_fst. intros j st''. apply Hs.
Qed.

(** *** The largest entry *)

Lemma fold_max_spec (xs : list Q) (x : Q) :
  let v := fold_left Qmax xs x in
  In v (x :: xs) /\ forall y, In y (x :: xs) -> y <= v.
Proof.
  revert x. induction xs as [|z xs IH]; intros x; cbn [fold_left].
  - split; [now left |]. intros y [<- | []]. apply Qle_refl.
  - destruct (IH (Qmax x z)) as [Hin Hle]. split.
    + destruct Hin as [Hv | Hin]; [| right; now right].
      rewrite <- Hv. unfold Qmax, GenericMinMax.gmax.
      destruct (x ?= z); [now left | right; now left | now left].
    + intros y [<- | [<- | Hy]].
      * eapply Qle_trans; [apply Q.le_max_l | apply Hle; now left].
      * eapply Qle_trans; [apply Q.le_max_r | apply Hle; now left].
      * apply Hle. now right.
Qed.

Lemma amax_spec (a : ndarray) (v : Q) :
  amax a = Ok v -> In v (data a) /\ forall y, In y (data a) -> y <= v.
Proof.
  unfold amax. destruct (data a) as [|x xs]; [discriminate |].
  intros [= <-]. apply fold_max_spec.
Qed.

(** *** What [analyze_fairness] puts in its report *)

Lemma analyze_fairness_inv (np_log np_exp : Q -> Q) (a u w : ndarray) (tol : Q)
    (r : FairnessReport) :
  analyze_fairness np_log np_exp a u w tol = Ok r ->
  let realized := sum_axis1 (mul a u) in
  _check_pareto_efficiency_heuristic a u realized tol
    = Ok (is_pareto_efficient r, pareto_check_note r)
  /\ _analyze_envy a u realized tol
     = Ok (envy_matrix r, max_envy r, is_envy_free r, envious_pairs r)
  /\ fr_utilities r = realized
  /\ total_utility r = sum (data realized)
  /\ proportionality_gaps r
     = sub realized (mul_scalar (div_scalar w (sum (data w))) (sum (data realized))).
Proof.
  intros H. cbv zeta. unfold analyze_fairness in H.
  destruct (unpack2 (shape a)) as [[n m] | e]; cbn [rbind] in H; [| discriminate].
  destruct (amin (sum_axis1 (mul a u))) as [mn | e]; cbn [rbind] in H; [| discriminate].
  destruct (_check_pareto_efficiency_heuristic a u _ tol) as [[pe note] | e];
    cbn [rbind] in H; [| discriminate].
  destruct (_analyze_envy a u _ tol) as [[[[E mx] ef] ps] | e];
    cbn [rbind] in H; [| discriminate].
  destruct (_check_symmetric_instance u w tol) as [si | e];
    cbn [rbind] in H; [| discriminate].
  destruct (amin (sub _ _)) as [mg | e]; cbn [rbind] in H; [| discriminate].
  injection H as <-. cbn. repeat split; reflexivity.
Qed.

(** *** The envy loop *)

Lemma zeros_matrix_wf (n m : nat) : wf (zeros [n; m]).
Proof. unfold wf, zeros, full. cbn [data shape]. apply repeat_length. Qed.

Lemma envy_fill_spec (a u realized : ndarray) (n m : nat) :
  shape a = [n; m] -> shape u = [n; m] ->
  let E := for_range2 n n
             (fun i k envy_matrix =>
                if (i =? k)%nat then envy_matrix
                else setitem2 envy_matrix i k
                       (max2 0 (dot (row u i) (row a k) - item1 realized i)))
             (zeros [n; n]) in
  shape E = [n; n] /\ wf E /\
  forall i k, (i < n)%nat -> (k < n)%nat ->
    item2 E i k = if (i =? k)%nat then 0
                  else max2 0 (bundle_value a u m i k - item1 realized i).
Proof.
  intros Ha Hu E.
  destruct (fill_loop_spec Nat.eqb
              (fun i k => max2 0 (dot (row u i) (row a k) - item1 realized i))
              n n (zeros [n; n]) eq_refl (zeros_matrix_wf n n)) as (Hs & Hw & He).
  split; [exact Hs | split; [exact Hw |]]. intros i k Hi Hk.
  unfold E. rewrite (He i k Hi Hk).
  now rewrite maxmin_facts.item2_zeros, (dot_rows a u n m i k Ha Hu).
Qed.

Lemma analyze_envy_matrix (a u realized : ndarray) (tol : Q) :
  let n := length (data realized) in
  (for_range2 n n (envy_step a u realized tol) (zeros [n; n], [])).1 =
  for_range2 n n
    (fun i k envy_matrix =>
       if (i =? k)%nat then envy_matrix
       else setitem2 envy_matrix i k
              (max2 0 (dot (row u i) (row a k) - item1 realized i)))
    (zeros [n; n]).
Proof.
  intros n. apply (for_range2_fst n n (envy_step a u realized tol)).
  intros i k st. unfold envy_step. destruct (i =? k)%nat; [reflexivity |].
  destruct (Qltb tol _); reflexivity.
Qed.

Lemma analyze_envy_spec (a u realized : ndarray) (tol : Q) (n m : nat) :
  shape a = [n; m] -> shape u = [n; m] -> length (data realized) = n -> (1 <= n)%nat ->
  exists E mx ef ps,
    _analyze_envy a u realized tol = Ok (E, mx, ef, ps)
    /\ shape E = [n; n] /\ wf E
    /\ (forall i k, (i < n)%nat -> (k < n)%nat ->
          item2 E i k = if (i =? k)%nat then 0
                        else max2 0 (bundle_value a u m i k - item1 realized i))
    /\ amax E = Ok mx /\ ef = Qle_bool mx tol.
Proof.
  intros Ha Hu Hlen Hn. unfold _analyze_envy.
  pose proof (analyze_envy_matrix a u realized tol) as Hfst. cbv zeta in Hfst.
  rewrite Hlen in *.
  destruct (for_range2 n n (envy_step a u realized tol) (zeros [n; n], [])) as [E ps0].
  cbn [fst] in Hfst.
  destruct (envy_fill_spec a u realized n m Ha Hu) as (Hs & Hw & He).
  rewrite <- Hfst in Hs, Hw, He. cbv beta iota.
  destruct (amax E) as [mx | e] eqn:Emax.
  - cbn [rbind]. do 4 eexists. split; [reflexivity |].
    split; [exact Hs | split; [exact Hw | split; [exact He |]]].
    split; [exact Emax | reflexivity].
  - exfalso. unfold amax in Emax. pose proof (wf_matrix_length E n n Hs Hw) as Hl.
    destruct (data E); [simpl in Hl; nia | discriminate].
Qed.

(** *** [analyze_fairness] returns a report *)

Lemma length_zip_with_min (f : Q -> Q -> Q) (xs ys : list Q) :
  length (zip_with f xs ys) = Nat.min (length xs) (length ys).
Proof.
  revert ys. induction xs as [|x xs IH]; intros [|y ys]; simpl; auto.
Qed.

Lemma amin_ok (a : ndarray) : (1 <= length (data a))%nat -> exists v, amin a = Ok v.
Proof. unfold amin. destruct (data a); simpl; [lia | eauto]. Qed.

Lemma wf_vector_length (w : ndarray) (n : nat) : shape w = [n] -> wf w -> length (data w) = n.
Proof. unfold wf. intros -> ->. simpl. lia. Qed.

Lemma analyze_fairness_ok (np_log np_exp : Q -> Q) (a u w : ndarray) (tol : Q) (n m : nat) :
  shape a = [n; m] -> shape u = [n; m] -> shape w = [n] -> wf w -> (1 <= n)%nat ->
  exists r, analyze_fairness np_log np_exp a u w tol = Ok r.
Proof.
  intros Ha Hu Hsw Hww Hn. unfold analyze_fairness. rewrite Ha. cbn [unpack2 rbind].
  pose proof (realized_length a u n m Ha) as Hrl.
  pose proof (wf_vector_length w n Hsw Hww) as Hwl.
  destruct (amin_ok (sum_axis1 (mul a u))) as [mn ->]; [lia |]. cbn [rbind].
  assert (Hp : exists pe note,
             _check_pareto_efficiency_heuristic a u (sum_axis1 (mul a u)) tol
               = Ok (pe, note)).
  { unfold _check_pareto_efficiency_heuristic. rewrite Ha. cbn [unpack2 rbind].
    destruct (negb _); [eauto |]. destruct (for_return _ _) as [[[? ?] ?] |]; eauto. }
  destruct Hp as (pe & note & ->). cbn [rbind].
  destruct (analyze_envy_spec a u _ tol n m Ha Hu Hrl Hn) as (E & mx & ef & ps & -> & _).
  cbn [rbind].
  assert (Hsym : exists si, _check_symmetric_instance u w tol = Ok si).
  { unfold _check_symmetric_instance. destruct (negb _); [eauto |].
    destruct (data w); [simpl in Hwl; lia | eauto]. }
  destruct Hsym as (si & ->). cbn [rbind].
  match goal with |- context [amin ?g] => destruct (amin_ok g) as [mg ->] end.
  { unfold sub, map2, mul_scalar, div_scalar, smap. cbn [data].
    rewrite length_zip_with_min, !length_map. lia. }
  cbn [rbind]. eauto.
Qed.

(** C9.  On an envy-free allocation, one where no agent [i] values another
    agent [k]'s bundle more than [tolerance] above its own realized utility,
    [check_ef1] returns [True]. *)
Theorem check_ef1_envy_free (a u : ndarray) (tol : Q) (n m : nat) :
  shape a = [n; m] -> shape u = [n; m] -> wf a -> wf u ->
  (forall i k, (i < n)%nat -> (k < n)%nat -> i <> k ->
     bundle_value a u m i k - own_utility a u m i <= tol) ->
  check_ef1 a u tol = Ok true.
Proof.
  intros Ha Hu Hwa Hwu Hfree. unfold check_ef1. rewrite Ha. cbn [unpack2 rbind].
  f_equal. apply forallb_forall. intros i Hi. apply forallb_forall. intros k Hk.
  apply in_seq in Hi, Hk.
  destruct (i =? k)%nat eqn:E; [reflexivity |]. apply Nat.eqb_neq in E.
  rewrite (dot_rows a u n m i k Ha Hu), (realized_item a u n m i Ha Hu Hwa Hwu) by lia.
  assert (Hle : Qle_bool (bundle_value a u m i k - own_utility a u m i) tol = true).
  { apply Qle_bool_iff. apply Hfree; lia. }
  now rewrite Hle.
Qed.

(** Each agent holds its preferred good: nobody envies anybody. *)
Lemma check_ef1_envy_free_witness :
  check_ef1 (mk [2%nat; 2%nat] [1; 0; 0; 1]) (mk [2%nat; 2%nat] [10; 5; 5; 10])
    (1 # 1000000) = Ok true.
Proof.
  apply (check_ef1_envy_free _ _ _ 2 2); try reflexivity.
  intros [|[|i]] [|[|k]] Hi Hk Hne; try lia; intros HH; vm_compute in HH; discriminate HH.
Defined.

(** C7.  When the report says "not Pareto efficient" although every column
    of the allocation sums to [1] within the tolerance, the heuristic has
    found a good [j] and agents [i <> k] such that [i] holds more than
    [tolerance] of [j] and values it at most [tolerance], while [k] values
    it above [tolerance] and holds less than [1 - tolerance]; the note of
    the report names these indices. *)
Theorem pareto_flag_has_witness (np_log np_exp : Q -> Q) (a u w : ndarray) (tol : Q)
    (n m : nat) (r : FairnessReport) :
  analyze_fairness np_log np_exp a u w tol = Ok r ->
  is_pareto_efficient r = false ->
  shape a = [n; m] ->
  (forall j, (j < m)%nat -> Qabs (sum (col a j) - 1) <= tol) ->
  exists i k j,
    (i < n)%nat /\ (k < n)%nat /\ (j < m)%nat /\ k <> i
    /\ tol < item2 a i j /\ item2 u i j <= tol
    /\ tol < item2 u k j /\ item2 a k j < 1 - tol
    /\ pareto_check_note r =
         [Lit "Good "; FNat j; Lit " allocated inefficiently (agent "; FNat i;
          Lit " values it 0, agent "; FNat k; Lit " values it positive)"].
Proof.
  intros Hr Hflag Ha Hcols.
  destruct (analyze_fairness_inv _ _ _ _ _ _ _ Hr) as (Hp & _). clear Hr.
  unfold _check_pareto_efficiency_heuristic in Hp. rewrite Ha in Hp.
  cbn [unpack2 rbind] in Hp.
  assert (Hclose : allclose_scalar (data (sum_axis0 a)) 1 tol = true).
  { unfold sum_axis0. cbn [data]. unfold dim at 1. rewrite Ha. cbn [nth].
    apply allclose_scalar_intro. intros j Hj. apply in_seq in Hj.
    assert (0 <= rtol * Qabs 1) by (unfold Qle; simpl; lia).
    specialize (Hcols j ltac:(lia)). lra. }
  rewrite Hclose in Hp. cbn [negb] in Hp.
  destruct (for_return _ (seq 0 m)) as [[[j i] k] |] eqn:Ej.
  2:{ injection Hp as Hpe _. congruence. }
  injection Hp as _ Hnote.
  apply for_return_some in Ej as (j' & Hj' & Ei).
  apply for_return_some in Ei as (i' & Hi' & Ek).
  destruct (Qltb tol (item2 a i' j') && Qltb (item2 u i' j') tol) eqn:Eij; [| discriminate].
  apply for_return_some in Ek as (k' & Hk' & Etest).
  destruct (negb (k' =? i')%nat && Qltb tol (item2 u k' j')
            && Qltb (item2 a k' j') (1 - tol)) eqn:Ekj; [| discriminate].
  injection Etest as <- <- <-.
  apply andb_true_iff in Eij as [E1 E2].
  apply andb_true_iff in Ekj as [E34 E5]. apply andb_true_iff in E34 as [E3 E4].
  apply Qltb_lt in E1, E2, E4, E5. apply negb_true_iff, Nat.eqb_neq in E3.
  apply in_seq in Hj', Hi', Hk'.
  exists i', k', j'. repeat split; auto; try lia; try lra.
Qed.

(** Agent 0 holds all of good 1, which it values at 0 and agent 1 at 10. *)
Lemma pareto_flag_has_witness_witness :
  let a := mk [2%nat; 2%nat] [1; 1; 0; 0] in
  let u := mk [2%nat; 2%nat] [10; 0; 5; 10] in
  exists r i k j,
    analyze_fairness (fun x => x) (fun x => x) a u (mk [2%nat] [1; 1]) (1 # 1000000) = Ok r
    /\ k <> i /\ (1 # 1000000) < item2 a i j
    /\ item2 u i j <= 1 # 1000000
    /\ pareto_check_note r =
         [Lit "Good "; FNat j; Lit " allocated inefficiently (agent "; FNat i;
          Lit " values it 0, agent "; FNat k; Lit " values it positive)"].
Proof.
  intros a u.
  assert (E : exists r,
             analyze_fairness (fun x => x) (fun x => x) a u (mk [2%nat] [1; 1]) (1 # 1000000)
               = Ok r /\ is_pareto_efficient r = false)
    by (eexists; split; [vm_compute; reflexivity | reflexivity]).
  destruct E as (r & Hr & Hflag).
  destruct (pareto_flag_has_witness _ _ a u _ _ 2 2 r Hr Hflag eq_refl)
    as (i & k & j & _ & _ & _ & Hne & H1 & H2 & _ & _ & Hnote).
  - intros [|[|j]] Hj; try lia; intros HH; vm_compute in HH; discriminate HH.
  - exists r, i, k, j. repeat split; assumption.
Defined.

(** C6.  On an allocation and utilities of one shape [n x m] (and
    entitlements of shape [(n,)]), the envy matrix of [compute_envy_matrix]
    and, as soon as there is an agent, the one of the report of
    [analyze_fairness] hold [max(0, sum_j utilities[i,j] * allocation[k,j] - U_i)]
    at [(i, k)], [i <> k], and [0] on the diagonal; [max_envy] is the largest
    entry of the matrix, and [is_envy_free] is [max_envy <= tolerance]. *)
Theorem envy_matrix_spec (np_log np_exp : Q -> Q) (a u w : ndarray) (tol : Q) (n m : nat) :
  shape a = [n; m] -> shape u = [n; m] -> wf a -> wf u -> shape w = [n] -> wf w ->
  let envy_of (E : ndarray) :=
    shape E = [n; n]
    /\ (forall i k, (i < n)%nat -> (k < n)%nat -> i <> k ->
          item2 E i k == Qmax 0 (bundle_value a u m i k - own_utility a u m i))
    /\ (forall i, (i < n)%nat -> item2 E i i == 0) in
  envy_of (compute_envy_matrix a u)
  /\ ((1 <= n)%nat ->
      exists r, analyze_fairness np_log np_exp a u w tol = Ok r
        /\ envy_of (envy_matrix r)
        /\ (forall i k, (i < n)%nat -> (k < n)%nat -> item2 (envy_matrix r) i k <= max_envy r)
        /\ (exists i k, (i < n)%nat /\ (k < n)%nat /\ max_envy r = item2 (envy_matrix r) i k)
        /\ (is_envy_free r = true <-> max_envy r <= tol)).
Proof.
  intros Ha Hu Hwa Hwu Hsw Hww envy_of.
  assert (Hentries : forall E,
            shape E = [n; n] ->
            (forall i k, (i < n)%nat -> (k < n)%nat ->
               item2 E i k = if (i =? k)%nat then 0
                             else max2 0 (bundle_value a u m i k
                                          - item1 (sum_axis1 (mul a u)) i)) ->
            envy_of E).
  { intros E Hs He. split; [exact Hs | split].
    - intros i k Hi Hk Hne. rewrite (He i k Hi Hk).
      replace (i =? k)%nat with false by (symmetry; now apply Nat.eqb_neq).
      rewrite (realized_item a u n m i Ha Hu Hwa Hwu Hi). apply max2_Qmax.
    - intros i Hi. rewrite (He i i Hi Hi), Nat.eqb_refl. reflexivity. }
  split.
  - unfold compute_envy_matrix, dim. rewrite Ha. cbn [nth].
    destruct (envy_fill_spec a u (sum_axis1 (mul a u)) n m Ha Hu) as (Hs & _ & He).
    now apply Hentries.
  - intros Hn.
    destruct (analyze_fairness_ok np_log np_exp a u w tol n m Ha Hu Hsw Hww Hn) as [r Hr].
    exists r. split; [exact Hr |].
    destruct (analyze_fairness_inv _ _ _ _ _ _ _ Hr) as (_ & Henvy & _).
    destruct (analyze_envy_spec a u (sum_axis1 (mul a u)) tol n m Ha Hu
                (realized_length a u n m Ha) Hn)
      as (E & mx & ef & ps & HE & Hs & Hw & He & Hmax & Hef).
    rewrite HE in Henvy. injection Henvy as <- <- <- _.
    destruct (amax_spec E mx Hmax) as [Hin Hle].
    split; [now apply Hentries | split; [| split]].
    + intros i k Hi Hk. apply Hle. apply (In_data_item2 E n n _ Hs Hw). eauto.
    + apply (In_data_item2 E n n _ Hs Hw) in Hin as (i & k & Hi & Hk & Hik). eauto.
    + rewrite Hef. apply Qle_bool_iff.
Qed.

(** Scenario 6 of the specification: agent 0 holds both goods. *)
Lemma envy_matrix_spec_witness :
  let a := mk [2%nat; 2%nat] [1; 1; 0; 0] in
  let u := scenarios.U_symmetric in
  item2 (compute_envy_matrix a u) 1 0 == 15
  /\ exists r,
       analyze_fairness (fun x => x) (fun x => x) a u scenarios.w_equal (1 # 1000000) = Ok r
       /\ item2 (envy_matrix r) 1 0 == 15 /\ is_envy_free r = false.
Proof.
  intros a u.
  destruct (envy_matrix_spec (fun x => x) (fun x => x) a u scenarios.w_equal
              (1 # 1000000) 2 2 eq_refl eq_refl eq_refl eq_refl eq_refl eq_refl)
    as ((_ & Hc & _) & Hr).
  destruct (Hr ltac:(lia)) as (r & Hrun & (_ & He & _) & Hle & _ & Hfree).
  split.
  - rewrite (Hc 1%nat 0%nat) by lia. reflexivity.
  - exists r. split; [exact Hrun | split].
    + rewrite (He 1%nat 0%nat) by lia. reflexivity.
    + destruct (is_envy_free r); [| reflexivity]. exfalso.
      assert (Hm : max_envy r <= 1 # 1000000) by now apply Hfree.
      specialize (Hle 1%nat 0%nat ltac:(lia) ltac:(lia)).
      rewrite (He 1%nat 0%nat) in Hle by lia.
      assert (H15 : Qmax 0 (bundle_value a u 2 1 0 - own_utility a u 2 1) == 15)
        by reflexivity.
      rewrite H15 in Hle. lra.
Defined.

End diagnostics_facts.

(** ** The proportionality gaps under rounding ([diagnostics.py]) *)

Module proportionality_facts.
Import py np models np_facts diagnostics contracts diagnostics_facts.

(** The gaps of the report are those lines on exact cells. *)
Lemma report_gaps_exact_cells (np_log np_exp : Q -> Q) (a u w : ndarray) (tol : Q)
    (r : FairnessReport) :
  analyze_fairness np_log np_exp a u w tol = Ok r ->
  data (proportionality_gaps r)
  = proportionality_gaps_of sum Qmult Qdiv Qminus (data (fr_utilities r)) (data w).
Proof.
  intros Hr.
  destruct (analyze_fairness_inv _ _ _ _ _ _ _ Hr) as (_ & _ & Hut & Htot & Hgaps).
  rewrite Hgaps, Hut. unfold proportionality_gaps_of, sub, map2, mul_scalar, div_scalar, smap.
  cbn [data shape]. now rewrite map_map.
Qed.

(** *** Sums and magnitudes *)

Lemma sum_cons (x : Q) (xs : list Q) : sum (x :: xs) = x + sum xs.
Proof. reflexivity. Qed.

Lemma sum_map_le {A} (f g : A -> Q) (l : list A) :
  (forall x, In x l -> f x <= g x) -> sum (map f l) <= sum (map g l).
Proof.
  induction l as [|x l IH]; intros H; cbn [map]; [apply Qle_refl |].
  rewrite !sum_cons. apply Qplus_le_compat; [apply H; now left |].
  apply IH. intros y Hy. apply H. now right.
Qed.

Lemma sum_map_equiv {A} (f g : A -> Q) (l : list A) :
  (forall x, In x l -> f x == g x) -> sum (map f l) == sum (map g l).
Proof.
  intros H. apply Qle_antisym; apply sum_map_le; intros x Hx; rewrite (H x Hx);
    apply Qle_refl.
Qed.

Lemma sum_map_add {A} (f g : A -> Q) (l : list A) :
  sum (map (fun x => f x + g x) l) == sum (map f l) + sum (map g l).
Proof.
  induction l as [|x l IH]; cbn [map]; [reflexivity |].
  rewrite !sum_cons, IH. ring.
Qed.

Lemma sum_map_sub {A} (f g : A -> Q) (l : list A) :
  sum (map (fun x => f x - g x) l) == sum (map f l) - sum (map g l).
Proof.
  induction l as [|x l IH]; cbn [map]; [reflexivity |].
  rewrite !sum_cons, IH. ring.
Qed.

Lemma sum_map_times {A} (c : Q) (f : A -> Q) (l : list A) :
  sum (map (fun x => c * f x) l) == c * sum (map f l).
Proof.
  induction l as [|x l IH]; cbn [map]; [unfold sum; cbn; ring |].
  rewrite !sum_cons, IH. ring.
Qed.

Lemma Qabs_sum_map {A} (f : A -> Q) (l : list A) :
  Qabs (sum (map f l)) <= sum (map (fun x => Qabs (f x)) l).
Proof.
  induction l as [|x l IH]; cbn [map]; [discriminate |].
  rewrite !sum_cons. eapply Qle_trans; [apply Qabs_triangle |].
  apply Qplus_le_compat; [apply Qle_refl | exact IH].
Qed.

Lemma sum_map_abs_nonneg {A} (f : A -> Q) (l : list A) :
  0 <= sum (map (fun x => Qabs (f x)) l).
Proof.
  induction l as [|x l IH]; cbn [map]; [discriminate |].
  rewrite sum_cons. pose proof (Qabs_nonneg (f x)). lra.
Qed.

(** The gaps, one agent after the other. *)
Lemma gaps_as_map (np_sum : list Q -> Q) (mul truediv sub : Q -> Q -> Q) (r w : list Q) :
  proportionality_gaps_of np_sum mul truediv sub r w
  = map (fun p => sub p.1 (mul (truediv p.2 (np_sum w)) (np_sum r))) (zip r w).
Proof.
  unfold proportionality_gaps_of. generalize (np_sum w) (np_sum r). intros W T.
  revert w. induction r as [|x r IH]; intros [|y w]; cbn; try reflexivity.
  now rewrite IH.
Qed.

Lemma zip_fst_sum (f : Q -> Q) (r w : list Q) :
  length r = length w -> map (fun p : Q * Q => f p.1) (zip r w) = map f r.
Proof.
  revert w. induction r as [|x r IH]; intros [|y w] Hl; cbn in *; try reflexivity; try lia.
  f_equal. apply IH. lia.
Qed.

Lemma zip_snd_sum (f : Q -> Q) (r w : list Q) :
  length r = length w -> map (fun p : Q * Q => f p.2) (zip r w) = map f w.
Proof.
  revert w. induction r as [|x r IH]; intros [|y w] Hl; cbn in *; try reflexivity; try lia.
  f_equal. apply IH. lia.
Qed.

Lemma in_zip_snd (r w : list Q) (p : Q * Q) : In p (zip r w) -> In p.2 w.
Proof.
  revert w. induction r as [|x r IH]; intros [|y w] Hp; cbn in Hp; try contradiction.
  destruct Hp as [<- | Hp]; [now left | right; now apply IH].
Qed.

Lemma Qabs_triangle5 (a b c d e : Q) :
  Qabs (a + b + c + d + e) <= Qabs a + Qabs b + Qabs c + Qabs d + Qabs e.
Proof.
  pose proof (Qabs_triangle (a + b + c + d) e).
  pose proof (Qabs_triangle (a + b + c) d).
  pose proof (Qabs_triangle (a + b) c).
  pose proof (Qabs_triangle a b). lra.
Qed.

Lemma Qabs_diff_triangle (a b c : Q) : Qabs (a - c) <= Qabs (a - b) + Qabs (b - c).
Proof.
  assert (E : a - c == (a - b) + (b - c)) by ring.
  rewrite E. apply Qabs_triangle.
Qed.

(** One share: the quotient and the product each round once. *)
Lemma share_error (u : Q) (mul truediv : Q -> Q -> Q) (wi W T : Q) :
  0 <= u -> rounds u mul Qmult -> rounds_quotient u truediv ->
  0 < wi -> 0 < W ->
  let s := mul (truediv wi W) T in
  Qabs (s - wi / W * T) <= u * (2 + u) * (wi / W * Qabs T)
  /\ Qabs s <= (1 + u) * (1 + u) * (wi / W * Qabs T).
Proof.
  intros Hu Hmul Hdiv Hwi HW s.
  set (e := wi / W). set (q := truediv wi W) in *.
  assert (He : 0 < e).
  { unfold e, Qdiv. apply Qmult_lt_0_compat; [exact Hwi | now apply Qinv_lt_0_compat]. }
  assert (Hq : Qabs (q - e) <= u * e).
  { pose proof (Hdiv wi W ltac:(lra)) as H. fold q e in H.
    rewrite (Qabs_pos e) in H by lra. exact H. }
  assert (Hs : Qabs (s - q * T) <= u * (Qabs q * Qabs T)).
  { pose proof (Hmul q T) as H. fold s in H. now rewrite Qabs_Qmult in H. }
  assert (Haq : Qabs q <= (1 + u) * e).
  { assert (E : q == (q - e) + e) by ring. rewrite E at 1.
    eapply Qle_trans; [apply Qabs_triangle |]. rewrite (Qabs_pos e) by lra. lra. }
  pose proof (Qabs_nonneg T) as HT. pose proof (Qabs_nonneg q) as Hq0.
  assert (Hqt : Qabs (q * T - e * T) <= u * e * Qabs T).
  { assert (E : q * T - e * T == (q - e) * T) by ring.
    rewrite E, Qabs_Qmult. apply Qmult_le_compat_r; [exact Hq | exact HT]. }
  assert (Hprod : Qabs q * Qabs T <= (1 + u) * e * Qabs T)
    by (apply Qmult_le_compat_r; [exact Haq | exact HT]).
  assert (Hmain : Qabs (s - e * T) <= u * (2 + u) * (e * Qabs T)).
  { eapply Qle_trans; [apply (Qabs_diff_triangle s (q * T) (e * T)) |].
    assert (u * (Qabs q * Qabs T) <= u * ((1 + u) * e * Qabs T))
      by (rewrite !(Qmult_comm u); apply Qmult_le_compat_r; [exact Hprod | exact Hu]).
    lra. }
  split; [exact Hmain |].
  assert (E : s == (s - e * T) + e * T) by ring. rewrite E.
  eapply Qle_trans; [apply Qabs_triangle |].
  rewrite (Qabs_Qmult e T), (Qabs_pos e) by lra. lra.
Qed.

Lemma scale_le (c x y : Q) : 0 <= c -> x <= y -> c * x <= c * y.
Proof. intros Hc Hxy. rewrite !(Qmult_comm c). now apply Qmult_le_compat_r. Qed.

Lemma gamma_nonneg (u : Q) (k : nat) :
  0 <= u -> inject_Z (Z.of_nat k) * u < 1 -> 0 <= gamma u k.
Proof.
  intros Hu Hk. unfold gamma. set (a := inject_Z (Z.of_nat k) * u) in *.
  assert (Ha : 0 <= a).
  { unfold a. apply Qmult_le_0_compat; [| exact Hu].
    change 0 with (inject_Z 0). rewrite <- Zle_Qle. lia. }
  apply Qle_shift_div_l; lra.
Qed.

Lemma gamma_bounds (u : Q) (k : nat) :
  0 <= u -> inject_Z (Z.of_nat k) * u <= 1 # 1000 ->
  0 <= gamma u k /\ gamma u k <= (1000 # 999) * (inject_Z (Z.of_nat k) * u).
Proof.
  intros Hu Hk. unfold gamma. set (a := inject_Z (Z.of_nat k) * u) in *.
  assert (Ha : 0 <= a).
  { unfold a. apply Qmult_le_0_compat; [| exact Hu].
    change 0 with (inject_Z 0). rewrite <- Zle_Qle. lia. }
  split.
  - apply Qle_shift_div_l; lra.
  - apply Qle_shift_div_r; [lra |].
    assert (H : a * a <= a * (1 # 1000)) by (apply scale_le; lra). lra.
Qed.

(** The arithmetic of the bound, on the five error terms. *)
Lemma error_budget (u g nq R P As Ag : Q) :
  0 <= u -> 1 <= nq -> nq * u <= 1 # 1000 ->
  0 <= g -> g <= (1000 # 999) * ((nq - 1) * u) ->
  0 <= R -> 0 <= P -> 0 <= As -> 0 <= Ag ->
  (1 - g) * P <= (1 + g) * R ->
  As <= (1 + u) * (1 + u) * P ->
  Ag <= (1 + u) * (R + As) ->
  g * Ag + u * (R + As) + g * R + g * P + u * (2 + u) * P <= 5 * nq * u * R.
Proof.
  intros Hu Hn Hnu Hg0 Hg HR HP HAs HAg HP1 HAs1 HAg1.
  assert (Hu1 : u <= 1 # 1000) by nra.
  assert (Hg1 : g <= 1 # 999) by nra.
  assert (HuR0 : 0 <= u * R) by (apply Qmult_le_0_compat; assumption).
  assert (HgR : g * R <= (1000 # 999) * (nq * (u * R) - u * R)).
  { assert (H : g * R <= (1000 # 999) * ((nq - 1) * u) * R)
      by (apply Qmult_le_compat_r; assumption).
    lra. }
  assert (HgR0 : 0 <= g * R) by (apply Qmult_le_0_compat; assumption).
  assert (HgR1 : g * R <= (1 # 999) * R) by (apply Qmult_le_compat_r; assumption).
  assert (HgP0 : 0 <= g * P) by (apply Qmult_le_0_compat; assumption).
  assert (HgP1 : g * P <= (1 # 999) * P) by (apply Qmult_le_compat_r; assumption).
  assert (HPR : P <= (1000 # 998) * R) by lra.
  assert (HgP : g * P <= (1000 # 998) * (g * R)).
  { assert (H : g * P <= g * ((1000 # 998) * R)) by (apply scale_le; assumption). lra. }
  assert (HuP0 : 0 <= u * P) by (apply Qmult_le_0_compat; assumption).
  assert (HuP : u * P <= (1000 # 998) * (u * R)).
  { assert (H : u * P <= u * ((1000 # 998) * R)) by (apply scale_le; assumption). lra. }
  assert (HuP1 : u * P <= (1 # 1000) * P) by (apply Qmult_le_compat_r; assumption).
  assert (HuuP : u * (u * P) <= (1 # 1000) * (u * P)) by (apply Qmult_le_compat_r; assumption).
  assert (HuuP0 : 0 <= u * (u * P)) by (apply Qmult_le_0_compat; assumption).
  assert (HAs2 : As <= P + 2 * (u * P) + u * (u * P)) by lra.
  assert (HAsR : As <= (1005 # 1000) * R) by lra.
  assert (HuAs : u * As <= (1005 # 1000) * (u * R)).
  { assert (H : u * As <= u * ((1005 # 1000) * R)) by (apply scale_le; assumption). lra. }
  assert (HuAs0 : 0 <= u * As) by (apply Qmult_le_0_compat; assumption).
  assert (HuAs1 : u * As <= (1 # 1000) * As) by (apply Qmult_le_compat_r; assumption).
  assert (HuR1 : u * R <= (1 # 1000) * R) by (apply Qmult_le_compat_r; assumption).
  assert (HAgR : Ag <= (2008 # 1000) * R) by lra.
  assert (HgAg : g * Ag <= (2008 # 1000) * (g * R)).
  { assert (H : g * Ag <= g * ((2008 # 1000) * R)) by (apply scale_le; assumption). lra. }
  assert (Hn0 : 0 <= nq * (u * R)) by (apply Qmult_le_0_compat; lra).
  assert (E : 5 * nq * u * R == 5 * (nq * (u * R))) by ring.
  rewrite E. lra.
Qed.

Lemma sum_positive (w : list Q) :
  (forall x, In x w -> 0 < x) -> (1 <= length w)%nat ->
  0 < sum w /\ sum (map Qabs w) == sum w.
Proof.
  induction w as [|x w IH]; intros Hpos Hl; [cbn in Hl; lia |].
  assert (Hx : 0 < x) by (apply Hpos; now left).
  cbn [map]. rewrite !sum_cons, (Qabs_pos x) by lra.
  destruct w as [|y w].
  - cbn. split; [lra | reflexivity].
  - destruct IH as [IH1 IH2]; [intros z Hz; apply Hpos; now right | cbn; lia |].
    split; [lra | now rewrite IH2].
Qed.

(** C8 (as amended).  The gaps are computed in float64, and their sum is
    what rounding leaves of a quantity that is [0] in exact arithmetic.
    Under the standard model of rounding with unit roundoff [u] (barring
    overflow and underflow), for [n] agents with [n * u <= 1e-3] and
    positive entitlements, the sum of the gaps
    [U_i - (w_i / sum_k w_k) * sum_k U_k] is at most
    [5 * n * u * sum_i |U_i|] in magnitude: a bound relative to the size of
    the utilities, not an absolute one. *)
Theorem gaps_sum_rounding_bound (u : Q) (np_sum : list Q -> Q) (mul truediv sub : Q -> Q -> Q)
    (realized_utilities entitlements : list Q) (n : nat) :
  0 <= u -> rounds_sum u np_sum ->
  rounds u mul Qmult -> rounds_quotient u truediv -> rounds u sub Qminus ->
  length realized_utilities = n -> length entitlements = n ->
  (forall w, In w entitlements -> 0 < w) ->
  inject_Z (Z.of_nat n) * u <= 1 # 1000 ->
  Qabs (np_sum (proportionality_gaps_of np_sum mul truediv sub
                  realized_utilities entitlements))
  <= 5 * inject_Z (Z.of_nat n) * u * sum (map Qabs realized_utilities).
Proof.
  intros Hu Hsum Hmul Hdiv Hsub Hlr Hlw Hpos Hnu.
  rename realized_utilities into r. rename entitlements into w.
  rewrite gaps_as_map.
  set (W := np_sum w). set (T := np_sum r).
  set (s := fun p : Q * Q => mul (truediv p.2 W) T).
  set (G := fun p : Q * Q => sub p.1 (s p)).
  set (l := zip r w).
  change (map (fun p => sub p.1 (mul (truediv p.2 W) T)) l) with (map G l).
  set (R := sum (map Qabs r)).
  assert (HR : 0 <= R) by (apply (sum_map_abs_nonneg (fun x => x))).
  assert (Hll : length l = n) by (unfold l; rewrite length_zip; lia).
  assert (Hn1 : inject_Z (Z.of_nat n) * u < 1) by lra.
  pose proof (Hsum (map G l)) as HS. rewrite length_map, map_map, Hll in HS.
  specialize (HS Hn1).
  destruct n as [|n'].
  { destruct r; [| discriminate]. destruct w; [| discriminate].
    change (map (fun x => Qabs (G x)) l) with (@nil Q) in HS.
    change (map G l) with (@nil Q) in HS |- *.
    change (sum []) with 0 in HS. unfold R. change (sum (map Qabs [])) with 0.
    assert (E : np_sum [] - 0 == np_sum []) by ring. rewrite E in HS.
    generalize dependent (gamma u (0 - 1)). intros c HS. lra. }
  set (n := Datatypes.S n') in *.
  set (nq := inject_Z (Z.of_nat n)) in *.
  assert (Hnq : 1 <= nq).
  { unfold nq. change 1 with (inject_Z 1). rewrite <- Zle_Qle. lia. }
  assert (Hpred : inject_Z (Z.of_nat (n - 1)) == nq - 1).
  { unfold nq, n. replace (Datatypes.S n' - 1)%nat with n' by lia.
    rewrite Nat2Z.inj_succ. unfold Z.succ. rewrite inject_Z_plus. ring. }
  set (g := gamma u (n - 1)) in *.
  assert (Hg : 0 <= g /\ g <= (1000 # 999) * ((nq - 1) * u)).
  { rewrite <- Hpred. apply gamma_bounds; [exact Hu |]. rewrite Hpred. nra. }
  destruct Hg as [Hg0 Hg].
  assert (Hu1 : u <= 1 # 1000) by nra.
  assert (Hg1 : g <= 1 # 999) by nra.
  (* the two sums of the inputs *)
  destruct (sum_positive w Hpos ltac:(lia)) as [HOm HOmabs].
  set (Om := sum w) in *.
  pose proof (Hsum w) as HW. rewrite Hlw, HOmabs in HW. fold W g in HW.
  specialize (HW Hn1).
  pose proof (Hsum r) as HT. rewrite Hlr in HT. fold T g R in HT.
  specialize (HT Hn1).
  fold Om in HW. apply Qabs_Qle_condition in HW. destruct HW as [HW1 HW2].
  assert (HgOm : g * Om <= (1 # 999) * Om) by (apply Qmult_le_compat_r; lra).
  assert (HgOm0 : 0 <= g * Om) by (apply Qmult_le_0_compat; lra).
  assert (HWpos : 0 < W) by lra.
  assert (HsumR : Qabs (sum r) <= R).
  { unfold R. rewrite <- (map_id r) at 1. apply (Qabs_sum_map (fun x => x)). }
  assert (HaT : Qabs T <= (1 + g) * R).
  { assert (E : T == (T - sum r) + sum r) by ring. rewrite E.
    eapply Qle_trans; [apply Qabs_triangle |]. lra. }
  pose proof (Qabs_nonneg T) as HaT0.
  set (rho := Om / W).
  assert (Hrho0 : 0 < rho).
  { unfold rho, Qdiv. apply Qmult_lt_0_compat; [exact HOm | now apply Qinv_lt_0_compat]. }
  assert (Hrho1 : (1 - g) * rho <= 1).
  { unfold rho. assert (E : (1 - g) * (Om / W) == ((1 - g) * Om) / W) by (field; lra).
    rewrite E. apply Qle_shift_div_r; [exact HWpos | lra]. }
  assert (Hrho2 : Qabs (1 - rho) <= g * rho).
  { unfold rho. assert (E : 1 - Om / W == (W - Om) / W) by (field; lra).
    rewrite E. unfold Qdiv at 1. rewrite Qabs_Qmult, (Qabs_pos (/ W)).
    2:{ apply Qlt_le_weak. now apply Qinv_lt_0_compat. }
    assert (E2 : g * (Om / W) == g * Om * / W) by (unfold Qdiv; ring).
    rewrite E2. apply Qmult_le_compat_r.
    - apply Qabs_Qle_condition. split; lra.
    - apply Qlt_le_weak. now apply Qinv_lt_0_compat. }
  set (P := rho * Qabs T).
  assert (HP0 : 0 <= P) by (apply Qmult_le_0_compat; lra).
  assert (HP1 : (1 - g) * P <= (1 + g) * R).
  { assert (H : (1 - g) * rho * Qabs T <= 1 * Qabs T)
      by (apply Qmult_le_compat_r; [exact Hrho1 | exact HaT0]).
    unfold P. lra. }
  (* the shares *)
  assert (Hin2 : forall p, In p l -> 0 < p.2).
  { intros p Hp. apply Hpos. now apply (in_zip_snd r w). }
  assert (Hshare : forall p, In p l ->
            Qabs (s p - p.2 / W * T) <= u * (2 + u) * (p.2 / W * Qabs T)
            /\ Qabs (s p) <= (1 + u) * (1 + u) * (p.2 / W * Qabs T)).
  { intros p Hp. apply (share_error u mul truediv p.2 W T); auto. }
  assert (Hsnd : map snd l = w).
  { transitivity (map (fun x : Q => x) w); [| apply map_id].
    apply (zip_snd_sum (fun x => x) r w). lia. }
  assert (Hfst : map fst l = r).
  { transitivity (map (fun x : Q => x) r); [| apply map_id].
    apply (zip_fst_sum (fun x => x) r w). lia. }
  assert (Hweights : forall c, sum (map (fun p : Q * Q => p.2 / W * c) l) == rho * c).
  { intros c.
    assert (E : sum (map (fun p : Q * Q => p.2 / W * c) l)
                == sum (map (fun p : Q * Q => (c / W) * p.2) l)).
    { apply sum_map_equiv. intros p _. field. lra. }
    rewrite E, sum_map_times, Hsnd. fold Om. unfold rho. field. lra. }
  set (Ss := sum (map s l)).
  set (As := sum (map (fun p => Qabs (s p)) l)).
  assert (HAs0 : 0 <= As) by apply sum_map_abs_nonneg.
  assert (HSs : Qabs (rho * T - Ss) <= u * (2 + u) * P).
  { rewrite <- (Hweights T). unfold Ss. rewrite <- sum_map_sub.
    eapply Qle_trans; [apply Qabs_sum_map |].
    eapply Qle_trans;
      [apply (sum_map_le _ (fun p : Q * Q => u * (2 + u) * (p.2 / W * Qabs T))) |].
    - intros p Hp. destruct (Hshare p Hp) as [H _].
      rewrite <- Qabs_opp. assert (E : - (p.2 / W * T - s p) == s p - p.2 / W * T) by ring.
      rewrite E. exact H.
    - rewrite sum_map_times, (Hweights (Qabs T)). apply Qle_refl. }
  assert (HAs : As <= (1 + u) * (1 + u) * P).
  { unfold As.
    eapply Qle_trans;
      [apply (sum_map_le _ (fun p : Q * Q => (1 + u) * (1 + u) * (p.2 / W * Qabs T))) |].
    - intros p Hp. now destruct (Hshare p Hp).
    - rewrite sum_map_times, (Hweights (Qabs T)). apply Qle_refl. }
  (* the gaps *)
  set (Sg := sum (map G l)) in *.
  set (Ag := sum (map (fun p => Qabs (G p)) l)) in *.
  assert (HAg0 : 0 <= Ag) by apply sum_map_abs_nonneg.
  assert (Hr1 : sum (map (fun p : Q * Q => p.1) l) == sum r).
  { change (sum (map fst l) == sum r). now rewrite Hfst. }
  assert (Hr2 : sum (map (fun p : Q * Q => Qabs p.1) l) == R).
  { unfold l. rewrite (zip_fst_sum Qabs r w) by lia. reflexivity. }
  assert (Hgap : forall p, Qabs (G p - (p.1 - s p)) <= u * (Qabs p.1 + Qabs (s p))
                           /\ Qabs (G p) <= (1 + u) * (Qabs p.1 + Qabs (s p))).
  { intros p. pose proof (Hsub p.1 (s p)) as H. fold (G p) in H.
    assert (Ht : Qabs (p.1 - s p) <= Qabs p.1 + Qabs (s p)).
    { unfold Qminus. eapply Qle_trans; [apply Qabs_triangle |]. rewrite Qabs_opp. lra. }
    assert (Hm : u * Qabs (p.1 - s p) <= u * (Qabs p.1 + Qabs (s p)))
      by (apply scale_le; assumption).
    split; [lra |].
    assert (E : G p == (G p - (p.1 - s p)) + (p.1 - s p)) by ring. rewrite E.
    eapply Qle_trans; [apply Qabs_triangle |]. lra. }
  assert (HSg : Qabs (Sg - (sum r - Ss)) <= u * (R + As)).
  { rewrite <- Hr1. unfold Sg, Ss. rewrite <- !sum_map_sub.
    eapply Qle_trans; [apply Qabs_sum_map |].
    eapply Qle_trans;
      [apply (sum_map_le _ (fun p : Q * Q => u * (Qabs p.1 + Qabs (s p)))) |].
    - intros p _. now destruct (Hgap p).
    - rewrite sum_map_times, sum_map_add, Hr2. apply Qle_refl. }
  assert (HAg : Ag <= (1 + u) * (R + As)).
  { unfold Ag.
    eapply Qle_trans;
      [apply (sum_map_le _ (fun p : Q * Q => (1 + u) * (Qabs p.1 + Qabs (s p)))) |].
    - intros p _. now destruct (Hgap p).
    - rewrite sum_map_times, sum_map_add, Hr2. apply Qle_refl. }
  (* the five error terms *)
  assert (HTrho : Qabs (T - rho * T) <= g * P).
  { assert (E : T - rho * T == (1 - rho) * T) by ring. rewrite E, Qabs_Qmult.
    unfold P. rewrite Qmult_assoc. apply Qmult_le_compat_r; [exact Hrho2 | exact HaT0]. }
  pose proof (error_budget u g nq R P As Ag Hu Hnq Hnu Hg0 Hg HR HP0 HAs0 HAg0 HP1 HAs HAg)
    as Hbudget.
  eapply Qle_trans; [| exact Hbudget].
  assert (E : np_sum (map G l)
              == (np_sum (map G l) - Sg) + (Sg - (sum r - Ss)) + (sum r - T)
                 + (T - rho * T) + (rho * T - Ss)) by ring.
  rewrite E.
  assert (HT' : Qabs (sum r - T) <= g * R).
  { rewrite <- Qabs_opp. assert (E' : - (sum r - T) == T - sum r) by ring.
    rewrite E'. exact HT. }
  fold Sg Ag in HS.
  eapply Qle_trans; [apply Qabs_triangle5 |]. lra.
Qed.


(** Exact arithmetic rounds with any unit roundoff. *)
Lemma exact_rounds (u : Q) (op : Q -> Q -> Q) : 0 <= u -> rounds u op op.
Proof.
  intros Hu x y. assert (E : op x y - op x y == 0) by ring. rewrite E.
  apply Qmult_le_0_compat; [exact Hu | apply Qabs_nonneg].
Qed.

Lemma exact_rounds_quotient (u : Q) : 0 <= u -> rounds_quotient u Qdiv.
Proof. intros Hu x y _. now apply (exact_rounds u Qdiv). Qed.

Lemma exact_rounds_sum (u : Q) : 0 <= u -> rounds_sum u sum.
Proof.
  intros Hu xs Hl. assert (E : sum xs - sum xs == 0) by ring. rewrite E.
  apply Qmult_le_0_compat; [| apply (sum_map_abs_nonneg (fun x => x))].
  apply gamma_nonneg; [exact Hu |].
  assert (H : inject_Z (Z.of_nat (length xs - 1)) <= inject_Z (Z.of_nat (length xs)))
    by (rewrite <- Zle_Qle; lia).
  assert (H' : inject_Z (Z.of_nat (length xs - 1)) * u
               <= inject_Z (Z.of_nat (length xs)) * u)
    by (apply Qmult_le_compat_r; assumption).
  lra.
Qed.

(** The unequal split of the test suite, with exact arithmetic and the unit
    roundoff of float64. *)
Lemma gaps_sum_rounding_bound_witness :
  let u := 1 # 9007199254740992 in
  Qabs (sum (proportionality_gaps_of sum Qmult Qdiv Qminus [2; 18] [1; 1]))
  <= 5 * inject_Z (Z.of_nat 2) * u * sum (map Qabs [2; 18]).
Proof.
  intros u.
  assert (Hu : 0 <= u) by discriminate.
  apply (gaps_sum_rounding_bound u sum Qmult Qdiv Qminus [2; 18] [1; 1] 2 Hu
           (exact_rounds_sum u Hu) (exact_rounds u Qmult Hu) (exact_rounds_quotient u Hu)
           (exact_rounds u Qminus Hu) eq_refl eq_refl).
  - intros w [<- | [<- | []]]; reflexivity.
  - vm_compute. discriminate.
Defined.

(** C8 as stated fails.  Each of two agents holds one good, worth
    [43464098] and [20246634], with entitlements [4] and [1]: in float64
    the gaps sum to [-2^-29], about [-1.86e-9], beyond [1e-9]; in exact
    arithmetic the same gaps sum to [0]. *)
Lemma gap_sum_beyond_1e9 :
  float64.gap_sum = float64.minus_two_to_the_minus_29
  /\ PrimFloat.ltb float64.bound (PrimFloat.abs float64.gap_sum) = true
  /\ sum (proportionality_gaps_of sum Qmult Qdiv Qminus [43464098; 20246634] [4; 1]) == 0.
Proof.
  split; [vm_compute; reflexivity | split; [vm_compute; reflexivity | reflexivity]].
Qed.

End proportionality_facts.

(** ** Renormalisation ([utils.py]) *)

Module utils_facts.
Import py np np_facts utils contracts.

Lemma sum_map_div {A} (g : A -> Q) (c : Q) (l : list A) :
  sum (map (fun x => g x / c) l) == sum (map g l) / c.
Proof.
  induction l as [|x l IH]; simpl.
  - unfold Qdiv. ring.
  - rewrite IH. unfold Qdiv. ring.
Qed.

Lemma sum_map_const {A} (c : Q) (l : list A) :
  sum (map (fun _ => c) l) == inject_Z (Z.of_nat (length l)) * c.
Proof.
  induction l as [|x l IH]; [simpl; ring |].
  cbn [map sum fold_right length]. fold (sum (map (fun _ : A => c) l)). rewrite IH.
  rewrite Nat2Z.inj_succ. unfold Z.succ. rewrite inject_Z_plus. ring.
Qed.

(** What one column update does to the cells. *)
Lemma update_col_spec (f : Q -> Q) (j : nat) (b : ndarray) (n m : nat) :
  shape b = [n; m] -> wf b -> (j < m)%nat ->
  let b' := update_col f j b in
  shape b' = [n; m] /\ wf b' /\
  forall i' j', (i' < n)%nat -> (j' < m)%nat ->
    item2 b' i' j' = if (j' =? j)%nat then f (item2 b i' j') else item2 b i' j'.
Proof.
  intros Hs Hw Hj b'. subst b'. unfold update_col, dim. rewrite Hs. cbn [nth].
  set (P := fun (r : nat) (c : ndarray) =>
         shape c = [n; m] /\ wf c /\
         forall i' j', (i' < n)%nat -> (j' < m)%nat ->
           item2 c i' j' = if (j' =? j)%nat && (i' <? r)%nat
                           then f (item2 b i' j') else item2 b i' j').
  match goal with |- context [for_range n ?body b] =>
    assert (HP : P n (for_range n body b)) end.
  { apply for_range_ind.
    - split; [exact Hs | split; [exact Hw |]]. intros i' j' _ _.
      now rewrite andb_false_r.
    - intros r c Hr (Hsc & Hwc & Hc).
      split; [exact Hsc | split; [now apply setitem2_wf |]]. intros i' j' Hi' Hj'.
      rewrite (item2_setitem2 c n m r j i' j' _ Hsc Hwc Hr Hj Hi' Hj').
      rewrite (Hc i' j' Hi' Hj'), (Hc r j Hr Hj).
      rewrite Nat.ltb_irrefl, andb_false_r.
      destruct (j' =? j)%nat eqn:E2; [| now rewrite andb_false_r].
      apply Nat.eqb_eq in E2. subst j'. rewrite andb_true_r. cbn [andb].
      destruct (i' =? r)%nat eqn:E1.
      + apply Nat.eqb_eq in E1. subst i'.
        replace (r <? Datatypes.S r)%nat with true; [reflexivity |].
        symmetry. apply Nat.ltb_lt. lia.
      + apply Nat.eqb_neq in E1.
        replace (i' <? Datatypes.S r)%nat with (i' <? r)%nat; [reflexivity |].
        destruct (Nat.ltb_spec i' r), (Nat.ltb_spec i' (Datatypes.S r)); auto; lia. }
  destruct HP as (Hs' & Hw' & H'). split; [exact Hs' | split; [exact Hw' |]].
  intros i' j' Hi' Hj'. rewrite (H' i' j' Hi' Hj').
  replace (i' <? n)%nat with true by (symmetry; apply Nat.ltb_lt; exact Hi').
  now rewrite andb_true_r.
Qed.

Lemma col_ext (a b : ndarray) (n m j : nat) :
  shape a = [n; m] -> shape b = [n; m] ->
  (forall i, (i < n)%nat -> item2 b i j = item2 a i j) -> col b j = col a j.
Proof.
  intros Ha Hb H. unfold col, dim. rewrite Ha, Hb. cbn [nth].
  apply map_ext_in. intros i Hi. apply in_seq in Hi. apply H. lia.
Qed.

Lemma deref_some (h : heap) (l : loc) (b : ndarray) : h !! l = Some b -> deref h l = b.
Proof. unfold deref. now intros ->. Qed.

(** One turn of the loop, on the copy [b] of [a] whose columns before [k]
    are done. *)
Lemma normalize_column_spec (l : loc) (tol : Q) (n m k : nat) (a b : ndarray) (h : heap) :
  shape a = [n; m] -> (1 <= n)%nat -> (k < m)%nat ->
  h !! l = Some b -> shape b = [n; m] -> wf b ->
  (forall i j, (i < n)%nat -> (j < m)%nat ->
     item2 b i j = if (j <? k)%nat then normalized_cell a tol n i j else item2 a i j) ->
  exists h1 b1,
    normalize_column l tol n k h = Ok h1
    /\ h1 !! l = Some b1 /\ length h1 = length h
    /\ (forall x, x <> l -> h1 !! x = h !! x)
    /\ shape b1 = [n; m] /\ wf b1
    /\ (forall i j, (i < n)%nat -> (j < m)%nat ->
          item2 b1 i j = if (j <? Datatypes.S k)%nat then normalized_cell a tol n i j
                         else item2 a i j).
Proof.
  intros Ha Hn Hk Hl Hb Hwb Hinv. unfold normalize_column.
  rewrite (deref_some h l b Hl).
  assert (Hcol : col b k = col a k).
  { apply (col_ext a b n m k Ha Hb). intros i Hi. rewrite (Hinv i k Hi Hk).
    now rewrite Nat.ltb_irrefl. }
  rewrite Hcol.
  assert (Hdone : forall b1,
            shape b1 = [n; m] -> wf b1 ->
            (forall i j, (i < n)%nat -> (j < m)%nat ->
               item2 b1 i j = if (j =? k)%nat then normalized_cell a tol n i j
                              else item2 b i j) ->
            forall i j, (i < n)%nat -> (j < m)%nat ->
              item2 b1 i j = if (j <? Datatypes.S k)%nat then normalized_cell a tol n i j
                             else item2 a i j).
  { intros b1 _ _ H1 i j Hi Hj. rewrite (H1 i j Hi Hj), (Hinv i j Hi Hj).
    destruct (Nat.eqb_spec j k), (Nat.ltb_spec j k), (Nat.ltb_spec j (Datatypes.S k));
      auto; lia. }
  assert (Halter : forall f,
            (forall i j, (i < n)%nat -> (j < m)%nat ->
               item2 (update_col f k b) i j
               = if (j =? k)%nat then normalized_cell a tol n i j else item2 b i j) ->
            exists h1 b1,
              Ok (alter (update_col f k) l h) = Ok h1
              /\ h1 !! l = Some b1 /\ length h1 = length h
              /\ (forall x, x <> l -> h1 !! x = h !! x)
              /\ shape b1 = [n; m] /\ wf b1
              /\ (forall i j, (i < n)%nat -> (j < m)%nat ->
                    item2 b1 i j = if (j <? Datatypes.S k)%nat
                                   then normalized_cell a tol n i j else item2 a i j)).
  { intros f Hf. destruct (update_col_spec f k b n m Hb Hwb Hk) as (Hs1 & Hw1 & _).
    exists (alter (update_col f k) l h), (update_col f k b).
    split; [reflexivity |]. split; [now rewrite list_lookup_alter_eq, Hl |].
    split; [apply length_alter |].
    split; [intros x Hx; now apply list_lookup_alter_ne |].
    split; [exact Hs1 | split; [exact Hw1 |]]. now apply Hdone. }
  destruct (Qltb tol (Qabs (sum (col a k) - 1))) eqn:E1.
  - destruct (Qltb tol (sum (col a k))) eqn:E2.
    + apply Halter. intros i j Hi Hj.
      destruct (update_col_spec (fun x => x / sum (col a k)) k b n m Hb Hwb Hk)
        as (_ & _ & Hu).
      unfold idiv_col. rewrite (Hu i j Hi Hj).
      destruct (j =? k)%nat eqn:Ej; [| reflexivity]. apply Nat.eqb_eq in Ej. subst j.
      unfold normalized_cell. rewrite E1, E2, (Hinv i k Hi Hk), Nat.ltb_irrefl. reflexivity.
    + replace (n =? 0)%nat with false by (symmetry; apply Nat.eqb_neq; lia).
      apply Halter. intros i j Hi Hj.
      destruct (update_col_spec (fun _ => 1 / inject_Z (Z.of_nat n)) k b n m Hb Hwb Hk)
        as (_ & _ & Hu).
      unfold fill_col. rewrite (Hu i j Hi Hj).
      destruct (j =? k)%nat eqn:Ej; [| reflexivity]. apply Nat.eqb_eq in Ej. subst j.
      unfold normalized_cell. now rewrite E1, E2.
  - exists h, b. split; [reflexivity |]. split; [exact Hl |]. split; [reflexivity |].
    split; [reflexivity |]. split; [exact Hb | split; [exact Hwb |]].
    apply Hdone; auto. intros i j Hi Hj.
    destruct (j =? k)%nat eqn:Ej; [| reflexivity]. apply Nat.eqb_eq in Ej. subst j.
    unfold normalized_cell. rewrite E1, (Hinv i k Hi Hk), Nat.ltb_irrefl. reflexivity.
Qed.

(** The whole loop, from column [k] on. *)
Lemma normalize_columns_spec (l : loc) (tol : Q) (n m : nat) (a : ndarray) :
  shape a = [n; m] -> (1 <= n)%nat ->
  forall cnt k h b, (k + cnt = m)%nat ->
    h !! l = Some b -> shape b = [n; m] -> wf b ->
    (forall i j, (i < n)%nat -> (j < m)%nat ->
       item2 b i j = if (j <? k)%nat then normalized_cell a tol n i j else item2 a i j) ->
    exists h' b',
      normalize_columns l tol n (seq k cnt) h = Ok h'
      /\ h' !! l = Some b' /\ length h' = length h
      /\ (forall x, x <> l -> h' !! x = h !! x)
      /\ shape b' = [n; m] /\ wf b'
      /\ (forall i j, (i < n)%nat -> (j < m)%nat ->
            item2 b' i j = normalized_cell a tol n i j).
Proof.
  intros Ha Hn. induction cnt as [|cnt IH]; intros k h b Hk Hl Hb Hwb Hinv.
  - exists h, b. cbn [seq normalize_columns].
    split; [reflexivity |]. split; [exact Hl |]. split; [reflexivity |].
    split; [reflexivity |]. split; [exact Hb | split; [exact Hwb |]].
    intros i j Hi Hj. rewrite (Hinv i j Hi Hj).
    replace (j <? k)%nat with true; [reflexivity |]. symmetry. apply Nat.ltb_lt. lia.
  - cbn [seq normalize_columns].
    destruct (normalize_column_spec l tol n m k a b h Ha Hn ltac:(lia) Hl Hb Hwb Hinv)
      as (h1 & b1 & -> & Hl1 & Hlen1 & Hoth1 & Hb1 & Hwb1 & Hinv1).
    cbn [rbind].
    destruct (IH (Datatypes.S k) h1 b1 ltac:(lia) Hl1 Hb1 Hwb1 Hinv1)
      as (h' & b' & -> & Hl' & Hlen' & Hoth' & Hb' & Hwb' & Hinv').
    exists h', b'. split; [reflexivity |]. split; [exact Hl' |].
    split; [congruence |]. split; [| auto].
    intros x Hx. rewrite (Hoth' x Hx). now apply Hoth1.
Qed.

(** The columns of the normalised cells sum to [1] within the tolerance. *)
Lemma normalized_column_sum (a : ndarray) (tol : Q) (n j : nat) :
  (1 <= n)%nat -> 0 <= tol -> dim a 0 = n ->
  Qabs (sum (map (fun i => normalized_cell a tol n i j) (seq 0 n)) - 1) <= tol.
Proof.
  intros Hn Htol Hd. unfold normalized_cell.
  assert (Hcs : sum (map (fun i => item2 a i j) (seq 0 n)) = sum (col a j))
    by (unfold col; now rewrite Hd).
  destruct (Qltb tol (Qabs (sum (col a j) - 1))) eqn:E1.
  - assert (Hone : forall v : Q, v == 1 -> Qabs (v - 1) <= tol).
    { intros v ->. exact Htol. }
    apply Hone. destruct (Qltb tol (sum (col a j))) eqn:E2.
    + apply Qltb_lt in E2. rewrite sum_map_div, Hcs. field. lra.
    + rewrite sum_map_const, length_seq. field.
      intros H. unfold Qeq in H. simpl in H. lia.
  - apply Qltb_ge in E1. now rewrite Hcs.
Qed.

(** C10 (as amended).  For a well-formed [n x m] matrix with at least one
    agent, stored at [allocation], and a tolerance [>= 0] (the default is
    [1e-9]), [normalize_allocation] returns a fresh reference; the store
    keeps every array it had, the argument included; the array returned has
    the shape of the argument, each of its columns sums to [1] within the
    tolerance, and its cells are those of [normalized_cell]: a column whose
    sum is within the tolerance of [1] is kept as it is, any other column
    is divided by its sum when the sum exceeds the tolerance and set to
    [1 / n_agents] when it does not. *)
Theorem normalize_allocation_spec (h : heap) (allocation : loc) (a : ndarray) (tol : Q)
    (n m : nat) :
  h !! allocation = Some a -> shape a = [n; m] -> wf a -> (1 <= n)%nat -> 0 <= tol ->
  exists h' b,
    normalize_allocation allocation tol h = Ok (length h, h')
    /\ length h <> allocation
    /\ (forall x, (x < length h)%nat -> h' !! x = h !! x)
    /\ h' !! length h = Some b
    /\ shape b = [n; m]
    /\ (forall j, (j < m)%nat -> Qabs (sum (col b j) - 1) <= tol)
    /\ (forall i j, (i < n)%nat -> (j < m)%nat ->
          item2 b i j = normalized_cell a tol n i j).
Proof.
  intros Hl Ha Hwa Hn Htol. unfold normalize_allocation, copy.
  rewrite (deref_some h allocation a Hl).
  assert (Hnew : (h ++ [a]) !! length h = Some a) by apply list_lookup_middle, eq_refl.
  rewrite (deref_some _ _ a Hnew), Ha.
  destruct (normalize_columns_spec (length h) tol n m a Ha Hn m 0%nat (h ++ [a]) a
              eq_refl Hnew Ha Hwa)
    as (h' & b & -> & Hb & _ & Hoth & Hsb & _ & Hcells).
  { intros i j _ _. reflexivity. }
  cbn [rbind]. exists h', b. split; [reflexivity |].
  assert (Hlt : (allocation < length h)%nat) by (apply lookup_lt_Some in Hl; exact Hl).
  split; [lia |]. split.
  { intros x Hx. rewrite (Hoth x) by lia. now apply lookup_app_l. }
  split; [exact Hb |]. split; [exact Hsb |]. split; [| exact Hcells].
  intros j Hj.
  assert (Hcol : col b j = map (fun i => normalized_cell a tol n i j) (seq 0 n)).
  { unfold col, dim. rewrite Hsb. cbn [nth]. apply map_ext_in.
    intros i Hi. apply in_seq in Hi. apply Hcells; lia. }
  rewrite Hcol. apply normalized_column_sum; auto. unfold dim. now rewrite Ha.
Qed.

(** Columns summing to [2], [0] and [4]: halved, made uniform, quartered;
    the argument stays in place. *)
Lemma normalize_allocation_spec_witness :
  let a := mk [2%nat; 3%nat] [1; 0; 3; 1; 0; 1] in
  exists h' b,
    normalize_allocation 0%nat (1 # 1000000000) [a] = Ok (1%nat, h')
    /\ h' !! 0%nat = Some a /\ h' !! 1%nat = Some b
    /\ (forall j, (j < 3)%nat -> Qabs (sum (col b j) - 1) <= 1 # 1000000000).
Proof.
  intros a.
  destruct (normalize_allocation_spec [a] 0%nat a (1 # 1000000000) 2 3
              eq_refl eq_refl eq_refl)
    as (h' & b & Hrun & _ & Hkeep & Hb & _ & Hsum & _).
  - lia.
  - unfold Qle. simpl. lia.
  - exists h', b. split; [exact Hrun |]. split; [| split; [exact Hb | exact Hsum]].
    apply (Hkeep 0%nat). simpl. lia.
Defined.

(** C10 as stated fails in its account of the columns: this one sums to
    [1 + 5e-10], which exceeds the tolerance [1e-9], yet it is within the
    tolerance of [1] and is returned as it is, not divided by its sum. *)
Lemma column_within_tolerance_not_rescaled :
  let a := mk [1%nat; 1%nat] [2000000001 # 2000000000] in
  let col_sum := sum (col a 0) in
  0 <= item2 a 0 0 /\ 1 # 1000000000 < col_sum
  /\ exists h' b,
       normalize_allocation 0%nat (1 # 1000000000) [a] = Ok (1%nat, h')
       /\ h' !! 1%nat = Some b
       /\ ~ item2 b 0 0 == item2 a 0 0 / col_sum.
Proof.
  intros a col_sum. split; [discriminate | split; [reflexivity |]].
  do 2 eexists. split; [vm_compute; reflexivity |]. split; [reflexivity |].
  intros H. vm_compute in H. discriminate H.
Qed.

End utils_facts.

(** ** The scenarios of the test suite, replayed on the embedding *)

Module replay.
Import py np models diagnostics.

(** [test_envious_allocation] (scenario 6): agent 0 holds everything; agent
    1 heads the list of envious pairs and its proportionality gap is
    negative. *)
Example envious_allocation :
  exists r,
    analyze_fairness (fun x => x) (fun x => x)
      (mk [2%nat; 2%nat] [1; 1; 0; 0]) scenarios.U_symmetric scenarios.w_equal
      (1 # 1000000) = Ok r
    /\ is_envy_free r = false
    /\ envious_pairs r = [(1%nat, 0%nat, 15)]
    /\ item1 (proportionality_gaps r) 1 < 0.
Proof. eexists. split; [vm_compute; reflexivity | repeat split]. Qed.

(** [test_envy_free_allocation]: each agent holds its preferred good. *)
Example envy_free_allocation :
  exists r,
    analyze_fairness (fun x => x) (fun x => x)
      (mk [2%nat; 2%nat] [1; 0; 0; 1]) scenarios.U_symmetric scenarios.w_equal
      (1 # 1000000) = Ok r
    /\ is_envy_free r = true /\ envious_pairs r = [] /\ max_envy r == 0.
Proof. eexists. split; [vm_compute; reflexivity | repeat split]. Qed.

(** [test_input_validation]: entitlements must be strictly positive. *)
Example zero_entitlement_rejected :
  maxmin_solver.solve_maxmin_allocation scenarios.U_symmetric (mk [2%nat] [0; 1])
    (1 # 1000000) 300
  = Throw (ValueError [Lit "Entitlements must be strictly positive"]).
Proof. reflexivity. Qed.

End replay.

(** * Further properties of the code *)

(** ** Input validation and the way to the engine *)

Module validation_facts.
Import py np models np_facts utils contracts.

Lemma In_data_item1 (w : ndarray) (n : nat) (x : Q) :
  shape w = [n] -> wf w ->
  In x (data w) <-> exists i, (i < n)%nat /\ item1 w i = x.
Proof.
  intros Hs Hw. unfold wf in Hw. rewrite Hs in Hw. cbn in Hw. unfold item1. split.
  - intros Hin. destruct (In_nth _ _ 0 Hin) as (i & Hi & Hx). exists i. split; [lia | exact Hx].
  - intros (i & Hi & <-). apply nth_In. lia.
Qed.

Lemma any_le_spec (w : ndarray) (n : nat) (c : Q) :
  shape w = [n] -> wf w ->
  any_le w c = true <-> exists i, (i < n)%nat /\ item1 w i <= c.
Proof.
  intros Hs Hw. unfold any_le. rewrite existsb_exists. split.
  - intros (x & Hin & Hx). apply Qle_bool_iff in Hx.
    apply (In_data_item1 w n x Hs Hw) in Hin as (i & Hi & <-). eauto.
  - intros (i & Hi & Hx). exists (item1 w i). split.
    + apply (In_data_item1 w n _ Hs Hw). eauto.
    + now apply Qle_bool_iff.
Qed.

(** X1.  [validate_inputs] returns [(n, m)] exactly on a matrix of shape
    [(n, m)] without negative entry and a vector of shape [(n,)] of positive
    weights; on everything else it raises. *)
Theorem validate_inputs_accepts_iff (U w : ndarray) (n m : nat) :
  wf U -> wf w ->
  validate_inputs U w = Ok (n, m) <->
  shape U = [n; m] /\ shape w = [n]
  /\ (forall i j, (i < n)%nat -> (j < m)%nat -> 0 <= item2 U i j)
  /\ (forall i, (i < n)%nat -> 0 < item1 w i).
Proof.
  intros HwU Hww. unfold validate_inputs, ndim, dim, shape_eqb. split.
  - destruct (shape U) as [|a [|b [|c sh]]] eqn:Hs; cbn [length Nat.eqb negb nth];
      try discriminate.
    destruct (bool_decide (shape w = [a])) eqn:Esw; cbn [negb]; [| discriminate].
    apply bool_decide_eq_true in Esw.
    destruct (any_lt U 0) eqn:E1; [discriminate |].
    destruct (any_le w 0) eqn:E2; [discriminate |].
    intros [= <- <-]. split; [reflexivity | split; [exact Esw | split]].
    + intros i j Hi Hj. apply Qnot_lt_le. intros Hlt.
      assert (any_lt U 0 = true) by (apply (any_lt_spec U a b 0 Hs HwU); eauto).
      congruence.
    + intros i Hi. apply Qnot_le_lt. intros Hle.
      assert (any_le w 0 = true) by (apply (any_le_spec w a 0 Esw Hww); eauto).
      congruence.
  - intros (Hs & Hsw & Hnn & Hpos). rewrite Hs, Hsw. cbn [length Nat.eqb negb nth].
    rewrite bool_decide_eq_true_2 by reflexivity. cbn [negb].
    destruct (any_lt U 0) eqn:E1.
    { apply (any_lt_spec U n m 0 Hs HwU) in E1 as (i & j & Hi & Hj & Hlt).
      specialize (Hnn i j Hi Hj). lra. }
    destruct (any_le w 0) eqn:E2; [| reflexivity].
    apply (any_le_spec w n 0 Hsw Hww) in E2 as (i & Hi & Hle).
    specialize (Hpos i Hi). lra.
Qed.

Lemma validate_inputs_accepts_iff_witness :
  validate_inputs scenarios.U_symmetric scenarios.w_equal = Ok (2%nat, 2%nat).
Proof.
  apply (validate_inputs_accepts_iff scenarios.U_symmetric scenarios.w_equal 2 2
           eq_refl eq_refl).
  split; [reflexivity | split; [reflexivity | split]].
  - intros [|[|i]] [|[|j]] Hi Hj; try lia; intros HH; vm_compute in HH; discriminate HH.
  - intros [|[|i]] Hi; try lia; reflexivity.
Defined.

(** X2.  The tests that open the two solvers are those of [validate_inputs],
    followed by the test of epsilon: an input that [validate_inputs] rejects
    is rejected by both solvers with the same exception; an input it accepts
    is rejected for [epsilon <= 0]; in both cases no call is made.  Only
    otherwise does the max-min solver go on to OR-Tools. *)
Theorem solvers_validate_like_validate_inputs (np_log np_exp : Q -> Q) (U w : ndarray)
    (eps tl : Q) (opts : option (gmap string pyval)) :
  let maxmin := maxmin_solver.solve_maxmin_allocation U w eps tl in
  let nash := nash_solver.solve_nash_allocation np_log np_exp U w eps tl opts in
  match validate_inputs U w with
  | Raise e => maxmin = Throw e /\ nash = Throw e
  | Ok _ =>
      if Qle_bool eps 0 then
        maxmin = Throw (ValueError [Lit "epsilon must be positive"])
        /\ nash = Throw (ValueError [Lit "epsilon must be positive"])
      else ~ silent maxmin
  end.
Proof.
  intros maxmin nash. subst maxmin nash.
  unfold validate_inputs, maxmin_solver.solve_maxmin_allocation,
    nash_solver.solve_nash_allocation.
  destruct (negb (ndim U =? 2)%nat); [split; reflexivity |].
  destruct (negb (shape_eqb (shape w) [dim U 0])); [split; reflexivity |].
  destruct (any_lt U 0); [split; reflexivity |].
  destruct (any_le w 0); [split; reflexivity |].
  destruct (Qle_bool eps 0); [split; reflexivity |].
  intros H; exact H.
Qed.

End validation_facts.

(** ** What the max-min solver returns on a feasible answer *)

Module maxmin_extras.
Import py np models np_facts models_facts maxmin_solver contracts.

Lemma sum_app (xs ys : list Q) : sum (xs ++ ys) == sum xs + sum ys.
Proof.
  induction xs as [|x xs IH]; simpl; [ring |].
  fold (sum (xs ++ ys)). fold (sum xs). rewrite IH. ring.
Qed.

Lemma sum_map_Qeq {A} (f g : A -> Q) (l : list A) :
  (forall x, In x l -> f x == g x) -> sum (map f l) == sum (map g l).
Proof.
  induction l as [|x l IH]; intros H; simpl; [reflexivity |].
  fold (sum (map f l)). fold (sum (map g l)).
  rewrite (H x (or_introl eq_refl)), IH; [reflexivity |].
  intros y Hy. apply H. now right.
Qed.

(** X3.  With a time limit whose milliseconds fit an [int64_t]: when GLOP
    reports [OPTIMAL] or [FEASIBLE], the point it holds still goes through
    the [AllocationResult] constructor.  If no value is below [-1e-9] and
    every column of values sums to [1] within [1.1e-5], the solver returns
    a result: the status label follows the engine's, the allocation holds
    the engine's values, the utilities are the realized ones and the
    objective is the engine's [t]; otherwise the call raises the
    constructor's [ValueError]. *)
Theorem feasible_answer_returned {S : Type} (U w : ndarray) (eps tl : Q) (n m : nat)
    (env : forall X, ortools X -> S -> X * S) (s0 : S) :
  valid_inputs U w eps n m -> wf U ->
  fits_int64 (int (tl * 1000)) = true ->
  let '(solver, s1) := env _ (CreateSolver "GLOP") s0 in
  let '(t0, s2) := env _ time_time s1 in
  let '(answer, s3) := env _ (Solve (build_model U w eps tl n m)) s2 in
  let '(t1, s4) := env _ time_time s3 in
  solver = true ->
  status answer = OPTIMAL \/ status answer = FEASIBLE ->
  let accepted :=
    (forall i j, (i < n)%nat -> (j < m)%nat -> - (1 # 1000000000) <= x_value answer i j)
    /\ (forall j, (j < m)%nat ->
          Qabs (sum (map (fun i => x_value answer i j) (seq 0 n)) - 1) <= 11 # 1000000) in
  let outcome := run env (solve_maxmin_allocation U w eps tl) s0 in
  (accepted ->
     exists r,
       outcome = (Ok r, s4)
       /\ solver_status r
          = match status answer with OPTIMAL => "optimal" | _ => "feasible" end
       /\ objective_value r = t_value answer
       /\ solve_time r = t1 - t0
       /\ shape (allocation r) = [n; m]
       /\ (forall i j, (i < n)%nat -> (j < m)%nat ->
             item2 (allocation r) i j = x_value answer i j)
       /\ (forall i, (i < n)%nat ->
             item1 (utilities r) i = own_utility (allocation r) U m i)
       /\ metadata r !! "min_normalized_utility" = Some (VFloat (t_value answer)))
  /\ (~ accepted ->
      exists lit rest, outcome = (Raise (ValueError (Lit lit :: rest)), s4)
        /\ In lit ["Allocation contains negative values";
                   "Goods not fully allocated. Column sums: "]).
Proof.
  intros Hv HwU Htl. pose proof Hv as (HsU & _). unfold solve_maxmin_allocation.
  pass_validation Hv.
  unfold mbind, prog_bind, call. cbn [bind run].
  destruct (env _ (CreateSolver "GLOP") s0) as [solver s1].
  destruct (env _ time_time s1) as [t0 s2] eqn:E2.
  destruct (env _ (Solve _) s2) as [answer s3] eqn:E3.
  destruct (env _ time_time s3) as [t1 s4] eqn:E4.
  intros -> Hst. rewrite Htl. cbn [negb bind run]. rewrite E2, E3, E4.
  set (accepted := (forall i j, (i < n)%nat -> (j < m)%nat -> _ <= x_value answer i j) /\ _).
  pose proof (fill_loop_spec (fun _ _ => false) (x_value answer) n m (zeros [n; m])
                eq_refl (diagnostics_facts.zeros_matrix_wf n m)) as Hfill.
  cbv beta iota zeta in Hfill.
  set (alloc := for_range2 n m
                  (fun i j a => setitem2 a i j (x_value answer i j)) (zeros [n; m])) in *.
  destruct Hfill as (Hsa & Hwa & Hcells).
  assert (Hcol : forall j, (j < m)%nat ->
            sum (col alloc j) == sum (map (fun i => x_value answer i j) (seq 0 n))).
  { intros j Hj. unfold col, dim. rewrite Hsa. cbn [nth].
    apply sum_map_Qeq. intros i Hi. apply in_seq in Hi. rewrite Hcells by lia. reflexivity. }
  pose proof (any_lt_spec alloc n m (- (1 # 1000000000)) Hsa Hwa) as Hneg'.
  pose proof (column_check_false alloc n m Hsa) as Hcheck.
  assert (Hnew : forall label md,
            (accepted ->
             new_AllocationResult alloc (sum_axis1 (mul alloc U)) (t_value answer)
               label (t1 - t0) md
             = Ok (Build_AllocationResult alloc (sum_axis1 (mul alloc U)) (t_value answer)
                     label (t1 - t0) md))
            /\ (~ accepted ->
                exists lit rest,
                  new_AllocationResult alloc (sum_axis1 (mul alloc U)) (t_value answer)
                    label (t1 - t0) md = Raise (ValueError (Lit lit :: rest))
                  /\ In lit ["Allocation contains negative values";
                             "Goods not fully allocated. Column sums: "])).
  { intros label md. unfold new_AllocationResult.
    rewrite (post_init_cases (Build_AllocationResult alloc _ _ _ _ _) n m Hsa).
    cbn [allocation utilities].
    destruct (any_lt alloc _) eqn:Ea.
    { cbn [rbind]. split.
      - intros (Hnn & _). destruct Hneg' as [Hex _].
        destruct (Hex eq_refl) as (i & j & Hi & Hj & Hlt).
        rewrite (Hcells i j Hi Hj) in Hlt. specialize (Hnn i j Hi Hj). lra.
      - intros _. do 2 eexists. split; [reflexivity | now left]. }
    destruct (allclose_scalar _ 1 _) eqn:Eb; cbn [negb].
    2:{ cbn [rbind]. split.
        - intros (_ & Hc). destruct Hcheck as [Hex _].
          destruct (Hex eq_refl) as (j & Hj & Hlt). specialize (Hc j Hj).
          rewrite (Hcol j Hj) in Hlt. lra.
        - intros _. do 2 eexists. split; [reflexivity | right; now left]. }
    unfold shape_eqb. rewrite (nash_facts.sum_axis1_shape (mul alloc U) n m Hsa).
    rewrite bool_decide_eq_true_2 by reflexivity. cbn [negb rbind]. split.
    - intros _. reflexivity.
    - intros Hna. exfalso. apply Hna. split.
      + intros i j Hi Hj. apply Qnot_lt_le. intros Hlt.
        assert (false = true) by (apply Hneg'; exists i, j; rewrite (Hcells i j Hi Hj); auto).
        discriminate.
      + intros j Hj. apply Qnot_lt_le. intros Hlt.
        assert (true = false)
          by (apply Hcheck; exists j; split; [exact Hj | rewrite (Hcol j Hj); exact Hlt]).
        discriminate. }
  assert (Hres : forall label,
            let md : gmap string pyval :=
              {[ "min_normalized_utility" := VFloat (t_value answer);
                 "normalized_utilities" := VArr (map2 Qdiv (sum_axis1 (mul alloc U)) w);
                 "algorithm" := VStr "max_min_egalitarian" ]} in
            let outcome :=
              run env (lift (new_AllocationResult alloc (sum_axis1 (mul alloc U))
                               (t_value answer) label (t1 - t0) md)) s4 in
            (accepted ->
               exists r,
                 outcome = (Ok r, s4)
                 /\ solver_status r = label
                 /\ objective_value r = t_value answer
                 /\ solve_time r = t1 - t0
                 /\ shape (allocation r) = [n; m]
                 /\ (forall i j, (i < n)%nat -> (j < m)%nat ->
                       item2 (allocation r) i j = x_value answer i j)
                 /\ (forall i, (i < n)%nat ->
                       item1 (utilities r) i = own_utility (allocation r) U m i)
                 /\ metadata r !! "min_normalized_utility" = Some (VFloat (t_value answer)))
            /\ (~ accepted ->
                exists lit rest, outcome = (Raise (ValueError (Lit lit :: rest)), s4)
                  /\ In lit ["Allocation contains negative values";
                             "Goods not fully allocated. Column sums: "])).
  { intros label md outcome. subst outcome. destruct (Hnew label md) as [Hok Hbad]. split.
    - intros Hacc. rewrite (Hok Hacc). cbn [lift run]. eexists. split; [reflexivity |].
      cbn [solver_status objective_value solve_time allocation utilities metadata].
      split; [reflexivity | split; [reflexivity | split; [reflexivity |]]].
      split; [exact Hsa | split; [exact Hcells | split]].
      + intros i Hi.
        exact (diagnostics_facts.realized_item alloc U n m i Hsa HsU Hwa HwU Hi).
      + unfold md. now simplify_map_eq.
    - intros Hna. destruct (Hbad Hna) as (lit & rest & -> & Hin).
      cbn [lift run]. exists lit, rest. split; [reflexivity | exact Hin]. }
  destruct Hst as [Hst | Hst]; rewrite Hst; cbv zeta.
  - exact (Hres "optimal").
  - exact (Hres "feasible").
Qed.

(** GLOP gives each of two agents the good it values at [10]. *)
Lemma feasible_answer_returned_witness :
  exists r,
    run (scenarios.ortools_env scenarios.diagonal_answer)
        (solve_maxmin_allocation scenarios.U_symmetric scenarios.w_equal (1 # 1000000) 300)
        0%nat = (Ok r, 2%nat)
    /\ solver_status r = "optimal" /\ objective_value r = 10.
Proof.
  assert (Hv : valid_inputs scenarios.U_symmetric scenarios.w_equal (1 # 1000000) 2 2)
    by (repeat split; reflexivity).
  pose proof (feasible_answer_returned scenarios.U_symmetric scenarios.w_equal
                (1 # 1000000) 300 2 2
                (scenarios.ortools_env scenarios.diagonal_answer) 0%nat Hv eq_refl
                eq_refl) as H.
  cbv beta iota delta [scenarios.ortools_env scenarios.tick] in H.
  destruct (H eq_refl (or_introl eq_refl)) as [Hacc _]. clear H.
  destruct Hacc as (r & Hr & Hst & Hobj & _).
  - split.
    + intros [|[|i]] [|[|j]] Hi Hj; try lia; intros HH; vm_compute in HH; discriminate HH.
    + intros [|[|j]] Hj; try lia; intros HH; vm_compute in HH; discriminate HH.
  - exists r. split; [exact Hr | split; [exact Hst | exact Hobj]].
Defined.

(** *** Runs without a solution *)

(** X4.  When OR-Tools cannot create the GLOP solver, valid inputs end in a
    [RuntimeError] right after that call: no clock is read and nothing is
    solved. *)
Theorem solver_unavailable_raises {S : Type} (U w : ndarray) (eps tl : Q) (n m : nat)
    (env : forall X, ortools X -> S -> X * S) (s0 : S) :
  valid_inputs U w eps n m ->
  (env _ (CreateSolver "GLOP") s0).1 = false ->
  run env (solve_maxmin_allocation U w eps tl) s0
  = (Raise (RuntimeError [Lit "Could not create OR-Tools solver"]),
     (env _ (CreateSolver "GLOP") s0).2).
Proof.
  intros Hv Hnone. unfold solve_maxmin_allocation. pass_validation Hv.
  unfold mbind, prog_bind, call. cbn [bind run].
  destruct (env _ (CreateSolver "GLOP") s0) as [solver s1]. cbn [fst snd] in *.
  subst solver. reflexivity.
Qed.

Lemma solver_unavailable_raises_witness :
  run scenarios.ortools_missing
      (solve_maxmin_allocation scenarios.U_symmetric scenarios.w_equal (1 # 1000000) 300)
      0%nat
  = (Raise (RuntimeError [Lit "Could not create OR-Tools solver"]), 0%nat).
Proof.
  apply (solver_unavailable_raises scenarios.U_symmetric scenarios.w_equal
           (1 # 1000000) 300 2 2 scenarios.ortools_missing 0%nat).
  - repeat split; reflexivity.
  - reflexivity.
Defined.

(** X5.  With agents but no good at all (and a time limit whose
    milliseconds fit an [int64_t]), a status other than [OPTIMAL] or
    [FEASIBLE] does produce the "infeasible" result: the empty allocation has
    no column to fail the constructor's check. *)
Theorem infeasible_without_goods_returned {S : Type} (U w : ndarray) (eps tl : Q) (n : nat)
    (env : forall X, ortools X -> S -> X * S) (s0 : S) :
  valid_inputs U w eps n 0 ->
  fits_int64 (int (tl * 1000)) = true ->
  let '(solver, s1) := env _ (CreateSolver "GLOP") s0 in
  let '(t0, s2) := env _ time_time s1 in
  let '(answer, s3) := env _ (Solve (build_model U w eps tl n 0)) s2 in
  let '(t1, s4) := env _ time_time s3 in
  solver = true -> status answer <> OPTIMAL -> status answer <> FEASIBLE ->
  exists r,
    run env (solve_maxmin_allocation U w eps tl) s0 = (Ok r, s4)
    /\ solver_status r = "infeasible" /\ objective_value r = 0
    /\ solve_time r = t1 - t0
    /\ allocation r = zeros [n; 0%nat] /\ utilities r = zeros [n]
    /\ metadata r !! "error" = Some (VStr "No feasible solution found").
Proof.
  intros Hv Htl. unfold solve_maxmin_allocation. pass_validation Hv.
  unfold mbind, prog_bind, call. cbn [bind run].
  destruct (env _ (CreateSolver "GLOP") s0) as [solver s1].
  destruct (env _ time_time s1) as [t0 s2] eqn:E2.
  destruct (env _ (Solve _) s2) as [answer s3] eqn:E3.
  destruct (env _ time_time s3) as [t1 s4] eqn:E4.
  intros -> Hno Hnf. rewrite Htl. cbn [negb bind run]. rewrite E2, E3, E4.
  assert (Hnew : forall md,
            new_AllocationResult (zeros [n; 0%nat]) (zeros [n]) 0 "infeasible" (t1 - t0) md
            = Ok (Build_AllocationResult (zeros [n; 0%nat]) (zeros [n]) 0 "infeasible"
                    (t1 - t0) md)).
  { intros md. unfold new_AllocationResult.
    rewrite (models_facts.post_init_cases
               (Build_AllocationResult (zeros [n; 0%nat]) (zeros [n]) 0 "infeasible"
                  (t1 - t0) md) n 0 eq_refl).
    cbn [allocation utilities].
    rewrite maxmin_facts.any_lt_zeros by discriminate.
    change (data (sum_axis0 (zeros [n; 0%nat]))) with (@nil Q).
    cbn [allclose_scalar forallb negb]. unfold shape_eqb.
    rewrite bool_decide_eq_true_2 by reflexivity. reflexivity. }
  destruct (status answer); try contradiction;
    rewrite Hnew; cbn [lift run]; eexists; (split; [reflexivity |]);
    cbn [solver_status objective_value solve_time allocation utilities metadata];
    repeat split; now simplify_map_eq.
Qed.

(** Two agents, no good, [epsilon = 1e-3]: the rows [- t >= 0] are out of
    reach of [t >= 1e-3] by far more than GLOP's tolerance. *)
Lemma infeasible_without_goods_returned_witness :
  let env := scenarios.glop_env (1 # 1000000) scenarios.whole_good_answer in
  exists r,
    run env
        (solve_maxmin_allocation (mk [2%nat; 0%nat] []) scenarios.w_equal (1 # 1000) 300)
        0%nat = (Ok r, 2%nat)
    /\ solver_status r = "infeasible".
Proof.
  intros env.
  assert (Hv : valid_inputs (mk [2%nat; 0%nat] []) scenarios.w_equal (1 # 1000) 2 0)
    by (repeat split; reflexivity).
  pose proof (infeasible_without_goods_returned (mk [2%nat; 0%nat] []) scenarios.w_equal
                (1 # 1000) 300 2 env 0%nat Hv eq_refl) as H.
  cbv beta iota zeta delta [env scenarios.glop_env scenarios.tick] in H.
  destruct H as (r & Hr & Hst & _);
    [reflexivity | vm_compute; discriminate | vm_compute; discriminate |].
  exists r. split; [exact Hr | exact Hst].
Defined.

(** X30.  When the time limit is [2^63] milliseconds or more, beyond an
    [int64_t], valid inputs end in the [OverflowError] of [SetTimeLimit],
    right after the solver is created: no clock is read and nothing is
    solved. *)
Theorem time_limit_overflow_raises {S : Type} (U w : ndarray) (eps tl : Q) (n m : nat)
    (env : forall X, ortools X -> S -> X * S) (s0 : S) :
  valid_inputs U w eps n m ->
  (env _ (CreateSolver "GLOP") s0).1 = true ->
  (2 ^ 63 <= int (tl * 1000))%Z ->
  exists msg,
    run env (solve_maxmin_allocation U w eps tl) s0
    = (Raise (OverflowError msg), (env _ (CreateSolver "GLOP") s0).2).
Proof.
  intros Hv Hsolver Htl. unfold solve_maxmin_allocation. pass_validation Hv.
  unfold mbind, prog_bind, call. cbn [bind run].
  destruct (env _ (CreateSolver "GLOP") s0) as [solver s1]. cbn [fst snd] in *.
  subst solver.
  assert (Hfit : fits_int64 (int (tl * 1000)) = false).
  { unfold fits_int64. apply andb_false_iff. right. apply Z.leb_gt. lia. }
  rewrite Hfit. cbn [negb run]. eexists. reflexivity.
Qed.

(** A time limit of [1e20] seconds. *)
Lemma time_limit_overflow_raises_witness :
  exists msg,
    run (scenarios.ortools_env scenarios.diagonal_answer)
        (solve_maxmin_allocation scenarios.U_symmetric scenarios.w_equal (1 # 1000000)
           (inject_Z (10 ^ 20)))
        0%nat
    = (Raise (OverflowError msg), 0%nat).
Proof.
  apply (time_limit_overflow_raises scenarios.U_symmetric scenarios.w_equal
           (1 # 1000000) (inject_Z (10 ^ 20)) 2 2
           (scenarios.ortools_env scenarios.diagonal_answer) 0%nat).
  - repeat split; reflexivity.
  - reflexivity.
  - vm_compute. discriminate.
Defined.

End maxmin_extras.

(** ** What the Nash solver returns when the engine succeeds *)

Module nash_extras.
Import py np models np_facts models_facts nash_solver contracts.

Lemma nash_product_kept (np_exp : Q -> Q) (res : OptimizeResult) :
  nash_metadata np_exp res !! "nash_product" = Some (VFloat (np_exp (- res_fun res))).
Proof. unfold nash_metadata. now simplify_map_eq. Qed.

(** X6.  With at least one agent: when SLSQP reports success, the point it
    returns still goes through the [AllocationResult] constructor.  If it has [n * m] cells, no entry below
    [-1e-9] and column sums within [1.1e-5] of [1], the solver returns it
    with status "optimal", objective [-fun], the realized utilities and
    [nash_product = exp(objective)]; otherwise the call raises the
    [ValueError] of the reshape or of the constructor, success or not. *)
Theorem successful_run_outcome {S : Type} (np_log np_exp : Q -> Q) (U w : ndarray)
    (eps tl : Q) (opts : option (gmap string pyval)) (n m : nat)
    (env : forall X, scipy X -> S -> X * S) (s0 : S) :
  valid_inputs U w eps n m -> wf U -> (1 <= n)%nat ->
  let '(t0, s1) := env _ time_time s0 in
  let '(res, s2) := env _ (minimize (build_problem np_log U w eps opts n m)) s1 in
  let '(t1, s3) := env _ time_time s2 in
  success res = true ->
  let x := mk [n; m] (data (res_x res)) in
  let accepted :=
    length (data (res_x res)) = (n * m)%nat
    /\ (forall i j, (i < n)%nat -> (j < m)%nat -> - (1 # 1000000000) <= item2 x i j)
    /\ (forall j, (j < m)%nat -> Qabs (sum (col x j) - 1) <= 11 # 1000000) in
  let outcome := run env (solve_nash_allocation np_log np_exp U w eps tl opts) s0 in
  (accepted ->
     exists r, outcome = (Ok r, s3) /\ allocation r = x /\ solver_status r = "optimal"
       /\ objective_value r = - res_fun res /\ solve_time r = t1 - t0
       /\ (forall i, (i < n)%nat -> item1 (utilities r) i = own_utility x U m i)
       /\ metadata r !! "nash_product" = Some (VFloat (np_exp (objective_value r))))
  /\ (~ accepted ->
      exists lit rest, outcome = (Raise (ValueError (Lit lit :: rest)), s3)
        /\ In lit ["cannot reshape array of size ";
                   "Allocation contains negative values";
                   "Goods not fully allocated. Column sums: "]).
Proof.
  intros Hv HwU Hn1. unfold solve_nash_allocation. pose proof Hv as (HsU & _).
  pass_validation Hv. rewrite (truediv_agent 1 n Hn1).
  unfold mbind, prog_bind, call. cbn [lift bind run].
  destruct (env _ time_time s0) as [t0 s1].
  destruct (env _ (minimize _) s1) as [res s2].
  destruct (env _ time_time s2) as [t1 s3].
  intros Hok. rewrite Hok.
  set (x := {| shape := [n; m]; data := data (res_x res) |}).
  set (accepted := length (data (res_x res)) = (n * m)%nat /\ _ /\ _).
  unfold reshape2. destruct (length (data (res_x res)) =? n * m)%nat eqn:El.
  2:{ apply Nat.eqb_neq in El. cbn [lift bind run]. split.
      - intros (Hlen & _). contradiction.
      - intros _. do 2 eexists. split; [reflexivity | now left]. }
  apply Nat.eqb_eq in El. cbn [lift bind run]. fold x.
  assert (Hsx : shape x = [n; m]) by reflexivity.
  assert (Hwx : wf x) by (unfold wf, x; cbn; lia).
  unfold new_AllocationResult.
  rewrite (post_init_cases (Build_AllocationResult x _ _ _ _ _) n m Hsx).
  cbn [allocation utilities].
  pose proof (any_lt_spec x n m (- (1 # 1000000000)) Hsx Hwx) as Hneg'.
  pose proof (column_check_false x n m Hsx) as Hcol.
  destruct (any_lt x _) eqn:E1.
  { cbn [rbind lift run]. split.
    - intros (_ & Hnn & _). destruct Hneg' as [Hex _].
      destruct (Hex eq_refl) as (i & j & Hi & Hj & Hlt).
      specialize (Hnn i j Hi Hj). lra.
    - intros _. do 2 eexists. split; [reflexivity | right; now left]. }
  destruct (allclose_scalar _ 1 _) eqn:E2; cbn [negb].
  2:{ cbn [rbind lift run]. split.
      - intros (_ & _ & Hc). destruct Hcol as [Hex _].
        destruct (Hex eq_refl) as (j & Hj & Hlt). specialize (Hc j Hj). lra.
      - intros _. do 2 eexists. split; [reflexivity | right; right; now left]. }
  unfold shape_eqb. rewrite (nash_facts.sum_axis1_shape (mul x U) n m Hsx).
  rewrite bool_decide_eq_true_2 by reflexivity.
  cbn [negb rbind lift run]. split.
  - intros _. eexists. split; [reflexivity |].
    cbn [allocation solver_status metadata objective_value solve_time utilities].
    do 4 (split; [reflexivity |]). split.
    + intros i Hi. apply (diagnostics_facts.realized_item x U n m i Hsx HsU Hwx HwU Hi).
    + apply nash_product_kept.
  - intros Hna. exfalso. apply Hna. split; [exact El | split].
    + intros i j Hi Hj. apply Qnot_lt_le. intros Hlt.
      assert (false = true) by (apply Hneg'; eauto). discriminate.
    + intros j Hj. apply Qnot_lt_le. intros Hlt.
      assert (true = false) by (apply Hcol; eauto). discriminate.
Qed.

Lemma successful_run_outcome_witness :
  exists r,
    run (scenarios.scipy_env scenarios.converged_at_diagonal)
        (solve_nash_allocation (fun x => x) (fun x => x)
           scenarios.U_symmetric scenarios.w_equal (1 # 1000000) 300 None) 0%nat
    = (Ok r, 2%nat)
    /\ solver_status r = "optimal" /\ item1 (utilities r) 0 = 10 + 0.
Proof.
  assert (Hv : valid_inputs scenarios.U_symmetric scenarios.w_equal (1 # 1000000) 2 2)
    by (repeat split; reflexivity).
  pose proof (successful_run_outcome (fun x => x) (fun x => x)
                scenarios.U_symmetric scenarios.w_equal (1 # 1000000) 300 None 2 2
                (scenarios.scipy_env scenarios.converged_at_diagonal) 0%nat Hv eq_refl
                ltac:(lia))
    as H.
  cbv beta iota delta [scenarios.scipy_env scenarios.tick] in H.
  destruct (H eq_refl) as [Hacc _]. clear H.
  destruct Hacc as (r & Hr & _ & Hst & _ & _ & Hu & _).
  - split; [reflexivity | split].
    + intros [|[|i]] [|[|j]] Hi Hj; try lia; intros HH; vm_compute in HH; discriminate HH.
    + intros [|[|j]] Hj; try lia; intros HH; vm_compute in HH; discriminate HH.
  - exists r. split; [exact Hr | split; [exact Hst |]].
    rewrite (Hu 0%nat) by lia. vm_compute. reflexivity.
Defined.

(** *** The problem handed to SLSQP *)

Lemma seq_from (k m : nat) : seq k m = map (fun j => (k + j)%nat) (seq 0 m).
Proof.
  revert k. induction m as [|m IH]; intros k; [reflexivity |].
  cbn [seq map]. rewrite Nat.add_0_r. f_equal.
  rewrite (IH (S k)), (IH 1%nat), map_map. apply map_ext. intros j. lia.
Qed.

Lemma sum_blocks (f : nat -> Q) (n m : nat) :
  sum (map f (seq 0 (n * m)))
  == sum (map (fun i => sum (map (fun j => f (i * m + j)%nat) (seq 0 m))) (seq 0 n)).
Proof.
  induction n as [|n IH]; [reflexivity |].
  replace (S n * m)%nat with (n * m + m)%nat by lia.
  rewrite seq_app, map_app, maxmin_extras.sum_app, IH.
  rewrite seq_S, map_app, maxmin_extras.sum_app. cbn [map sum fold_right plus].
  rewrite (seq_from (n * m) m), map_map.
  generalize (sum (map (fun i => sum (map (fun j => f (i * m + j)%nat) (seq 0 m)))
                     (seq 0 n)))
    (fold_right Qplus 0 (map (fun x => f (n * m + x)%nat) (seq 0 m))).
  intros p q. ring.
Qed.

Lemma sum_indicator (g : nat -> Q) (m j : nat) :
  (j < m)%nat ->
  sum (map (fun j' => (if (j' =? j)%nat then 1 else 0) * g j') (seq 0 m)) == g j.
Proof.
  induction m as [|m IH]; intros Hj; [lia |].
  rewrite seq_S, map_app, maxmin_extras.sum_app. cbn [map sum fold_right plus].
  destruct (Nat.eq_dec j m) as [-> | Hne].
  - rewrite Nat.eqb_refl.
    assert (E : sum (map (fun j' => (if (j' =? m)%nat then 1 else 0) * g j') (seq 0 m))
                == sum (map (fun _ => 0) (seq 0 m))).
    { apply maxmin_extras.sum_map_Qeq. intros j' Hj'. apply in_seq in Hj'.
      replace (j' =? m)%nat with false by (symmetry; apply Nat.eqb_neq; lia). ring. }
    rewrite E, maxmin_facts.sum_all_zero. ring.
  - replace (m =? j)%nat with false by (symmetry; apply Nat.eqb_neq; lia).
    rewrite IH by lia. ring.
Qed.

Lemma list_as_map (x : list Q) (k : nat) :
  length x = k -> x = map (fun c => nth c x 0) (seq 0 k).
Proof.
  intros Hk. apply (nth_ext _ _ 0 0).
  - now rewrite length_map, length_seq.
  - intros c Hc. rewrite nth_map_seq by lia. reflexivity.
Qed.

(** The loop that fills [A_eq]: row [j] has a [1] in the column of every
    [x[i, j]] and [0] elsewhere. *)
Lemma A_eq_spec (n m : nat) :
  let A := for_range2 m n (fun j i a => setitem2 a j (i * m + j) 1)
             (zeros [m; (n * m)%nat]) in
  shape A = [m; (n * m)%nat] /\ wf A
  /\ forall j i' j', (j < m)%nat -> (i' < n)%nat -> (j' < m)%nat ->
       item2 A j (i' * m + j') = if (j' =? j)%nat then 1 else 0.
Proof.
  cbv zeta. unfold for_range2.
  set (P := fun (k : nat) (a : ndarray) =>
         shape a = [m; (n * m)%nat] /\ wf a /\
         forall j i' j', (j < m)%nat -> (i' < n)%nat -> (j' < m)%nat ->
           item2 a j (i' * m + j') = if (j <? k)%nat && (j' =? j)%nat then 1 else 0).
  match goal with |- context [for_range m ?body ?a0] =>
    assert (HP : P m (for_range m body a0)) end.
  { apply for_range_ind.
    - split; [reflexivity |]. split; [apply diagnostics_facts.zeros_matrix_wf |].
      intros j i' j' _ _ _. apply maxmin_facts.item2_zeros.
    - intros k a Hk (Hsa & Hwa & Ha).
      set (R := fun (l : nat) (b : ndarray) =>
             shape b = [m; (n * m)%nat] /\ wf b /\
             forall j i' j', (j < m)%nat -> (i' < n)%nat -> (j' < m)%nat ->
               item2 b j (i' * m + j') =
                 if ((j <? k)%nat || ((j =? k)%nat && (i' <? l)%nat)) && (j' =? j)%nat
                 then 1 else 0).
      match goal with |- P _ (for_range n ?body a) =>
        assert (HR : R n (for_range n body a)) end.
      { apply for_range_ind.
        - split; [exact Hsa | split; [exact Hwa |]]. intros j i' j' Hj Hi' Hj'.
          rewrite (Ha j i' j' Hj Hi' Hj'). now rewrite andb_false_r, orb_false_r.
        - intros l b Hl (Hsb & Hwb & Hb).
          split; [exact Hsb | split; [now apply setitem2_wf |]].
          intros j i' j' Hj Hi' Hj'.
          rewrite (item2_setitem2 b m (n * m) k (l * m + k) j (i' * m + j') 1 Hsb Hwb)
            by nia.
          rewrite (Hb j i' j' Hj Hi' Hj').
          assert (Hiff : (i' * m + j' =? l * m + k)%nat = ((i' =? l)%nat && (j' =? k)%nat)).
          { destruct (Nat.eqb_spec (i' * m + j') (l * m + k)) as [E | E].
            - destruct (cell_index_inj m i' j' l k Hj' Hk E) as [-> ->].
              now rewrite !Nat.eqb_refl.
            - destruct (Nat.eqb_spec i' l) as [-> |]; [| reflexivity].
              destruct (Nat.eqb_spec j' k) as [-> |]; [| reflexivity].
              now contradiction E. }
          rewrite Hiff.
          destruct (Nat.eqb_spec j k), (Nat.eqb_spec i' l), (Nat.eqb_spec j' k),
            (Nat.eqb_spec j' j), (Nat.ltb_spec j k), (Nat.ltb_spec i' l),
            (Nat.ltb_spec i' (S l)); cbn [andb orb]; try reflexivity; lia. }
      destruct HR as (Hsb & Hwb & Hb). split; [exact Hsb | split; [exact Hwb |]].
      intros j i' j' Hj Hi' Hj'. rewrite (Hb j i' j' Hj Hi' Hj').
      destruct (Nat.eqb_spec j k), (Nat.eqb_spec j' j), (Nat.ltb_spec j k),
        (Nat.ltb_spec i' n), (Nat.ltb_spec j (S k)); cbn [andb orb];
        try reflexivity; lia. }
  destruct HP as (Hs & Hw & Hc). split; [exact Hs | split; [exact Hw |]].
  intros j i' j' Hj Hi' Hj'. rewrite (Hc j i' j' Hj Hi' Hj').
  now replace (j <? m)%nat with true by (symmetry; apply Nat.ltb_lt; lia).
Qed.

Lemma A_eq_row_dot (n m j : nat) (x : list Q) :
  length x = (n * m)%nat -> (j < m)%nat ->
  dot (row (for_range2 m n (fun j i a => setitem2 a j (i * m + j) 1)
              (zeros [m; (n * m)%nat])) j) x
  == sum (map (fun i => nth (i * m + j) x 0) (seq 0 n)).
Proof.
  intros Hx Hj. destruct (A_eq_spec n m) as (Hs & _ & Hc).
  set (A := for_range2 m n _ _) in *.
  unfold dot, row, dim. rewrite Hs. cbn [nth].
  rewrite (list_as_map x (n * m) Hx) at 1. rewrite zip_with_maps, sum_blocks.
  apply maxmin_extras.sum_map_Qeq. intros i Hi. apply in_seq in Hi.
  rewrite <- (sum_indicator (fun j' => nth (i * m + j') x 0) m j Hj).
  apply maxmin_extras.sum_map_Qeq. intros j' Hj'. apply in_seq in Hj'.
  rewrite (Hc j i j') by lia. reflexivity.
Qed.

(** X7.  The linear constraint given to SLSQP says that every good is fully
    allocated: [A_eq] has one row per good, row [j] applied to a flat point
    is the sum of column [j] of the point seen as an [n x m] matrix, and both
    bounds of the constraint are [1]. *)
Theorem equality_constraint_is_column_sum (np_log : Q -> Q) (U w : ndarray) (eps : Q)
    (opts : option (gmap string pyval)) (n m : nat) (x : list Q) :
  length x = (n * m)%nat ->
  let linear := (p_constraints (build_problem np_log U w eps opts n m)).1 in
  shape (lc_A linear) = [m; (n * m)%nat]
  /\ lc_lb linear = ones [m] /\ lc_ub linear = ones [m]
  /\ forall j, (j < m)%nat ->
       dot (row (lc_A linear) j) x == sum (col (mk [n; m] x) j).
Proof.
  intros Hx. cbv zeta. unfold build_problem. cbn [p_constraints fst lc_A lc_lb lc_ub].
  destruct (A_eq_spec n m) as (Hs & _ & _).
  split; [exact Hs |]. split; [reflexivity |]. split; [reflexivity |].
  intros j Hj. rewrite (A_eq_row_dot n m j x Hx Hj). reflexivity.
Qed.

Lemma equality_constraint_is_column_sum_witness :
  let linear := (p_constraints (build_problem (fun x => x) scenarios.U_symmetric
                                  scenarios.w_equal (1 # 1000000) None 2 2)).1 in
  dot (row (lc_A linear) 1) [1 # 4; 1 # 3; 3 # 4; 2 # 3] == (1 # 3) + (2 # 3).
Proof.
  intros linear.
  destruct (equality_constraint_is_column_sum (fun x => x) scenarios.U_symmetric
              scenarios.w_equal (1 # 1000000) None 2 2 [1 # 4; 1 # 3; 3 # 4; 2 # 3]
              eq_refl) as (_ & _ & _ & Hrow).
  eapply Qeq_trans; [apply (Hrow 1%nat); lia | reflexivity].
Defined.





(** X31.  With no agent (utilities of shape [(0, m)], entitlements of
    shape [(0,)]) the tests that open the Nash solver pass, and the call
    ends in the [ZeroDivisionError] of [1.0 / n_agents]: the program is that
    exception alone, so neither the clock nor [minimize] is called. *)
Theorem no_agent_raises (np_log np_exp : Q -> Q) (U w : ndarray) (eps tl : Q)
    (opts : option (gmap string pyval)) (m : nat) :
  shape U = [0%nat; m] -> wf U -> shape w = [0%nat] -> wf w -> 0 < eps ->
  let nash := solve_nash_allocation np_log np_exp U w eps tl opts in
  (exists msg, nash = Throw (ZeroDivisionError msg)) /\ silent nash.
Proof.
  intros HsU HwU Hsw' Hww Heps' nash. subst nash.
  assert (HdU : data U = []).
  { unfold wf in HwU. rewrite HsU in HwU. cbn in HwU. now destruct (data U). }
  assert (Hdw : data w = []).
  { unfold wf in Hww. rewrite Hsw' in Hww. cbn in Hww. now destruct (data w). }
  assert (Hv : valid_inputs U w eps 0 m).
  { repeat split; auto; [unfold any_lt; now rewrite HdU | unfold any_le; now rewrite Hdw]. }
  clear HsU Hsw' Heps'. unfold solve_nash_allocation. pass_validation Hv.
  cbn [truediv Nat.eqb lift]. unfold mbind, prog_bind. cbn [bind].
  split; [eexists; reflexivity | exact I].
Qed.

Lemma no_agent_raises_witness :
  exists msg,
    solve_nash_allocation (fun x => x) (fun x => x)
      (mk [0%nat; 3%nat] []) (mk [0%nat] []) (1 # 1000000) 300 None
    = Throw (ZeroDivisionError msg).
Proof.
  apply (no_agent_raises (fun x => x) (fun x => x)
           (mk [0%nat; 3%nat] []) (mk [0%nat] []) (1 # 1000000) 300 None 3);
    reflexivity.
Defined.

End nash_extras.

(** ** More on the fairness report *)

Module diagnostics_extras.
Import py np models np_facts diagnostics contracts diagnostics_facts.

(** *** The list built by the envy loop *)

Lemma for_range_snd {A B} (n : nat) (body : nat -> A * list B -> A * list B)
    (g : nat -> list B) :
  (forall i st, (body i st).2 = st.2 ++ g i) ->
  forall st, (for_range n body st).2 = st.2 ++ flat_map g (seq 0 n).
Proof.
  intros Hb st. induction n as [|n IH]; [simpl; now rewrite app_nil_r |].
  rewrite for_range_S, Hb, IH, seq_S, flat_map_app. simpl.
  now rewrite app_nil_r, app_assoc.
Qed.

(** The amount by which [i] envies [k], as the loop computes it. *)
Lemma envy_step_snd (a u realized : ndarray) (tol : Q) (i k : nat)
    (st : ndarray * list (nat * nat * Q)) :
  (envy_step a u realized tol i k st).2 =
  st.2 ++ (if (i =? k)%nat then []
           else if Qltb tol (dot (row u i) (row a k) - item1 realized i)
                then [(i, k, dot (row u i) (row a k) - item1 realized i)] else []).
Proof.
  unfold envy_step. destruct (i =? k)%nat; [now rewrite app_nil_r |].
  destruct (Qltb tol _); cbn [snd]; [reflexivity | now rewrite app_nil_r].
Qed.

Lemma envy_loop_pairs (a u realized : ndarray) (tol : Q) (n : nat)
    (st : ndarray * list (nat * nat * Q)) (i k : nat) (e : Q) :
  In (i, k, e) (for_range2 n n (envy_step a u realized tol) st).2 <->
  In (i, k, e) st.2
  \/ ((i < n)%nat /\ (k < n)%nat /\ i <> k
      /\ e = dot (row u i) (row a k) - item1 realized i /\ tol < e).
Proof.
  unfold for_range2.
  rewrite (for_range_snd n _
             (fun i => flat_map (fun k =>
                if (i =? k)%nat then []
                else if Qltb tol (dot (row u i) (row a k) - item1 realized i)
                     then [(i, k, dot (row u i) (row a k) - item1 realized i)] else [])
                (seq 0 n))).
  2:{ intros i' st'. apply for_range_snd. intros k' st''. apply envy_step_snd. }
  rewrite in_app_iff, in_flat_map. split; (intros [H | H]; [now left | right]).
  - destruct H as (i' & Hi' & Hin). apply in_flat_map in Hin as (k' & Hk' & Hin).
    apply in_seq in Hi', Hk'.
    destruct (i' =? k')%nat eqn:E; [destruct Hin |]. apply Nat.eqb_neq in E.
    destruct (Qltb tol _) eqn:Et; [| destruct Hin].
    destruct Hin as [[= <- <- <-] | []]. apply Qltb_lt in Et.
    repeat split; auto; lia.
  - destruct H as (Hi & Hk & Hne & -> & Hlt).
    exists i. split; [apply in_seq; lia |]. apply in_flat_map.
    exists k. split; [apply in_seq; lia |].
    replace (i =? k)%nat with false by (symmetry; now apply Nat.eqb_neq).
    apply Qltb_lt in Hlt. rewrite Hlt. now left.
Qed.

(** *** The sort of the envious pairs *)

Lemma insert_desc_in (p x : nat * nat * Q) (ps : list (nat * nat * Q)) :
  In x (insert_desc p ps) <-> x = p \/ In x ps.
Proof.
  induction ps as [|q ps IH]; simpl; [intuition |].
  destruct (Qltb q.2 p.2); simpl; [intuition |]. rewrite IH. intuition.
Qed.

Lemma sort_desc_in (x : nat * nat * Q) (ps : list (nat * nat * Q)) :
  In x (sort_desc ps) <-> In x ps.
Proof.
  unfold sort_desc.
  assert (H : forall acc, In x (fold_left (fun acc p => insert_desc p acc) ps acc)
                          <-> In x ps \/ In x acc).
  { induction ps as [|p ps IH]; intros acc; simpl; [intuition |].
    rewrite IH, insert_desc_in. intuition. }
  rewrite H. simpl. intuition.
Qed.

Lemma insert_desc_hd (p q : nat * nat * Q) (ps : list (nat * nat * Q)) :
  p.2 <= q.2 -> HdRel by_amount_desc q ps -> HdRel by_amount_desc q (insert_desc p ps).
Proof.
  intros Hpq Hhd. destruct ps as [|q' ps]; simpl; [now constructor |].
  destruct (Qltb q'.2 p.2); constructor; [exact Hpq |]. now inversion Hhd.
Qed.

Lemma insert_desc_sorted (p : nat * nat * Q) (ps : list (nat * nat * Q)) :
  Sorted by_amount_desc ps -> Sorted by_amount_desc (insert_desc p ps).
Proof.
  induction 1 as [|q ps Hs IH Hhd]; simpl; [repeat constructor |].
  destruct (Qltb q.2 p.2) eqn:E.
  - apply Qltb_lt in E. constructor; [now constructor |]. constructor.
    unfold by_amount_desc. lra.
  - apply Qltb_ge in E. constructor; [exact IH |]. now apply insert_desc_hd.
Qed.

Lemma sort_desc_sorted (ps : list (nat * nat * Q)) : Sorted by_amount_desc (sort_desc ps).
Proof.
  unfold sort_desc.
  assert (H : forall acc, Sorted by_amount_desc acc ->
                Sorted by_amount_desc (fold_left (fun acc p => insert_desc p acc) ps acc)).
  { induction ps as [|p ps IH]; intros acc Hacc; simpl; [exact Hacc |].
    apply IH. now apply insert_desc_sorted. }
  apply H. constructor.
Qed.

(** *** More of what [analyze_fairness] puts in its report *)

Lemma analyze_fairness_fields (np_log np_exp : Q -> Q) (a u w : ndarray) (tol : Q)
    (r : FairnessReport) :
  analyze_fairness np_log np_exp a u w tol = Ok r ->
  let gaps := sub (sum_axis1 (mul a u))
                (mul_scalar (div_scalar w (sum (data w)))
                   (sum (data (sum_axis1 (mul a u))))) in
  amin (sum_axis1 (mul a u)) = Ok (min_utility r)
  /\ is_proportional r = all_ge gaps (- tol)
  /\ (exists g, amin gaps = Ok g
               /\ fairness_summary r !! "max_proportionality_gap" = Some (VFloat g))
  /\ fairness_summary r !! "num_envious_pairs" = Some (VInt (length (envious_pairs r)))
  /\ _check_symmetric_instance u w tol = Ok (is_symmetric_instance r)
  /\ is_symmetric_allocation r
     = _check_symmetric_allocation a (sum_axis1 (mul a u)) u w tol.
Proof.
  intros H. cbv zeta. unfold analyze_fairness in H.
  destruct (unpack2 (shape a)) as [[n m] | e]; cbn [rbind] in H; [| discriminate].
  destruct (amin (sum_axis1 (mul a u))) as [mn | e]; cbn [rbind] in H; [| discriminate].
  destruct (_check_pareto_efficiency_heuristic a u _ tol) as [[pe note] | e];
    cbn [rbind] in H; [| discriminate].
  destruct (_analyze_envy a u _ tol) as [[[[E mx] ef] ps] | e];
    cbn [rbind] in H; [| discriminate].
  destruct (_check_symmetric_instance u w tol) as [si | e];
    cbn [rbind] in H; [| discriminate].
  destruct (amin (sub _ _)) as [mg | e]; cbn [rbind] in H; [| discriminate].
  injection H as <-.
  cbn [min_utility is_proportional fairness_summary envious_pairs is_symmetric_instance
       is_symmetric_allocation].
  split; [reflexivity | split; [reflexivity | split; [| split; [| split; reflexivity]]]].
  - exists mg. split; [reflexivity |]. now simplify_map_eq.
  - now simplify_map_eq.
Qed.

Lemma report_has_agent (np_log np_exp : Q -> Q) (a u w : ndarray) (tol : Q) (n m : nat)
    (r : FairnessReport) :
  analyze_fairness np_log np_exp a u w tol = Ok r -> shape a = [n; m] -> (1 <= n)%nat.
Proof.
  intros Hr Ha. destruct (analyze_fairness_fields _ _ _ _ _ _ _ Hr) as (Hmin & _).
  pose proof (realized_length a u n m Ha) as Hl.
  unfold amin in Hmin. destruct (data (sum_axis1 (mul a u))); [discriminate |].
  simpl in Hl. lia.
Qed.

(** *** The envy analysis *)

Lemma analyze_envy_inv (a u realized : ndarray) (tol : Q) (n : nat) (E : ndarray) (mx : Q)
    (ef : bool) (ps : list (nat * nat * Q)) :
  _analyze_envy a u realized tol = Ok (E, mx, ef, ps) -> length (data realized) = n ->
  E = for_range2 n n
        (fun i k envy_matrix =>
           if (i =? k)%nat then envy_matrix
           else setitem2 envy_matrix i k
                  (max2 0 (dot (row u i) (row a k) - item1 realized i)))
        (zeros [n; n])
  /\ amax E = Ok mx /\ ef = Qle_bool mx tol
  /\ ps = sort_desc (for_range2 n n (envy_step a u realized tol) (zeros [n; n], [])).2.
Proof.
  intros H Hlen. unfold _analyze_envy in H.
  pose proof (analyze_envy_matrix a u realized tol) as Hfst. cbv zeta in Hfst.
  rewrite Hlen in *.
  destruct (for_range2 n n (envy_step a u realized tol) (zeros [n; n], [])) as [E0 ps0].
  cbn [fst snd] in *. cbv beta iota in H.
  destruct (amax E0) as [mx0 | e] eqn:Emax; cbn [rbind] in H; [| discriminate].
  injection H as <- <- <- <-. auto.
Qed.

Lemma analyze_envy_pairs (a u realized : ndarray) (tol : Q) (n : nat) (E : ndarray) (mx : Q)
    (ef : bool) (ps : list (nat * nat * Q)) (i k : nat) (e : Q) :
  _analyze_envy a u realized tol = Ok (E, mx, ef, ps) -> length (data realized) = n ->
  In (i, k, e) ps <->
  (i < n)%nat /\ (k < n)%nat /\ i <> k
  /\ e = dot (row u i) (row a k) - item1 realized i /\ tol < e.
Proof.
  intros H Hlen. destruct (analyze_envy_inv _ _ _ _ _ _ _ _ _ H Hlen) as (_ & _ & _ & ->).
  rewrite sort_desc_in, envy_loop_pairs. cbn [snd]. split.
  - intros [[] | H']; exact H'.
  - intros H'. right. exact H'.
Qed.

(** X9.  The envious pairs of the report are exactly the pairs [(i, k)], [i <> k],
    whose envy exceeds the tolerance, each with its amount; the list is in
    descending order of amount, and the summary counts it. *)
Theorem envious_pairs_spec (np_log np_exp : Q -> Q) (a u w : ndarray) (tol : Q)
    (n m : nat) (r : FairnessReport) :
  analyze_fairness np_log np_exp a u w tol = Ok r ->
  shape a = [n; m] -> shape u = [n; m] -> wf a -> wf u ->
  (forall i k e,
     In (i, k, e) (envious_pairs r) <->
     (i < n)%nat /\ (k < n)%nat /\ i <> k
     /\ e = bundle_value a u m i k - own_utility a u m i /\ tol < e)
  /\ Sorted by_amount_desc (envious_pairs r)
  /\ fairness_summary r !! "num_envious_pairs" = Some (VInt (length (envious_pairs r))).
Proof.
  intros Hr Ha Hu Hwa Hwu.
  destruct (analyze_fairness_inv _ _ _ _ _ _ _ Hr) as (_ & Henvy & _).
  destruct (analyze_fairness_fields _ _ _ _ _ _ _ Hr) as (_ & _ & _ & Hnum & _).
  pose proof (realized_length a u n m Ha) as Hlen.
  split; [| split; [| exact Hnum]].
  - intros i k e. rewrite (analyze_envy_pairs _ _ _ _ n _ _ _ _ i k e Henvy Hlen).
    rewrite (dot_rows a u n m i k Ha Hu).
    split; intros (Hi & Hk & Hne & He & Hlt); repeat split; auto.
    + now rewrite <- (realized_item a u n m i Ha Hu Hwa Hwu Hi).
    + now rewrite (realized_item a u n m i Ha Hu Hwa Hwu Hi).
  - destruct (analyze_envy_inv _ _ _ _ n _ _ _ _ Henvy Hlen) as (_ & _ & _ & ->).
    apply sort_desc_sorted.
Qed.

Lemma envious_pairs_spec_witness :
  exists r,
    analyze_fairness (fun x => x) (fun x => x)
      (mk [2%nat; 2%nat] [1; 1; 0; 0]) scenarios.U_symmetric scenarios.w_equal
      (1 # 1000000) = Ok r
    /\ In (1%nat, 0%nat, 15 - 0) (envious_pairs r)
    /\ Sorted by_amount_desc (envious_pairs r).
Proof.
  assert (E : exists r,
             analyze_fairness (fun x => x) (fun x => x)
               (mk [2%nat; 2%nat] [1; 1; 0; 0]) scenarios.U_symmetric scenarios.w_equal
               (1 # 1000000) = Ok r)
    by (eexists; vm_compute; reflexivity).
  destruct E as (r & Hr). exists r. split; [exact Hr |].
  destruct (envious_pairs_spec _ _ _ _ _ _ 2 2 r Hr eq_refl eq_refl eq_refl eq_refl)
    as (Hin & Hs & _).
  split; [| exact Hs]. apply Hin. repeat split; try lia.
Defined.

(** X10.  With a tolerance [>= 0], the report says "envy-free" exactly when its
    list of envious pairs is empty. *)
Theorem envy_free_iff_no_envious_pair (np_log np_exp : Q -> Q) (a u w : ndarray) (tol : Q)
    (n m : nat) (r : FairnessReport) :
  analyze_fairness np_log np_exp a u w tol = Ok r ->
  shape a = [n; m] -> shape u = [n; m] -> 0 <= tol ->
  is_envy_free r = true <-> envious_pairs r = [].
Proof.
  intros Hr Ha Hu Htol.
  pose proof (report_has_agent _ _ _ _ _ _ n m r Hr Ha) as Hn.
  destruct (analyze_fairness_inv _ _ _ _ _ _ _ Hr) as (_ & Henvy & _).
  pose proof (realized_length a u n m Ha) as Hlen.
  destruct (analyze_envy_spec a u _ tol n m Ha Hu Hlen Hn)
    as (E & mx & ef & ps & HE & Hs & Hw & He & Hmax & Hef).
  pose proof (fun i k e => analyze_envy_pairs _ _ _ _ n _ _ _ _ i k e HE Hlen) as Hps.
  rewrite HE in Henvy. injection Henvy as _ _ <- <-.
  destruct (amax_spec E mx Hmax) as [Hin Hle].
  rewrite Hef, Qle_bool_iff. split.
  - intros Hmx. destruct ps as [|[[i k] e] ps]; [reflexivity | exfalso].
    destruct (proj1 (Hps i k e) (or_introl eq_refl)) as (Hi & Hk & Hne & Hev & Hlt).
    assert (Hcell : item2 E i k <= mx)
      by (apply Hle; apply (In_data_item2 E n n _ Hs Hw); eauto).
    rewrite (He i k Hi Hk) in Hcell.
    replace (i =? k)%nat with false in Hcell by (symmetry; now apply Nat.eqb_neq).
    rewrite <- (dot_rows a u n m i k Ha Hu), <- Hev, max2_Qmax in Hcell.
    pose proof (Q.le_max_r 0 e). lra.
  - intros Hnil.
    apply (In_data_item2 E n n _ Hs Hw) in Hin as (i & k & Hi & Hk & Hik).
    rewrite <- Hik, (He i k Hi Hk). destruct (i =? k)%nat eqn:Eik; [exact Htol |].
    apply Nat.eqb_neq in Eik. rewrite <- (dot_rows a u n m i k Ha Hu).
    set (e := dot (row u i) (row a k) - item1 _ i).
    destruct (Qlt_le_dec tol e) as [Hlt | Hge].
    + exfalso. assert (Hin : In (i, k, e) ps) by (apply Hps; repeat split; auto).
      rewrite Hnil in Hin. destruct Hin.
    + unfold max2. destruct (Qltb 0 e); [exact Hge | exact Htol].
Qed.

Lemma envy_free_iff_no_envious_pair_witness :
  exists r,
    analyze_fairness (fun x => x) (fun x => x)
      (mk [2%nat; 2%nat] [1; 0; 0; 1]) scenarios.U_symmetric scenarios.w_equal
      (1 # 1000000) = Ok r
    /\ (is_envy_free r = true <-> envious_pairs r = []).
Proof.
  assert (E : exists r,
             analyze_fairness (fun x => x) (fun x => x)
               (mk [2%nat; 2%nat] [1; 0; 0; 1]) scenarios.U_symmetric scenarios.w_equal
               (1 # 1000000) = Ok r)
    by (eexists; vm_compute; reflexivity).
  destruct E as (r & Hr). exists r. split; [exact Hr |].
  apply (envy_free_iff_no_envious_pair _ _ _ _ _ _ 2 2 r Hr eq_refl eq_refl).
  discriminate.
Defined.

(** X11.  The envy matrix of the report is the array that [compute_envy_matrix]
    returns; its entries are never negative, nor is [max_envy]. *)
Theorem report_envy_is_compute_envy (np_log np_exp : Q -> Q) (a u w : ndarray) (tol : Q)
    (n m : nat) (r : FairnessReport) :
  analyze_fairness np_log np_exp a u w tol = Ok r -> shape a = [n; m] ->
  envy_matrix r = compute_envy_matrix a u
  /\ (forall i k, (i < n)%nat -> (k < n)%nat -> 0 <= item2 (envy_matrix r) i k)
  /\ 0 <= max_envy r.
Proof.
  intros Hr Ha.
  pose proof (report_has_agent _ _ _ _ _ _ n m r Hr Ha) as Hn.
  destruct (analyze_fairness_inv _ _ _ _ _ _ _ Hr) as (_ & Henvy & _).
  pose proof (realized_length a u n m Ha) as Hlen.
  destruct (analyze_envy_inv _ _ _ _ n _ _ _ _ Henvy Hlen) as (HE & Hmax & _).
  destruct (fill_loop_spec Nat.eqb
              (fun i k => max2 0 (dot (row u i) (row a k)
                                  - item1 (sum_axis1 (mul a u)) i))
              n n (zeros [n; n]) eq_refl (zeros_matrix_wf n n)) as (Hs & Hw & He).
  rewrite <- HE in Hs, Hw, He.
  assert (Hnn : forall i k, (i < n)%nat -> (k < n)%nat -> 0 <= item2 (envy_matrix r) i k).
  { intros i k Hi Hk. rewrite (He i k Hi Hk). destruct (i =? k)%nat.
    - rewrite maxmin_facts.item2_zeros. apply Qle_refl.
    - rewrite max2_Qmax. apply Q.le_max_l. }
  split; [| split; [exact Hnn |]].
  - rewrite HE. unfold compute_envy_matrix, dim. rewrite Ha. reflexivity.
  - destruct (amax_spec _ _ Hmax) as [_ Hle].
    eapply Qle_trans; [apply (Hnn 0%nat 0%nat); lia |].
    apply Hle. apply (In_data_item2 _ n n _ Hs Hw). exists 0%nat, 0%nat.
    repeat split; lia.
Qed.

Lemma report_envy_is_compute_envy_witness :
  exists r,
    analyze_fairness (fun x => x) (fun x => x)
      (mk [2%nat; 2%nat] [1; 1; 0; 0]) scenarios.U_symmetric scenarios.w_equal
      (1 # 1000000) = Ok r
    /\ envy_matrix r
       = compute_envy_matrix (mk [2%nat; 2%nat] [1; 1; 0; 0]) scenarios.U_symmetric.
Proof.
  assert (E : exists r,
             analyze_fairness (fun x => x) (fun x => x)
               (mk [2%nat; 2%nat] [1; 1; 0; 0]) scenarios.U_symmetric scenarios.w_equal
               (1 # 1000000) = Ok r)
    by (eexists; vm_compute; reflexivity).
  destruct E as (r & Hr). exists r. split; [exact Hr |].
  apply (report_envy_is_compute_envy _ _ _ _ _ _ 2 2 r Hr eq_refl).
Defined.

(** *** The Pareto heuristic, from the other side *)

Lemma for_return_none {A B} (body : A -> option B) (xs : list A) :
  for_return body xs = None <-> forall x, In x xs -> body x = None.
Proof.
  induction xs as [|x xs IH]; cbn [for_return].
  - split; [intros _ ? [] | reflexivity].
  - destruct (body x) as [b |] eqn:E.
    + split; [discriminate |]. intros H. rewrite <- E. apply H. now left.
    + rewrite IH. split.
      * intros H z [<- | Hz]; [exact E | now apply H].
      * intros H z Hz. apply H. now right.
Qed.

(** X12.  With a tolerance [>= 0], the report says "Pareto efficient"
    exactly when every column sums to
    [1] within [tolerance + 1e-5] and there is no good [j] with an agent [i]
    holding more than [tolerance] of it while valuing it below [tolerance],
    and another agent [k] valuing it above [tolerance] and holding less than
    [1 - tolerance]. *)
Theorem pareto_flag_true_iff (np_log np_exp : Q -> Q) (a u w : ndarray) (tol : Q)
    (n m : nat) (r : FairnessReport) :
  analyze_fairness np_log np_exp a u w tol = Ok r -> shape a = [n; m] ->
  0 <= tol ->
  is_pareto_efficient r = true <->
  (forall j, (j < m)%nat -> Qabs (sum (col a j) - 1) <= tol + (1 # 100000))
  /\ (forall i k j, (i < n)%nat -> (k < n)%nat -> (j < m)%nat -> k <> i ->
        tol < item2 a i j -> item2 u i j < tol -> tol < item2 u k j ->
        1 - tol <= item2 a k j).
Proof.
  intros Hr Ha Htol.
  destruct (analyze_fairness_inv _ _ _ _ _ _ _ Hr) as (Hp & _). clear Hr.
  unfold _check_pareto_efficiency_heuristic in Hp. rewrite Ha in Hp.
  cbn [unpack2 rbind] in Hp.
  assert (Hr1 : rtol * Qabs 1 == 1 # 100000) by reflexivity.
  assert (Hclose : allclose_scalar (data (sum_axis0 a)) 1 tol = true <->
                   forall j, (j < m)%nat -> Qabs (sum (col a j) - 1) <= tol + (1 # 100000)).
  { unfold sum_axis0. cbn [data]. unfold dim at 1. rewrite Ha. cbn [nth].
    rewrite allclose_scalar_true by (rewrite Hr1; lra).
    split; intros H j Hj.
    - rewrite <- Hr1. apply H. apply in_seq. lia.
    - rewrite Hr1. apply H. apply in_seq in Hj. lia. }
  set (search := for_return _ (seq 0 m)) in Hp.
  assert (Hnone : search = None <->
            forall i k j, (i < n)%nat -> (k < n)%nat -> (j < m)%nat -> k <> i ->
              tol < item2 a i j -> item2 u i j < tol -> tol < item2 u k j ->
              1 - tol <= item2 a k j).
  { subst search. rewrite for_return_none. split.
    - intros H i k j Hi Hk Hj Hne H1 H2 H3.
      assert (Hj' : In j (seq 0 m)) by (apply in_seq; lia).
      assert (Hi' : In i (seq 0 n)) by (apply in_seq; lia).
      assert (Hk' : In k (seq 0 n)) by (apply in_seq; lia).
      specialize (H j Hj'). rewrite for_return_none in H. specialize (H i Hi').
      apply Qltb_lt in H1, H2, H3. rewrite H1, H2 in H. cbn [andb] in H.
      rewrite for_return_none in H. specialize (H k Hk'). rewrite H3 in H.
      replace (k =? i)%nat with false in H by (symmetry; now apply Nat.eqb_neq).
      cbn [negb andb] in H. apply Qltb_ge.
      destruct (Qltb (item2 a k j) (1 - tol)); [discriminate H | reflexivity].
    - intros H j Hj. apply for_return_none. intros i Hi.
      destruct (Qltb tol (item2 a i j) && Qltb (item2 u i j) tol) eqn:Eij; [| reflexivity].
      apply for_return_none. intros k Hk.
      destruct (negb (k =? i)%nat && Qltb tol (item2 u k j)
                && Qltb (item2 a k j) (1 - tol)) eqn:Ekj; [exfalso | reflexivity].
      apply andb_true_iff in Eij as [E1 E2].
      apply andb_true_iff in Ekj as [E34 E5]. apply andb_true_iff in E34 as [E3 E4].
      apply Qltb_lt in E1, E2, E4, E5. apply negb_true_iff, Nat.eqb_neq in E3.
      apply in_seq in Hj, Hi, Hk.
      specialize (H i k j ltac:(lia) ltac:(lia) ltac:(lia) E3 E1 E2 E4). lra. }
  rewrite <- Hclose, <- Hnone.
  destruct (allclose_scalar (data (sum_axis0 a)) 1 tol); cbn [negb] in Hp.
  - destruct search as [[[j i] k] |].
    + injection Hp as <- _. split; [discriminate | intros [_ H]; discriminate H].
    + injection Hp as <- _. split; auto.
  - injection Hp as <- _. split; [discriminate | intros [H _]; discriminate H].
Qed.

Lemma pareto_flag_true_iff_witness :
  exists r,
    analyze_fairness (fun x => x) (fun x => x)
      (mk [2%nat; 2%nat] [1; 0; 0; 1]) scenarios.U_symmetric scenarios.w_equal
      (1 # 1000000) = Ok r
    /\ forall j, (j < 2)%nat ->
         Qabs (sum (col (mk [2%nat; 2%nat] [1; 0; 0; 1]) j) - 1)
         <= (1 # 1000000) + (1 # 100000).
Proof.
  assert (E : exists r,
             analyze_fairness (fun x => x) (fun x => x)
               (mk [2%nat; 2%nat] [1; 0; 0; 1]) scenarios.U_symmetric scenarios.w_equal
               (1 # 1000000) = Ok r /\ is_pareto_efficient r = true)
    by (eexists; split; [vm_compute; reflexivity | reflexivity]).
  destruct E as (r & Hr & Hflag). exists r. split; [exact Hr |].
  assert (Htol : 0 <= 1 # 1000000) by (unfold Qle; simpl; lia).
  apply (proj1 (pareto_flag_true_iff _ _ _ _ _ _ 2 2 r Hr eq_refl Htol) Hflag).
Defined.

(** *** Welfare and proportionality *)

Lemma fold_min_spec (xs : list Q) (x : Q) :
  let v := fold_left Qmin xs x in
  In v (x :: xs) /\ forall y, In y (x :: xs) -> v <= y.
Proof.
  revert x. induction xs as [|z xs IH]; intros x; cbn [fold_left].
  - split; [now left |]. intros y [<- | []]. apply Qle_refl.
  - destruct (IH (Qmin x z)) as [Hin Hle]. split.
    + destruct Hin as [Hv | Hin]; [| right; now right].
      rewrite <- Hv. unfold Qmin, GenericMinMax.gmin.
      destruct (x ?= z); [now left | now left | right; now left].
    + intros y [<- | [<- | Hy]].
      * eapply Qle_trans; [apply Hle; now left | apply Q.le_min_l].
      * eapply Qle_trans; [apply Hle; now left | apply Q.le_min_r].
      * apply Hle. now right.
Qed.

Lemma amin_spec (a : ndarray) (v : Q) :
  amin a = Ok v -> In v (data a) /\ forall y, In y (data a) -> v <= y.
Proof.
  unfold amin. destruct (data a) as [|x xs]; [discriminate |].
  intros [= <-]. apply fold_min_spec.
Qed.

Lemma realized_wf (a u : ndarray) (n m : nat) :
  shape a = [n; m] -> shape (sum_axis1 (mul a u)) = [n] /\ wf (sum_axis1 (mul a u)).
Proof.
  intros Ha. pose proof (realized_length a u n m Ha) as Hl. split.
  - unfold sum_axis1, dim. cbn [shape mul map2]. now rewrite Ha.
  - unfold wf. rewrite Hl. unfold sum_axis1, dim. cbn [shape mul map2]. rewrite Ha.
    cbn. lia.
Qed.

(** X13.  [min_utility] is the utility of a worst-off agent: no agent has less,
    and some agent has exactly that; [total_utility] is the sum of the
    agents' realized utilities. *)
Theorem min_utility_is_least (np_log np_exp : Q -> Q) (a u w : ndarray) (tol : Q)
    (n m : nat) (r : FairnessReport) :
  analyze_fairness np_log np_exp a u w tol = Ok r ->
  shape a = [n; m] -> shape u = [n; m] -> wf a -> wf u ->
  (forall i, (i < n)%nat -> min_utility r <= own_utility a u m i)
  /\ (exists i, (i < n)%nat /\ min_utility r = own_utility a u m i)
  /\ total_utility r = sum (map (own_utility a u m) (seq 0 n)).
Proof.
  intros Hr Ha Hu Hwa Hwu.
  destruct (analyze_fairness_fields _ _ _ _ _ _ _ Hr) as (Hmin & _).
  destruct (analyze_fairness_inv _ _ _ _ _ _ _ Hr) as (_ & _ & _ & Htot & _).
  destruct (amin_spec _ _ Hmin) as [Hin Hle].
  destruct (realized_wf a u n m Ha) as [Hs Hw].
  split; [| split].
  - intros i Hi. rewrite <- (realized_item a u n m i Ha Hu Hwa Hwu Hi).
    apply Hle. apply (validation_facts.In_data_item1 _ n _ Hs Hw). eauto.
  - apply (validation_facts.In_data_item1 _ n _ Hs Hw) in Hin as (i & Hi & Hx). exists i.
    split; [exact Hi |]. now rewrite <- Hx, (realized_item a u n m i Ha Hu Hwa Hwu Hi).
  - rewrite Htot. f_equal. apply (nth_ext _ _ 0 0).
    + rewrite (realized_length a u n m Ha). now rewrite length_map, length_seq.
    + intros i Hi. rewrite (realized_length a u n m Ha) in Hi.
      change (nth i (data (sum_axis1 (mul a u))) 0) with (item1 (sum_axis1 (mul a u)) i).
      rewrite (realized_item a u n m i Ha Hu Hwa Hwu Hi).
      now rewrite nth_map_seq by exact Hi.
Qed.

Lemma min_utility_is_least_witness :
  exists r,
    analyze_fairness (fun x => x) (fun x => x)
      (mk [2%nat; 2%nat] [1; 1; 0; 0]) scenarios.U_symmetric scenarios.w_equal
      (1 # 1000000) = Ok r
    /\ exists i, (i < 2)%nat
         /\ min_utility r
            = own_utility (mk [2%nat; 2%nat] [1; 1; 0; 0]) scenarios.U_symmetric 2 i.
Proof.
  assert (E : exists r,
             analyze_fairness (fun x => x) (fun x => x)
               (mk [2%nat; 2%nat] [1; 1; 0; 0]) scenarios.U_symmetric scenarios.w_equal
               (1 # 1000000) = Ok r)
    by (eexists; vm_compute; reflexivity).
  destruct E as (r & Hr). exists r. split; [exact Hr |].
  apply (min_utility_is_least _ _ _ _ _ _ 2 2 r Hr eq_refl eq_refl eq_refl eq_refl).
Defined.

Lemma gaps_data (realized w : ndarray) (n : nat) :
  length (data realized) = n -> length (data w) = n ->
  let W := sum (data w) in
  let T := sum (data realized) in
  let gaps := sub realized (mul_scalar (div_scalar w W) T) in
  length (data gaps) = n
  /\ forall i, (i < n)%nat ->
       nth i (data gaps) 0 = item1 realized i - item1 w i / W * T.
Proof.
  intros Hrl Hwl. cbv zeta. split.
  - unfold sub, map2, mul_scalar, div_scalar, smap. cbn [data shape].
    rewrite length_zip_with_min, !length_map. lia.
  - intros i Hi. unfold item1, sub, map2, mul_scalar, div_scalar, smap. cbn [data shape].
    rewrite nth_zip_with by (rewrite ?length_map; lia).
    set (W := sum (data w)). set (T := sum (data realized)).
    rewrite (nth_indep (map (fun x => x * T) (map (fun x => x / W) (data w))) 0
               ((0 / W) * T)) by (rewrite !length_map; lia).
    now rewrite (map_nth (fun x => x * T)), (map_nth (fun x => x / W)).
Qed.

(** X14.  With entitlements that do not sum to zero, the report says
    "proportional" exactly when every agent's realized utility is at least
    its share [w_i / sum w * total_utility] less the tolerance.  The summary entry ["max_proportionality_gap"] holds the
    smallest gap, the one of the agent furthest below its share, and the
    flag says whether that gap is at least [- tolerance]. *)
Theorem proportional_flag_iff (np_log np_exp : Q -> Q) (a u w : ndarray) (tol : Q)
    (n m : nat) (r : FairnessReport) :
  analyze_fairness np_log np_exp a u w tol = Ok r ->
  shape a = [n; m] -> shape u = [n; m] -> wf a -> wf u -> shape w = [n] -> wf w ->
  ~ sum (data w) == 0 ->
  (is_proportional r = true <->
   forall i, (i < n)%nat ->
     item1 w i / sum (data w) * total_utility r - tol <= own_utility a u m i)
  /\ exists g,
       fairness_summary r !! "max_proportionality_gap" = Some (VFloat g)
       /\ (forall i, (i < n)%nat ->
             g <= own_utility a u m i - item1 w i / sum (data w) * total_utility r)
       /\ (exists i, (i < n)%nat
             /\ g = own_utility a u m i - item1 w i / sum (data w) * total_utility r)
       /\ (is_proportional r = true <-> - tol <= g).
Proof.
  intros Hr Ha Hu Hwa Hwu Hsw Hww _.
  destruct (analyze_fairness_fields _ _ _ _ _ _ _ Hr)
    as (_ & Hprop & (g & Hg & Hsum) & _).
  destruct (analyze_fairness_inv _ _ _ _ _ _ _ Hr) as (_ & _ & _ & Htot & _).
  pose proof (realized_length a u n m Ha) as Hrl.
  pose proof (wf_vector_length w n Hsw Hww) as Hwl.
  destruct (gaps_data _ w n Hrl Hwl) as [Hlen Hnth].
  rewrite <- Htot in Hprop, Hg, Hlen, Hnth.
  set (gaps := sub _ _) in *.
  assert (Hcell : forall i, (i < n)%nat ->
            nth i (data gaps) 0
            = own_utility a u m i - item1 w i / sum (data w) * total_utility r).
  { intros i Hi. rewrite (Hnth i Hi).
    now rewrite (realized_item a u n m i Ha Hu Hwa Hwu Hi). }
  assert (Hall : is_proportional r = true <->
            forall i, (i < n)%nat -> - tol <= nth i (data gaps) 0).
  { rewrite Hprop. unfold all_ge. rewrite forallb_forall. split.
    - intros H i Hi. apply Qle_bool_iff, H, nth_In. lia.
    - intros H x Hx. destruct (In_nth _ _ 0 Hx) as (i & Hi & <-).
      apply Qle_bool_iff, H. lia. }
  destruct (amin_spec _ _ Hg) as [Hin Hle].
  split.
  - rewrite Hall. split; intros H i Hi; specialize (H i Hi).
    + rewrite (Hcell i Hi) in H. lra.
    + rewrite (Hcell i Hi). lra.
  - exists g. split; [exact Hsum |]. split; [| split].
    + intros i Hi. rewrite <- (Hcell i Hi). apply Hle, nth_In. lia.
    + destruct (In_nth _ _ 0 Hin) as (i & Hi & Hx). exists i.
      split; [lia |]. rewrite <- Hx. apply Hcell. lia.
    + rewrite Hall. split.
      * intros H. destruct (In_nth _ _ 0 Hin) as (i & Hi & <-). apply H. lia.
      * intros H i Hi. eapply Qle_trans; [exact H |]. apply Hle, nth_In. lia.
Qed.

Lemma proportional_flag_iff_witness :
  exists r g,
    analyze_fairness (fun x => x) (fun x => x)
      (mk [2%nat; 2%nat] [1 # 10; 1 # 10; 9 # 10; 9 # 10])
      (mk [2%nat; 2%nat] [10; 10; 10; 10]) scenarios.w_equal (1 # 1000000) = Ok r
    /\ fairness_summary r !! "max_proportionality_gap" = Some (VFloat g)
    /\ (is_proportional r = true <-> - (1 # 1000000) <= g).
Proof.
  assert (E : exists r,
             analyze_fairness (fun x => x) (fun x => x)
               (mk [2%nat; 2%nat] [1 # 10; 1 # 10; 9 # 10; 9 # 10])
               (mk [2%nat; 2%nat] [10; 10; 10; 10]) scenarios.w_equal (1 # 1000000) = Ok r)
    by (eexists; vm_compute; reflexivity).
  destruct E as (r & Hr).
  destruct (proportional_flag_iff _ _ _ _ _ _ 2 2 r Hr eq_refl eq_refl eq_refl eq_refl
              eq_refl eq_refl) as (_ & g & Hsum & _ & _ & Hiff).
  - discriminate.
  - exists r, g. auto.
Defined.

(** *** Envy-freeness up to one good *)

Lemma dot_insert_zero (xs ys : list Q) (j : nat) :
  dot xs (<[j := 0]> ys) == dot xs ys - nth j xs 0 * nth j ys 0.
Proof.
  unfold dot, sum. revert ys j. induction xs as [|x xs IH]; intros ys j.
  - cbn [zip_with fold_right]. destruct j; cbn [nth]; ring.
  - destruct ys as [|y ys].
    + destruct j; change (<[_ := 0]> (@nil Q)) with (@nil Q);
        cbn [zip_with fold_right nth]; ring.
    + destruct j as [|j].
      * cbn. ring.
      * change (<[S j := 0]> (y :: ys)) with (y :: <[j := 0]> ys).
        cbn [zip_with fold_right nth]. rewrite IH.
        generalize (fold_right Qplus 0 (zip_with Qmult xs ys)) (nth j xs 0 * nth j ys 0).
        intros p q. ring.
Qed.

Lemma row_nth (a : ndarray) (n m i j : nat) :
  shape a = [n; m] -> (j < m)%nat -> nth j (row a i) 0 = item2 a i j.
Proof.
  intros Ha Hj. unfold row, dim. rewrite Ha. cbn [nth]. now rewrite nth_map_seq.
Qed.

(** X15.  [check_ef1] answers [True] exactly when, for every ordered pair of
    distinct agents [(i, k)], either [i] does not envy [k] by more than the
    tolerance, or some good [j] of which [k] holds more than the tolerance
    can be taken out of [k]'s bundle so that the envy falls to the tolerance
    or below. *)
Theorem check_ef1_true_iff (a u : ndarray) (tol : Q) (n m : nat) :
  shape a = [n; m] -> shape u = [n; m] -> wf a -> wf u ->
  check_ef1 a u tol = Ok true <->
  forall i k, (i < n)%nat -> (k < n)%nat -> i <> k ->
    bundle_value a u m i k - own_utility a u m i <= tol
    \/ exists j, (j < m)%nat /\ tol < item2 a k j
         /\ bundle_value a u m i k - item2 u i j * item2 a k j - own_utility a u m i
            <= tol.
Proof.
  intros Ha Hu Hwa Hwu. unfold check_ef1. rewrite Ha. cbn [unpack2 rbind].
  assert (Hreduced : forall i k j, (i < n)%nat -> (j < m)%nat ->
            dot (row u i) (<[j := 0]> (row a k)) - item1 (sum_axis1 (mul a u)) i
            == bundle_value a u m i k - item2 u i j * item2 a k j - own_utility a u m i).
  { intros i k j Hi Hj. rewrite dot_insert_zero, (dot_rows a u n m i k Ha Hu).
    rewrite (row_nth u n m i j Hu Hj), (row_nth a n m k j Ha Hj).
    rewrite (realized_item a u n m i Ha Hu Hwa Hwu Hi). reflexivity. }
  split.
  - intros [= H] i k Hi Hk Hne.
    rewrite forallb_forall in H.
    assert (Hi' : In i (seq 0 n)) by (apply in_seq; lia).
    assert (Hk' : In k (seq 0 n)) by (apply in_seq; lia).
    specialize (H i Hi'). rewrite forallb_forall in H. specialize (H k Hk').
    replace (i =? k)%nat with false in H by (symmetry; now apply Nat.eqb_neq).
    rewrite (dot_rows a u n m i k Ha Hu) in H.
    rewrite (realized_item a u n m i Ha Hu Hwa Hwu Hi) in H.
    destruct (Qle_bool (bundle_value a u m i k - own_utility a u m i) tol) eqn:E.
    + left. now apply Qle_bool_iff.
    + right. apply existsb_exists in H as (j & Hj & Hgood). apply in_seq in Hj.
      apply andb_true_iff in Hgood as [H1 H2]. apply Qltb_lt in H1.
      apply Qle_bool_iff in H2.
      rewrite <- (realized_item a u n m i Ha Hu Hwa Hwu Hi) in H2.
      rewrite (Hreduced i k j Hi ltac:(lia)) in H2.
      rewrite (row_nth a n m k j Ha ltac:(lia)) in H1.
      exists j. repeat split; [lia | exact H1 | exact H2].
  - intros H. f_equal. apply forallb_forall. intros i Hi. apply forallb_forall.
    intros k Hk. apply in_seq in Hi, Hk.
    destruct (i =? k)%nat eqn:Eik; [reflexivity |]. apply Nat.eqb_neq in Eik.
    assert (Hi' : (i < n)%nat) by lia.
    rewrite (dot_rows a u n m i k Ha Hu).
    rewrite (realized_item a u n m i Ha Hu Hwa Hwu Hi').
    destruct (Qle_bool (bundle_value a u m i k - own_utility a u m i) tol) eqn:E;
      [reflexivity |].
    destruct (H i k Hi' ltac:(lia) Eik) as [Hle | (j & Hj & H1 & H2)].
    + apply Qle_bool_iff in Hle. congruence.
    + apply existsb_exists. exists j. split; [apply in_seq; lia |].
      apply andb_true_iff. split.
      * apply Qltb_lt. now rewrite (row_nth a n m k j Ha Hj).
      * apply Qle_bool_iff.
        rewrite <- (realized_item a u n m i Ha Hu Hwa Hwu Hi').
        now rewrite (Hreduced i k j Hi' Hj).
Qed.

Lemma check_ef1_true_iff_witness :
  check_ef1 (mk [2%nat; 2%nat] [1; 0; 0; 1]) scenarios.U_symmetric (1 # 1000000) = Ok true.
Proof.
  apply (check_ef1_true_iff _ _ _ 2 2); try reflexivity.
  intros [|[|i]] [|[|k]] Hi Hk Hne; try lia; left; intros HH; vm_compute in HH;
    discriminate HH.
Defined.

(** *** Symmetric agents *)

Lemma zip_maps {A} (g h : A -> Q) (l : list A) :
  zip (map g l) (map h l) = map (fun x => (g x, h x)) l.
Proof. induction l as [|x l IH]; simpl; [reflexivity | now rewrite IH]. Qed.

Lemma allclose_rows_intro (u : ndarray) (n m i k : nat) (tol : Q) :
  shape u = [n; m] ->
  (forall j, (j < m)%nat ->
     Qabs (item2 u i j - item2 u k j) <= tol + rtol * Qabs (item2 u k j)) ->
  allclose (row u i) (row u k) tol = true.
Proof.
  intros Hu H. unfold allclose, row, dim. rewrite Hu. cbn [nth].
  rewrite zip_maps, forallb_forall.
  intros p Hp. apply in_map_iff in Hp as (j & <- & Hj). apply in_seq in Hj.
  cbn [fst snd]. apply isclose_intro, H. lia.
Qed.

Lemma allclose_rows (u : ndarray) (n m i k : nat) (tol : Q) :
  shape u = [n; m] -> 0 <= tol ->
  allclose (row u i) (row u k) tol = true <->
  forall j, (j < m)%nat ->
    Qabs (item2 u i j - item2 u k j) <= tol + rtol * Qabs (item2 u k j).
Proof.
  intros Hu Htol. split; [| apply (allclose_rows_intro u n m i k tol Hu)].
  unfold allclose, row, dim. rewrite Hu. cbn [nth].
  rewrite zip_maps, forallb_forall.
  intros H j Hj.
  assert (Hnn : 0 <= tol + rtol * Qabs (item2 u k j)).
  { assert (0 <= rtol * Qabs (item2 u k j))
      by (apply Qmult_le_0_compat; [discriminate | apply Qabs_nonneg]).
    lra. }
  apply (isclose_true _ _ _ Hnn).
  apply (H (item2 u i j, item2 u k j)). apply in_map_iff. exists j.
  split; [reflexivity | apply in_seq; lia].
Qed.

Lemma concat_repeat_nth (xs : list Q) (n m i j : nat) :
  length xs = m -> (i < n)%nat -> (j < m)%nat ->
  nth (i * m + j) (concat (repeat xs n)) 0 = nth j xs 0.
Proof.
  intros Hl. revert i. induction n as [|n IH]; intros i Hi Hj; [lia |].
  cbn [repeat concat]. destruct i as [|i].
  - rewrite app_nth1 by lia. reflexivity.
  - rewrite app_nth2 by (rewrite Hl; lia).
    replace (S i * m + j - length xs)%nat with (i * m + j)%nat by (rewrite Hl; lia).
    apply IH; lia.
Qed.

Lemma concat_repeat_length (xs : list Q) (n : nat) :
  length (concat (repeat xs n)) = (n * length xs)%nat.
Proof.
  induction n as [|n IH]; [reflexivity |]. cbn [repeat concat].
  rewrite length_app, IH. lia.
Qed.

(** X16.  [generate_symmetric_utilities] gives every agent the same row, and with
    equal entitlements (and a tolerance [>= 0]) [_check_symmetric_instance]
    recognises the instance as symmetric. *)
Theorem generated_instance_is_symmetric (n m : nat) (v w : ndarray) (tol : Q) :
  shape v = [m] -> wf v -> shape w = [n] -> wf w -> (1 <= n)%nat -> 0 <= tol ->
  (forall i, (i < n)%nat -> item1 w i = item1 w 0) ->
  let U := utils.generate_symmetric_utilities n v in
  shape U = [n; m] /\ wf U
  /\ (forall i j, (i < n)%nat -> (j < m)%nat -> item2 U i j = item1 v j)
  /\ _check_symmetric_instance U w tol = Ok true.
Proof.
  intros Hv Hwv Hw Hww Hn Htol Heq U.
  pose proof (wf_vector_length v m Hv Hwv) as Hvl.
  pose proof (wf_vector_length w n Hw Hww) as Hwl.
  assert (HU : shape U = [n; m]).
  { unfold U, utils.generate_symmetric_utilities, dim. cbn [shape]. now rewrite Hv. }
  assert (Hitem : forall i j, (i < n)%nat -> (j < m)%nat -> item2 U i j = item1 v j).
  { intros i j Hi Hj. unfold item2, dim. rewrite HU. cbn [nth].
    unfold U, utils.generate_symmetric_utilities. cbn [data].
    now apply concat_repeat_nth. }
  split; [exact HU |]. split; [| split; [exact Hitem |]].
  - unfold wf. rewrite HU. unfold U, utils.generate_symmetric_utilities. cbn [data].
    rewrite concat_repeat_length, Hvl. cbn. lia.
  - unfold _check_symmetric_instance, dim at 1. rewrite HU. cbn [nth].
    assert (Hrows : forallb (fun i => allclose (row U i) (row U 0) tol)
                      (seq 1 (n - 1)) = true).
    { apply forallb_forall. intros i Hi. apply in_seq in Hi.
      apply (allclose_rows_intro U n m i 0 tol HU). intros j Hj.
      rewrite (Hitem i j) by lia. rewrite (Hitem 0%nat j) by lia.
      assert (H0 : item1 v j - item1 v j == 0) by ring. rewrite H0.
      assert (0 <= rtol * Qabs (item1 v j)).
      { apply Qmult_le_0_compat; [discriminate | apply Qabs_nonneg]. }
      change (Qabs 0) with 0. lra. }
    rewrite Hrows. cbn [negb].
    destruct (data w) as [|e0 ws] eqn:Ew; [simpl in Hwl; lia |].
    f_equal. unfold allclose_scalar. apply forallb_forall. intros x Hx.
    apply isclose_intro.
    destruct (In_nth _ _ 0 Hx) as (i & Hi & <-). rewrite <- Ew.
    change (nth i (data w) 0) with (item1 w i). rewrite Heq by lia.
    unfold item1. rewrite Ew. cbn [nth].
    assert (H0 : e0 - e0 == 0) by ring. rewrite H0.
    assert (0 <= rtol * Qabs e0).
    { apply Qmult_le_0_compat; [discriminate | apply Qabs_nonneg]. }
    change (Qabs 0) with 0. lra.
Qed.

Lemma generated_instance_is_symmetric_witness :
  _check_symmetric_instance
    (utils.generate_symmetric_utilities 3 (mk [2%nat] [10; 5]))
    (mk [3%nat] [2; 2; 2]) (1 # 1000000) = Ok true.
Proof.
  apply (generated_instance_is_symmetric 3 2 (mk [2%nat] [10; 5]) (mk [3%nat] [2; 2; 2]));
    try reflexivity; try lia; try discriminate.
  intros [|[|[|i]]] Hi; try lia; reflexivity.
Defined.

(** X17.  The report says "symmetric allocation" exactly when any two agents
    whose utility rows agree within the tolerances of [np.allclose] and
    whose entitlements differ by at most [tolerance] have realized utilities
    that differ by at most [tolerance]. *)
Theorem symmetric_allocation_iff (np_log np_exp : Q -> Q) (a u w : ndarray) (tol : Q)
    (n m : nat) (r : FairnessReport) :
  analyze_fairness np_log np_exp a u w tol = Ok r ->
  shape a = [n; m] -> shape u = [n; m] -> wf a -> wf u ->
  is_symmetric_allocation r = true <->
  forall i k, (i < k)%nat -> (k < n)%nat ->
    (forall j, (j < m)%nat ->
       Qabs (item2 u i j - item2 u k j) <= tol + rtol * Qabs (item2 u k j)) ->
    Qabs (item1 w i - item1 w k) <= tol ->
    Qabs (own_utility a u m i - own_utility a u m k) <= tol.
Proof.
  intros Hr Ha Hu Hwa Hwu.
  destruct (analyze_fairness_fields _ _ _ _ _ _ _ Hr) as (_ & _ & _ & _ & _ & Hsym).
  rewrite Hsym. unfold _check_symmetric_allocation, dim. rewrite Hu. cbn [nth].
  rewrite forallb_forall. split.
  - intros H i k Hik Hk Hrows Hent.
    assert (Hi' : In i (seq 0 n)) by (apply in_seq; lia).
    assert (Hk' : In k (seq (i + 1) (n - (i + 1)))) by (apply in_seq; lia).
    specialize (H i Hi'). rewrite forallb_forall in H. specialize (H k Hk').
    apply (allclose_rows_intro u n m i k tol Hu) in Hrows. apply Qle_bool_iff in Hent.
    rewrite Hrows, Hent in H. cbn [andb] in H.
    apply negb_true_iff, Qltb_ge in H.
    now rewrite !(realized_item a u n m _ Ha Hu Hwa Hwu) in H by lia.
  - intros H i Hi. apply forallb_forall. intros k Hk. apply in_seq in Hi, Hk.
    destruct (allclose (row u i) (row u k) tol) eqn:Erows; [| reflexivity].
    destruct (Qle_bool (Qabs (item1 w i - item1 w k)) tol) eqn:Eent; [| reflexivity].
    cbn [andb]. apply negb_true_iff, Qltb_ge.
    rewrite !(realized_item a u n m _ Ha Hu Hwa Hwu) by lia.
    apply Qle_bool_iff in Eent.
    assert (Htol : 0 <= tol)
      by (eapply Qle_trans; [apply Qabs_nonneg | exact Eent]).
    apply H; [lia | lia | | exact Eent].
    now apply (allclose_rows u n m i k tol Hu Htol).
Qed.

Lemma symmetric_allocation_iff_witness :
  exists r,
    analyze_fairness (fun x => x) (fun x => x)
      (mk [2%nat; 2%nat] [1; 1; 0; 0]) (mk [2%nat; 2%nat] [10; 10; 10; 10])
      scenarios.w_equal (1 # 1000000) = Ok r
    /\ is_symmetric_allocation r = false.
Proof.
  assert (E : exists r,
             analyze_fairness (fun x => x) (fun x => x)
               (mk [2%nat; 2%nat] [1; 1; 0; 0]) (mk [2%nat; 2%nat] [10; 10; 10; 10])
               scenarios.w_equal (1 # 1000000) = Ok r)
    by (eexists; vm_compute; reflexivity).
  destruct E as (r & Hr). exists r. split; [exact Hr |].
  apply not_true_is_false. intros Hflag.
  pose proof (proj1 (symmetric_allocation_iff _ _ _ _ _ _ 2 2 r Hr eq_refl eq_refl
                       eq_refl eq_refl) Hflag 0%nat 1%nat) as H.
  assert (Hbad : Qabs (20 - 0) <= 1 # 1000000).
  { apply H; try lia.
    - intros [|[|j]] Hj; try lia; discriminate.
    - discriminate. }
  vm_compute in Hbad. apply Hbad. reflexivity.
Defined.

(** *** Envy-freeness and EF1 *)

(** X20.  An allocation that the report calls envy-free passes [check_ef1] at
    the same tolerance. *)
Theorem envy_free_report_implies_ef1 (np_log np_exp : Q -> Q) (a u w : ndarray) (tol : Q)
    (n m : nat) (r : FairnessReport) :
  analyze_fairness np_log np_exp a u w tol = Ok r ->
  shape a = [n; m] -> shape u = [n; m] -> is_envy_free r = true ->
  check_ef1 a u tol = Ok true.
Proof.
  intros Hr Ha Hu Hfree.
  pose proof (report_has_agent _ _ _ _ _ _ n m r Hr Ha) as Hn.
  destruct (analyze_fairness_inv _ _ _ _ _ _ _ Hr) as (_ & Henvy & _).
  pose proof (realized_length a u n m Ha) as Hlen.
  destruct (analyze_envy_spec a u _ tol n m Ha Hu Hlen Hn)
    as (E & mx & ef & ps & HE & Hs & Hw & He & Hmax & Hef).
  rewrite HE in Henvy. injection Henvy as _ _ Hflag _.
  rewrite <- Hflag, Hef in Hfree. apply Qle_bool_iff in Hfree.
  destruct (amax_spec E mx Hmax) as [_ Hle].
  unfold check_ef1. rewrite Ha. cbn [unpack2 rbind]. f_equal.
  apply forallb_forall. intros i Hi. apply forallb_forall. intros k Hk.
  apply in_seq in Hi, Hk.
  destruct (i =? k)%nat eqn:Eik; [reflexivity |].
  assert (Hcell : item2 E i k <= mx)
    by (apply Hle; apply (In_data_item2 E n n _ Hs Hw); exists i, k; repeat split; lia).
  rewrite (He i k) in Hcell by lia. rewrite Eik in Hcell.
  rewrite (dot_rows a u n m i k Ha Hu).
  rewrite max2_Qmax in Hcell.
  pose proof (Q.le_max_r 0 (bundle_value a u m i k - item1 (sum_axis1 (mul a u)) i)).
  replace (Qle_bool (bundle_value a u m i k - item1 (sum_axis1 (mul a u)) i) tol)
    with true; [reflexivity |].
  symmetry. apply Qle_bool_iff. lra.
Qed.

Lemma envy_free_report_implies_ef1_witness :
  check_ef1 (mk [2%nat; 2%nat] [1 # 2; 1 # 2; 1 # 2; 1 # 2]) scenarios.U_symmetric
    (1 # 1000000) = Ok true.
Proof.
  assert (E : exists r,
             analyze_fairness (fun x => x) (fun x => x)
               (mk [2%nat; 2%nat] [1 # 2; 1 # 2; 1 # 2; 1 # 2]) scenarios.U_symmetric
               scenarios.w_equal (1 # 1000000) = Ok r /\ is_envy_free r = true)
    by (eexists; split; [vm_compute; reflexivity | reflexivity]).
  destruct E as (r & Hr & Hfree).
  apply (envy_free_report_implies_ef1 _ _ _ _ _ _ 2 2 r Hr eq_refl eq_refl Hfree).
Defined.

End diagnostics_extras.

(** ** More on [normalize_allocation] *)

Module utils_extras.
Import py np models utils contracts np_facts utils_facts.

Lemma normalize_allocation_run (h : heap) (allocation : loc) (a : ndarray) (tol : Q)
    (n m : nat) :
  h !! allocation = Some a -> shape a = [n; m] -> wf a -> (1 <= n)%nat -> 0 <= tol ->
  exists h' b,
    normalize_allocation allocation tol h = Ok (length h, h')
    /\ length h' = S (length h)
    /\ (forall x, (x < length h)%nat -> h' !! x = h !! x)
    /\ h' !! length h = Some b
    /\ shape b = [n; m] /\ wf b
    /\ (forall j, (j < m)%nat -> Qabs (sum (col b j) - 1) <= tol)
    /\ (forall i j, (i < n)%nat -> (j < m)%nat ->
          item2 b i j = normalized_cell a tol n i j).
Proof.
  intros Hl Ha Hwa Hn Htol. unfold normalize_allocation, copy.
  rewrite (deref_some h allocation a Hl).
  assert (Hnew : (h ++ [a]) !! length h = Some a) by apply list_lookup_middle, eq_refl.
  rewrite (deref_some _ _ a Hnew), Ha.
  destruct (normalize_columns_spec (length h) tol n m a Ha Hn m 0%nat (h ++ [a]) a
              eq_refl Hnew Ha Hwa)
    as (h' & b & -> & Hb & Hlen & Hoth & Hsb & Hwb & Hcells).
  { intros i j _ _. reflexivity. }
  cbn [rbind]. exists h', b. split; [reflexivity |].
  split; [rewrite Hlen, length_app; cbn; lia |]. split.
  { intros x Hx. rewrite (Hoth x) by lia. now apply lookup_app_l. }
  split; [exact Hb |]. split; [exact Hsb |]. split; [exact Hwb |].
  split; [| exact Hcells]. intros j Hj.
  assert (Hcol : col b j = map (fun i => normalized_cell a tol n i j) (seq 0 n)).
  { unfold col, dim. rewrite Hsb. cbn [nth]. apply map_ext_in.
    intros i Hi. apply in_seq in Hi. apply Hcells; lia. }
  rewrite Hcol. apply normalized_column_sum; auto. unfold dim. now rewrite Ha.
Qed.

(** X22.  With no agent and at least one good, and a tolerance in [[0, 1)], the
    first column sums to [0] and the uniform share [1.0 / n_agents] divides
    by zero: [normalize_allocation] raises [ZeroDivisionError]. *)
Theorem normalize_allocation_no_agent (h : heap) (allocation : loc) (a : ndarray)
    (tol : Q) (m : nat) :
  h !! allocation = Some a -> shape a = [0%nat; S m] -> 0 <= tol -> tol < 1 ->
  exists msg, normalize_allocation allocation tol h = Raise (ZeroDivisionError msg).
Proof.
  intros Hl Ha Htol Htol1. eexists. unfold normalize_allocation, copy.
  rewrite (deref_some h allocation a Hl).
  assert (Hnew : (h ++ [a]) !! length h = Some a) by apply list_lookup_middle, eq_refl.
  rewrite (deref_some _ _ a Hnew), Ha.
  cbn [seq normalize_columns]. unfold normalize_column.
  rewrite (deref_some _ _ a Hnew).
  assert (Hcol : col a 0 = []) by (unfold col, dim; rewrite Ha; reflexivity).
  rewrite Hcol. change (sum []) with 0.
  replace (Qltb tol (Qabs (0 - 1))) with true
    by (symmetry; apply Qltb_lt; change (Qabs (0 - 1)) with 1; exact Htol1).
  replace (Qltb tol 0) with false by (symmetry; apply Qltb_ge; exact Htol).
  reflexivity.
Qed.

Lemma normalize_allocation_no_agent_witness :
  exists msg,
    normalize_allocation 0%nat (1 # 1000000000) [mk [0%nat; 2%nat] []]
    = Raise (ZeroDivisionError msg).
Proof.
  apply (normalize_allocation_no_agent _ _ (mk [0%nat; 2%nat] []) _ 1);
    [reflexivity | reflexivity | discriminate | reflexivity].
Defined.

(** X23.  A matrix without negative entries, once normalized with a tolerance of
    at most [1.1e-5], passes the validation of [AllocationResult]: the
    constructor returns the record instead of raising. *)
Theorem normalized_allocation_accepted (h : heap) (allocation : loc) (a u : ndarray)
    (tol ov t : Q) (st : string) (md : gmap string pyval) (n m : nat) :
  h !! allocation = Some a -> shape a = [n; m] -> wf a -> (1 <= n)%nat ->
  0 <= tol -> tol <= 11 # 1000000 ->
  (forall i j, (i < n)%nat -> (j < m)%nat -> 0 <= item2 a i j) ->
  shape u = [n] ->
  exists h' b,
    normalize_allocation allocation tol h = Ok (length h, h')
    /\ h' !! length h = Some b
    /\ new_AllocationResult b u ov st t md = Ok (Build_AllocationResult b u ov st t md).
Proof.
  intros Hl Ha Hwa Hn Htol Htol' Hpos Hu.
  destruct (normalize_allocation_run h allocation a tol n m Hl Ha Hwa Hn Htol)
    as (h' & b & Hrun & _ & _ & Hb & Hsb & Hwb & Hsum & Hcells).
  exists h', b. split; [exact Hrun |]. split; [exact Hb |].
  unfold new_AllocationResult.
  rewrite (models_facts.post_init_cases (Build_AllocationResult b u ov st t md) n m Hsb).
  cbn [models.allocation models.utilities].
  assert (Hneg : any_lt b (- (1 # 1000000000)) = false).
  { apply not_true_is_false. intros H.
    apply (any_lt_spec b n m _ Hsb Hwb) in H as (i & j & Hi & Hj & Hlt).
    rewrite (Hcells i j Hi Hj) in Hlt. unfold normalized_cell in Hlt.
    pose proof (Hpos i j Hi Hj) as H0.
    assert (Hbad : - (1 # 1000000000) < 0) by reflexivity.
    destruct (Qltb tol (Qabs (sum (col a j) - 1))); [| lra].
    destruct (Qltb tol (sum (col a j))) eqn:E2.
    - apply Qltb_lt in E2.
      assert (0 <= item2 a i j / sum (col a j))
        by (apply Qle_shift_div_l; lra).
      lra.
    - assert (0 <= 1 / inject_Z (Z.of_nat n)).
      { apply Qle_shift_div_l; [| lra]. change 0 with (inject_Z 0).
        rewrite <- Zlt_Qlt. lia. }
      lra. }
  rewrite Hneg.
  assert (Hclose : allclose_scalar (data (sum_axis0 b)) 1 (1 # 1000000) = true).
  { apply not_false_is_true. intros H.
    apply (models_facts.column_check_false b n m Hsb) in H as (j & Hj & Hlt).
    specialize (Hsum j Hj). lra. }
  rewrite Hclose. cbn [negb]. unfold shape_eqb. rewrite Hu.
  rewrite bool_decide_eq_true_2 by reflexivity. reflexivity.
Qed.

Lemma normalized_allocation_accepted_witness :
  let a := mk [2%nat; 3%nat] [1; 0; 3; 1; 0; 1] in
  exists h' b,
    normalize_allocation 0%nat (1 # 1000000000) [a] = Ok (1%nat, h')
    /\ h' !! 1%nat = Some b
    /\ new_AllocationResult b (mk [2%nat] [0; 0]) 0 "feasible" 0 ∅
       = Ok (Build_AllocationResult b (mk [2%nat] [0; 0]) 0 "feasible" 0 ∅).
Proof.
  intros a.
  apply (normalized_allocation_accepted [a] 0%nat a (mk [2%nat] [0; 0])
           (1 # 1000000000) 0 0 "feasible" ∅ 2 3); try reflexivity; try discriminate.
  - lia.
  - intros [|[|i]] [|[|[|j]]] Hi Hj; try lia; discriminate.
Defined.

End utils_extras.

(** ** More on the platform's [MaxMinSolver] *)

Module platform_extras.
Import py np_facts app_algorithms_maxmin contracts platform_facts.

Lemma index_raise (xs : list Z) (x : Z) (e : exn) :
  index xs x = Raise e -> e = ValueError [FInt x; Lit " is not in list"] /\ ~ In x xs.
Proof.
  induction xs as [|y ys IH]; simpl.
  - intros [= <-]. split; [reflexivity | intros []].
  - destruct (y =? x)%Z eqn:E; [discriminate |].
    destruct (index ys x) as [k | e'] eqn:Ei; simpl; [discriminate |].
    intros [= <-]. destruct (IH eq_refl) as [-> Hnot]. split; [reflexivity |].
    intros [-> | Hin]; [rewrite Z.eqb_refl in E; discriminate | exact (Hnot Hin)].
Qed.

Lemma index_in (xs : list Z) (x : Z) (i : nat) : index xs x = Ok i -> In x xs.
Proof.
  intros H. apply index_lookup in H. apply list_elem_of_In. eapply list_elem_of_lookup_2.
  exact H.
Qed.

Lemma handle_restrictions_unknown (self : MaxMinSolver) (items : list (Z * Z * bool)) :
  (exists a g, In (a, g, false) items /\ (~ In a (agents self) \/ ~ In g (goods self))) ->
  forall bs, exists x,
    handle_restrictions self items bs = Raise (ValueError [FInt x; Lit " is not in list"])
    /\ (~ In x (agents self) \/ ~ In x (goods self)).
Proof.
  induction items as [|[[a0 g0] allowed] items IH]; intros (a & g & Hin & Hbad) bs.
  - destruct Hin.
  - simpl. destruct allowed; cbn [negb].
    + apply IH. exists a, g. split; [| exact Hbad].
      destruct Hin as [[=] | Hin]; exact Hin.
    + destruct (index (agents self) a0) as [i0 | e] eqn:Ei0; cbn [rbind].
      2:{ apply index_raise in Ei0 as [-> Hnot]. exists a0. auto. }
      destruct (index (goods self) g0) as [j0 | e] eqn:Ej0; cbn [rbind].
      2:{ apply index_raise in Ej0 as [-> Hnot]. exists g0. auto. }
      apply IH. exists a, g. split; [| exact Hbad].
      destruct Hin as [[= -> ->] | Hin]; [| exact Hin].
      apply index_in in Ei0, Ej0. tauto.
Qed.

(** X24.  A forbidden restriction that names an agent or a good the solver does
    not know stops [solve] with the [ValueError] of [list.index], before
    [linprog] is called. *)
Theorem unknown_restriction_raises (agents goods : list Z)
    (utilities : gmap (Z * Z) Q) (entitlements good_values : gmap Z Q) (budget : Q)
    (restrictions : list (Z * Z * bool)) (a g : Z) :
  let self := __init__ agents goods utilities entitlements good_values budget
                (Some restrictions) in
  In (a, g, false) restrictions -> ~ In a agents \/ ~ In g goods ->
  exists x,
    solve self = Throw (ValueError [FInt x; Lit " is not in list"])
    /\ (~ In x agents \/ ~ In x goods).
Proof.
  intros self Hin Hbad.
  destruct (handle_restrictions_unknown self restrictions
              ltac:(exists a, g; split; [exact Hin | exact Hbad])
              (repeat (0, None) (n_vars self))) as (x & Ex & Hx).
  exists x. split; [| exact Hx]. unfold solve.
  change (build_bounds self) with
    (handle_restrictions self restrictions (repeat (0, None) (n_vars self))).
  rewrite Ex. reflexivity.
Qed.

Lemma unknown_restriction_raises_witness :
  exists x,
    solve (__init__ [7; 9]%Z [3; 4]%Z ∅ ∅ ∅ 100 (Some [((7, 4)%Z, true); ((8, 3)%Z, false)]))
    = Throw (ValueError [FInt x; Lit " is not in list"]).
Proof.
  destruct (unknown_restriction_raises [7; 9]%Z [3; 4]%Z ∅ ∅ ∅ 100
              [((7, 4)%Z, true); ((8, 3)%Z, false)] 8%Z 3%Z) as (x & Hx & _).
  - right. now left.
  - left. intros [H | [H | []]]; discriminate H.
  - exists x. exact Hx.
Defined.

(** What the loop over the restrictions does to the bounds, and nothing
    else: a cell of the result either is the one it was, or is [(0, 0)] at
    the index of a forbidden pair. *)
Lemma handle_restrictions_only (self : MaxMinSolver) (items : list (Z * Z * bool)) :
  forall bs bs', handle_restrictions self items bs = Ok bs' ->
  forall idx, bs' !! idx = bs !! idx
    \/ (bs' !! idx = Some (0, Some 0)
        /\ exists a g i j, In (a, g, false) items
             /\ index (agents self) a = Ok i /\ index (goods self) g = Ok j
             /\ idx = (i * n_goods self + j)%nat).
Proof.
  induction items as [|[[a0 g0] allowed] items IH]; intros bs bs' H idx.
  - simpl in H. injection H as <-. now left.
  - simpl in H. destruct allowed; cbn [negb] in H.
    + destruct (IH bs bs' H idx) as [Hsame | (Hz & a & g & i & j & Hin & Hrest)].
      * now left.
      * right. split; [exact Hz |]. exists a, g, i, j. split; [now right | exact Hrest].
    + destruct (index (agents self) a0) as [i0 | e] eqn:Ei0; cbn [rbind] in H;
        [| discriminate].
      destruct (index (goods self) g0) as [j0 | e] eqn:Ej0; cbn [rbind] in H;
        [| discriminate].
      destruct (IH _ bs' H idx) as [Hsame | (Hz & a & g & i & j & Hin & Hrest)].
      * destruct (decide (idx = (i0 * n_goods self + j0)%nat)) as [-> | Hne].
        -- destruct (decide (i0 * n_goods self + j0 < length bs)%nat) as [Hlt | Hge].
           ++ right. rewrite list_lookup_insert_eq in Hsame by exact Hlt.
              split; [exact Hsame |]. exists a0, g0, i0, j0.
              split; [now left |]. auto.
           ++ left. rewrite Hsame, list_insert_ge by lia. reflexivity.
        -- left. rewrite Hsame. apply list_lookup_insert_ne. congruence.
      * right. split; [exact Hz |]. exists a, g, i, j. split; [now right | exact Hrest].
Qed.

Lemma lookup_repeat_lt {A} (x : A) (n i : nat) : (i < n)%nat -> repeat x n !! i = Some x.
Proof.
  revert i. induction n as [|n IH]; intros i Hi; [lia |].
  destruct i as [|i]; [reflexivity |]. cbn. apply IH. lia.
Qed.

(** X25.  The bounds handed to [linprog]: one pair per variable, [(0, 0)] exactly
    at the indices [i * n_goods + j] of the pairs mapped to [False], and
    [(0, None)] everywhere else; pairs mapped to [True] change nothing, and
    the variable [t] is never bounded above. *)
Theorem bounds_exactly_forbidden (agents goods : list Z)
    (utilities : gmap (Z * Z) Q) (entitlements good_values : gmap Z Q) (budget : Q)
    (restrictions : list (Z * Z * bool)) :
  let self := __init__ agents goods utilities entitlements good_values budget
                (Some restrictions) in
  (forall a g, In (a, g, false) restrictions -> In a agents /\ In g goods) ->
  exists bounds,
    build_bounds self = Ok bounds
    /\ length bounds = (length agents * length goods + 1)%nat
    /\ (forall idx, (idx < length agents * length goods + 1)%nat ->
          bounds !! idx = Some (0, Some 0) \/ bounds !! idx = Some (0, None))
    /\ (forall idx,
          bounds !! idx = Some (0, Some 0) <->
          exists a g i j, In (a, g, false) restrictions
            /\ index agents a = Ok i /\ index goods g = Ok j
            /\ idx = (i * length goods + j)%nat)
    /\ bounds !! (length agents * length goods)%nat = Some (0, None).
Proof.
  intros self Hknown.
  destruct (handle_restrictions_spec self restrictions Hknown
              (repeat (0, None) (n_vars self))) as (bounds & Eb & Hlen & _ & Hset).
  pose proof (handle_restrictions_only self restrictions _ _ Eb) as Honly.
  rewrite repeat_length in Hlen.
  change (n_vars self) with (length agents * length goods + 1)%nat in *.
  change (n_goods self) with (length goods) in *.
  change (app_algorithms_maxmin.agents self) with agents in *.
  change (app_algorithms_maxmin.goods self) with goods in *.
  assert (Hinit : forall idx, (idx < length agents * length goods + 1)%nat ->
            repeat (0, None) (length agents * length goods + 1) !! idx
            = Some ((0, None) : Q * option Q))
    by (intros idx Hidx; now apply lookup_repeat_lt).
  assert (Hiff : forall idx,
            bounds !! idx = Some (0, Some 0) <->
            exists a g i j, In (a, g, false) restrictions
              /\ index agents a = Ok i /\ index goods g = Ok j
              /\ idx = (i * length goods + j)%nat).
  { intros idx. split.
    - intros Hz. destruct (Honly idx) as [Hsame | (_ & Hex)]; [| exact Hex].
      exfalso. rewrite Hz in Hsame.
      destruct (decide (idx < length agents * length goods + 1)%nat) as [Hlt | Hge].
      + rewrite (Hinit idx Hlt) in Hsame. discriminate.
      + symmetry in Hsame. apply lookup_lt_Some in Hsame.
        rewrite repeat_length in Hsame. lia.
    - intros (a & g & i & j & Hin & Ei & Ej & ->).
      apply (Hset a g i j Hin Ei Ej). rewrite repeat_length.
      apply index_bound in Ei, Ej. nia. }
  exists bounds. split; [exact Eb |]. split; [exact Hlen |].
  split; [| split; [exact Hiff |]].
  - intros idx Hidx. destruct (Honly idx) as [Hsame | (Hz & _)]; [right | now left].
    now rewrite Hsame, (Hinit idx Hidx).
  - destruct (Honly (length agents * length goods)%nat)
      as [Hsame | (_ & a & g & i & j & _ & Ei & Ej & Hidx)].
    + rewrite Hsame. apply Hinit. lia.
    + exfalso. apply index_bound in Ei, Ej. nia.
Qed.

Lemma bounds_exactly_forbidden_witness :
  exists bounds,
    build_bounds (__init__ [7; 9]%Z [3; 4]%Z ∅ ∅ ∅ 100
                    (Some [((7, 4)%Z, false); ((9, 3)%Z, true)])) = Ok bounds
    /\ bounds !! 4%nat = Some (0, None).
Proof.
  destruct (bounds_exactly_forbidden [7; 9]%Z [3; 4]%Z ∅ ∅ ∅ 100
              [((7, 4)%Z, false); ((9, 3)%Z, true)])
    as (bounds & Hb & _ & _ & _ & Hlast).
  - intros a' g' [[= <- <-] | [[=] | []]]. split; simpl; auto.
  - exists bounds. split; [exact Hb | exact Hlast].
Defined.

(** *** The allocations read from the engine's point *)

Lemma enumerate_from_in {A} (xs : list A) (k i : nat) (y : A) :
  xs !! i = Some y -> In ((k + i)%nat, y) (zip (seq k (length xs)) xs).
Proof.
  revert k i. induction xs as [|x xs IH]; intros k i; [discriminate |].
  destruct i as [|i]; simpl.
  - intros [= <-]. left. f_equal. lia.
  - intros H. right. replace (k + S i)%nat with (S k + i)%nat by lia. now apply IH.
Qed.

Lemma enumerate_in {A} (xs : list A) (i : nat) (y : A) :
  xs !! i = Some y -> In (i, y) (enumerate xs).
Proof. intros H. exact (enumerate_from_in xs 0 i y H). Qed.

Lemma fold_left_establish {A B} (P : A -> Prop) (f : A -> B -> A) (l : list B) (b : B)
    (a : A) :
  In b l -> (forall a, P (f a b)) -> (forall a b', P a -> P (f a b')) ->
  P (fold_left f l a).
Proof.
  revert a. induction l as [|b0 l IH]; intros a Hin Hb Hkeep; [destruct Hin |].
  simpl. destruct Hin as [-> | Hin].
  - apply fold_left_invariant; [apply Hb | intros; now apply Hkeep].
  - now apply IH.
Qed.

Lemma extract_sound (self : MaxMinSolver) (x : list Q) (a g : Z) (v : Q) :
  extract_allocations self x !! (a, g) = Some v ->
  exists i j, agents self !! i = Some a /\ goods self !! j = Some g
    /\ nth (i * n_goods self + j) x 0 = v /\ 1 # 1000000 < v.
Proof.
  unfold extract_allocations. revert v.
  apply (fold_left_invariant
           (fun m : gmap (Z * Z) Q => forall v, m !! (a, g) = Some v ->
              exists i j, agents self !! i = Some a /\ goods self !! j = Some g
                /\ nth (i * n_goods self + j) x 0 = v /\ 1 # 1000000 < v)).
  - intros v H. rewrite lookup_empty in H. discriminate.
  - intros acc [i agent_id] Hi Hacc.
    apply (fold_left_invariant
             (fun m : gmap (Z * Z) Q => forall v, m !! (a, g) = Some v ->
                exists i j, agents self !! i = Some a /\ goods self !! j = Some g
                  /\ nth (i * n_goods self + j) x 0 = v /\ 1 # 1000000 < v));
      [exact Hacc |].
    intros acc' [j good_id] Hj Hacc' v.
    destruct (np.Qltb _ _) eqn:E; [| apply Hacc'].
    apply Qltb_lt in E.
    destruct (decide ((agent_id, good_id) = (a, g))) as [[= -> ->] | Hne].
    + rewrite lookup_insert_eq. intros [= <-].
      apply enumerate_lookup in Hi, Hj. exists i, j. auto.
    + rewrite lookup_insert_ne by exact Hne. apply Hacc'.
Qed.

Lemma extract_present (self : MaxMinSolver) (x : list Q) (a g : Z) (i j : nat) :
  agents self !! i = Some a -> goods self !! j = Some g ->
  1 # 1000000 < nth (i * n_goods self + j) x 0 ->
  is_Some (extract_allocations self x !! (a, g)).
Proof.
  intros Hi Hj Hbig. unfold extract_allocations.
  assert (Hkeep : forall (acc : gmap (Z * Z) Q) (k : Z * Z) (w : Q),
            is_Some (acc !! (a, g)) -> is_Some (<[k := w]> acc !! (a, g))).
  { intros acc k w H. apply lookup_insert_is_Some.
    destruct (decide (k = (a, g))); [now left | now right]. }
  assert (Hinner : forall i' agent_id (acc : gmap (Z * Z) Q),
            is_Some (acc !! (a, g)) ->
            is_Some (fold_left (fun allocations '(j, good_id) =>
                       let idx := (i' * n_goods self + j)%nat in
                       let amount := nth idx x 0 in
                       if np.Qltb (1 # 1000000) amount
                       then <[(agent_id, good_id) := amount]> allocations
                       else allocations) (enumerate (goods self)) acc !! (a, g))).
  { intros i' agent_id acc Hacc.
    apply (fold_left_invariant (fun m : gmap (Z * Z) Q => is_Some (m !! (a, g))));
      [exact Hacc |].
    intros acc' [j' good_id] _ Hacc'. cbv zeta.
    destruct (np.Qltb _ _); [now apply Hkeep | exact Hacc']. }
  apply (fold_left_establish (fun m : gmap (Z * Z) Q => is_Some (m !! (a, g)))
           _ _ (i, a)).
  - now apply enumerate_in.
  - intros acc.
    apply (fold_left_establish (fun m : gmap (Z * Z) Q => is_Some (m !! (a, g)))
             _ _ (j, g)).
    + now apply enumerate_in.
    + intros acc'. cbv zeta.
      replace (np.Qltb (1 # 1000000) (nth (i * n_goods self + j) x 0)) with true
        by (symmetry; now apply Qltb_lt).
      rewrite lookup_insert_eq. eauto.
    + intros acc' [j' good_id] Hacc'. cbv zeta.
      destruct (np.Qltb _ _); [now apply Hkeep | exact Hacc'].
  - intros acc [i' agent_id] Hacc. now apply Hinner.
Qed.

(** X26.  With distinct identifiers and a point that has one coordinate per
    variable, the dict that [solve] builds from the point has an amount for
    the pair [(a, g)] exactly when the cell of that pair exceeds [1e-6], and
    the amount is that cell: nothing is rounded, and no amount of [1e-6] or
    less is kept. *)
Theorem allocations_lookup (agents goods : list Z)
    (utilities : gmap (Z * Z) Q) (entitlements good_values : gmap Z Q) (budget : Q)
    (restrictions : option (list (Z * Z * bool))) (x : list Q) (a g : Z) (i j : nat) :
  let self := __init__ agents goods utilities entitlements good_values budget
                restrictions in
  NoDup agents -> NoDup goods -> length x = (length agents * length goods + 1)%nat ->
  agents !! i = Some a -> goods !! j = Some g ->
  extract_allocations self x !! (a, g)
  = if np.Qltb (1 # 1000000) (nth (i * length goods + j) x 0)
    then Some (nth (i * length goods + j) x 0) else None.
Proof.
  intros self Hda Hdg _ Hi Hj.
  destruct (np.Qltb _ _) eqn:E.
  - apply Qltb_lt in E.
    destruct (extract_present self x a g i j Hi Hj E) as [v Hv].
    rewrite Hv. f_equal.
    apply extract_sound in Hv as (i' & j' & Hi' & Hj' & <- & _).
    change (app_algorithms_maxmin.agents self) with agents in Hi'.
    change (app_algorithms_maxmin.goods self) with goods in Hj'.
    rewrite (NoDup_lookup agents i' i a Hda Hi' Hi).
    now rewrite (NoDup_lookup goods j' j g Hdg Hj' Hj).
  - apply Qltb_ge in E. apply extract_skips. intros i' j' Hi' Hj'.
    change (app_algorithms_maxmin.agents self) with agents in Hi'.
    change (app_algorithms_maxmin.goods self) with goods in Hj'.
    rewrite (NoDup_lookup agents i' i a Hda Hi' Hi).
    now rewrite (NoDup_lookup goods j' j g Hdg Hj' Hj).
Qed.

Lemma allocations_lookup_witness :
  extract_allocations (__init__ [7; 9]%Z [3; 4]%Z ∅ ∅ ∅ 100 None)
    [1; 1 # 2; 0; 1 # 2; 5] !! (9, 4)%Z = Some (1 # 2).
Proof.
  apply (allocations_lookup [7; 9]%Z [3; 4]%Z ∅ ∅ ∅ 100 None [1; 1 # 2; 0; 1 # 2; 5]
           9%Z 4%Z 1 1).
  - apply NoDup_cons_2; [| apply NoDup_singleton].
    intros H. apply list_elem_of_In in H. destruct H as [H | []]. discriminate H.
  - apply NoDup_cons_2; [| apply NoDup_singleton].
    intros H. apply list_elem_of_In in H. destruct H as [H | []]. discriminate H.
  - reflexivity.
  - reflexivity.
  - reflexivity.
Defined.

(** X27.  Whether identifiers repeat or not, a pair of the dict names a known
    agent and a known good, and its amount is a coordinate of the point
    above [1e-6]. *)
Theorem allocations_above_threshold (self : MaxMinSolver) (x : list Q) (a g : Z) (v : Q) :
  length x = (n_agents self * n_goods self + 1)%nat ->
  extract_allocations self x !! (a, g) = Some v ->
  In a (agents self) /\ In g (goods self) /\ 1 # 1000000 < v /\ In v x.
Proof.
  intros _ H. apply extract_sound in H as (i & j & Hi & Hj & Hv & Hbig).
  split; [| split; [| split; [exact Hbig |]]].
  - apply list_elem_of_In. eapply list_elem_of_lookup_2. exact Hi.
  - apply list_elem_of_In. eapply list_elem_of_lookup_2. exact Hj.
  - rewrite <- Hv. apply nth_In.
    destruct (decide (i * n_goods self + j < length x)%nat) as [Hlt | Hge]; [exact Hlt |].
    exfalso. rewrite nth_overflow in Hv by lia. rewrite <- Hv in Hbig.
    apply (Qlt_irrefl 0). eapply Qlt_trans; [| exact Hbig]. reflexivity.
Qed.

Lemma allocations_above_threshold_witness :
  let self := __init__ [7; 9]%Z [3; 4]%Z ∅ ∅ ∅ 100 None in
  let x := [1; 1 # 2; 0; 1 # 2; 5] in
  extract_allocations self x !! (9, 4)%Z = Some (1 # 2)
  /\ In 9%Z (agents self) /\ In 4%Z (goods self) /\ 1 # 1000000 < 1 # 2 /\ In (1 # 2) x.
Proof.
  intros self x. split; [reflexivity |].
  apply (allocations_above_threshold self x 9%Z 4%Z (1 # 2)); reflexivity.
Defined.

(** *** The linear program handed to [linprog] *)

Lemma nth_insert (l : list Q) (i idx : nat) (v : Q) :
  nth idx (<[i := v]> l) 0 = if (idx =? i)%nat && (i <? length l)%nat then v else nth idx l 0.
Proof.
  destruct (idx =? i)%nat eqn:E; cbn [andb].
  - apply Nat.eqb_eq in E. subst idx. destruct (i <? length l)%nat eqn:El.
    + apply Nat.ltb_lt in El. now rewrite nth_lookup, list_lookup_insert_eq.
    + apply Nat.ltb_ge in El. now rewrite list_insert_ge.
  - apply Nat.eqb_neq in E. rewrite !nth_lookup, list_lookup_insert_ne; [reflexivity |].
    congruence.
Qed.

Lemma nth_repeat_zero (n idx : nat) : nth idx (repeat (0 : Q) n) 0 = 0.
Proof.
  revert idx. induction n as [|n IH]; intros [|idx]; cbn; auto.
Qed.

Lemma enumerate_from_length {A} (xs : list A) (k : nat) :
  length (zip (seq k (length xs)) xs) = length xs.
Proof. revert k. induction xs as [|x xs IH]; intros k; simpl; [reflexivity | now rewrite IH]. Qed.

Lemma enumerate_from_lookup_idx {A} (xs : list A) (k i : nat) (y : A) :
  xs !! i = Some y -> zip (seq k (length xs)) xs !! i = Some ((k + i)%nat, y).
Proof.
  revert k i. induction xs as [|x xs IH]; intros k i; [discriminate |].
  destruct i as [|i]; simpl.
  - intros [= <-]. do 2 f_equal. lia.
  - intros H. rewrite (IH (S k) i H). do 2 f_equal. lia.
Qed.

(** A loop [for j, g in enumerate(goods): row[base + j] = f(g)]. *)
Lemma fold_insert_block (f : Z -> Q) (base : nat) (xs : list Z) (k : nat) (row : list Q)
    (idx : nat) :
  (base + k + length xs <= length row)%nat ->
  nth idx (fold_left (fun row '(j, g) => <[(base + j)%nat := f g]> row)
             (zip (seq k (length xs)) xs) row) 0
  = match xs !! (idx - (base + k))%nat with
    | Some g => if (base + k <=? idx)%nat then f g else nth idx row 0
    | None => nth idx row 0
    end.
Proof.
  revert k row. induction xs as [|x xs IH]; intros k row Hlen.
  - reflexivity.
  - cbn [length] in Hlen. cbn [length seq zip zip_with fold_left].
    rewrite IH by (rewrite length_insert; lia).
    rewrite nth_insert.
    replace (base + k <? length row)%nat with true by (symmetry; apply Nat.ltb_lt; lia).
    rewrite andb_true_r.
    destruct (decide (idx = base + k)%nat) as [-> | Hne].
    + rewrite Nat.sub_diag. cbn [lookup list_lookup].
      rewrite Nat.eqb_refl. rewrite Nat.leb_refl.
      replace (base + k - (base + S k))%nat with 0%nat by lia.
      replace (base + S k <=? base + k)%nat with false
        by (symmetry; apply Nat.leb_gt; lia).
      now destruct (xs !! 0%nat).
    + replace (idx =? base + k)%nat with false by (symmetry; apply Nat.eqb_neq; lia).
      destruct (decide (idx < base + k)%nat) as [Hlt | Hge].
      * replace (idx - (base + S k))%nat with 0%nat by lia.
        replace (idx - (base + k))%nat with 0%nat by lia. cbn [lookup list_lookup].
        replace (base + S k <=? idx)%nat with false by (symmetry; apply Nat.leb_gt; lia).
        replace (base + k <=? idx)%nat with false by (symmetry; apply Nat.leb_gt; lia).
        now destruct (xs !! 0%nat).
      * replace (idx - (base + k))%nat with (S (idx - (base + S k))) by lia.
        cbn [lookup list_lookup].
        replace (base + S k <=? idx)%nat with true by (symmetry; apply Nat.leb_le; lia).
        replace (base + k <=? idx)%nat with true by (symmetry; apply Nat.leb_le; lia).
        reflexivity.
Qed.

Lemma fold_insert_block_length {B} (g : nat -> B -> nat) (f : nat -> B -> Q) (l : list (nat * B))
    (row : list Q) :
  length (fold_left (fun row '(j, b) => <[g j b := f j b]> row) l row) = length row.
Proof.
  revert row. induction l as [|[j b] l IH]; intros row; simpl; [reflexivity |].
  rewrite IH. apply length_insert.
Qed.

(** The same loop on the block of agent [i], read at the cell of [(i', j)]. *)
Lemma fold_insert_block_cell (f : Z -> Q) (m i i' j : nat) (xs : list Z) (g : Z)
    (row : list Q) :
  length xs = m -> xs !! j = Some g -> (i * m + m <= length row)%nat ->
  nth (i' * m + j) (fold_left (fun row '(j, g) => <[(i * m + j)%nat := f g]> row)
                      (enumerate xs) row) 0
  = if (i' =? i)%nat then f g else nth (i' * m + j) row 0.
Proof.
  intros Hm Hj Hlen. unfold enumerate.
  assert (Hjm : (j < m)%nat) by (rewrite <- Hm; now apply lookup_lt_Some in Hj).
  rewrite fold_insert_block by lia. rewrite Nat.add_0_r.
  destruct (i' =? i)%nat eqn:E.
  - apply Nat.eqb_eq in E. subst i'.
    replace (i * m + j - i * m)%nat with j by lia. rewrite Hj.
    replace (i * m <=? i * m + j)%nat with true by (symmetry; apply Nat.leb_le; lia).
    reflexivity.
  - apply Nat.eqb_neq in E.
    destruct (decide (i' < i)%nat) as [Hlt | Hge].
    + replace (i * m <=? i' * m + j)%nat with false by (symmetry; apply Nat.leb_gt; nia).
      destruct (xs !! (i' * m + j - i * m)%nat); reflexivity.
    + assert (Hnone : xs !! (i' * m + j - i * m)%nat = None).
      { apply lookup_ge_None. rewrite Hm. nia. }
      now rewrite Hnone.
Qed.

Lemma fold_insert_block_last (f : Z -> Q) (m n i : nat) (xs : list Z) (row : list Q) :
  length xs = m -> (i < n)%nat -> (i * m + m <= length row)%nat ->
  nth (n * m) (fold_left (fun row '(j, g) => <[(i * m + j)%nat := f g]> row)
                 (enumerate xs) row) 0
  = nth (n * m) row 0.
Proof.
  intros Hm Hi Hlen. unfold enumerate. rewrite fold_insert_block by lia.
  rewrite Nat.add_0_r.
  assert (Hnone : xs !! (n * m - i * m)%nat = None).
  { apply lookup_ge_None. rewrite Hm. nia. }
  now rewrite Hnone.
Qed.

(** The loop [for i in range(n): row[i * m + j] = 1]. *)
Lemma good_row_spec (n m j t : nat) :
  (j < m)%nat -> (t <= n)%nat ->
  let row := for_range t (fun i row => <[(i * m + j)%nat := 1]> row)
               (repeat 0 (n * m + 1)) in
  length row = (n * m + 1)%nat
  /\ nth (n * m) row 0 = 0
  /\ forall i' j', (i' < n)%nat -> (j' < m)%nat ->
       nth (i' * m + j') row 0 = if (i' <? t)%nat && (j' =? j)%nat then 1 else 0.
Proof.
  intros Hj. induction t as [|t IH]; intros Ht; cbv zeta.
  - unfold for_range. cbn [seq fold_left]. rewrite repeat_length.
    split; [reflexivity |]. split; [apply nth_repeat_zero |].
    intros i' j' _ _. apply nth_repeat_zero.
  - rewrite for_range_S. destruct (IH ltac:(lia)) as (Hlen & Hlast & Hcells).
    split; [now rewrite length_insert |]. split.
    + rewrite nth_insert.
      replace (n * m =? t * m + j)%nat with false by (symmetry; apply Nat.eqb_neq; nia).
      exact Hlast.
    + intros i' j' Hi' Hj'. rewrite nth_insert, Hlen, (Hcells i' j' Hi' Hj').
      replace (t * m + j <? n * m + 1)%nat with true by (symmetry; apply Nat.ltb_lt; nia).
      rewrite andb_true_r.
      destruct (i' * m + j' =? t * m + j)%nat eqn:E.
      * apply Nat.eqb_eq in E.
        destruct (cell_index_inj m i' j' t j Hj' Hj E) as [-> ->].
        replace (t <? S t)%nat with true by (symmetry; apply Nat.ltb_lt; lia).
        now rewrite Nat.eqb_refl.
      * apply Nat.eqb_neq in E.
        destruct (j' =? j)%nat eqn:Ej; [| now rewrite !andb_false_r].
        apply Nat.eqb_eq in Ej. subst j'. rewrite !andb_true_r.
        assert (i' <> t) by (intros ->; now apply E).
        destruct (i' <? t)%nat eqn:Elt.
        -- apply Nat.ltb_lt in Elt.
           now replace (i' <? S t)%nat with true by (symmetry; apply Nat.ltb_lt; lia).
        -- apply Nat.ltb_ge in Elt.
           now replace (i' <? S t)%nat with false by (symmetry; apply Nat.ltb_ge; lia).
Qed.

(** The double loop of the budget row. *)
Lemma budget_row_spec (f : Z -> Q) (n m t : nat) (xs : list Z) :
  length xs = m -> (t <= n)%nat ->
  let row := for_range t (fun i row =>
               fold_left (fun row '(j, g) => <[(i * m + j)%nat := f g]> row)
                 (enumerate xs) row) (repeat 0 (n * m + 1)) in
  length row = (n * m + 1)%nat
  /\ nth (n * m) row 0 = 0
  /\ forall i' j g, (i' < n)%nat -> xs !! j = Some g ->
       nth (i' * m + j) row 0 = if (i' <? t)%nat then f g else 0.
Proof.
  intros Hm. induction t as [|t IH]; intros Ht; cbv zeta.
  - unfold for_range. cbn [seq fold_left]. rewrite repeat_length.
    split; [reflexivity |]. split; [apply nth_repeat_zero |].
    intros i' j g _ _. apply nth_repeat_zero.
  - rewrite for_range_S. destruct (IH ltac:(lia)) as (Hlen & Hlast & Hcells).
    split; [| split].
    + now rewrite (fold_insert_block_length (fun j _ => (t * m + j)%nat) (fun _ g => f g)).
    + rewrite (fold_insert_block_last f m n t xs _ Hm) by (rewrite ?Hlen; nia).
      exact Hlast.
    + intros i' j g Hi' Hg.
      rewrite (fold_insert_block_cell f m t i' j xs g _ Hm Hg) by (rewrite Hlen; nia).
      rewrite (Hcells i' j g Hi' Hg).
      destruct (i' =? t)%nat eqn:E.
      * apply Nat.eqb_eq in E. subst i'.
        now replace (t <? S t)%nat with true by (symmetry; apply Nat.ltb_lt; lia).
      * apply Nat.eqb_neq in E. destruct (i' <? t)%nat eqn:Elt.
        -- apply Nat.ltb_lt in Elt.
           now replace (i' <? S t)%nat with true by (symmetry; apply Nat.ltb_lt; lia).
        -- apply Nat.ltb_ge in Elt.
           now replace (i' <? S t)%nat with false by (symmetry; apply Nat.ltb_ge; lia).
Qed.

Lemma map_lookup {A B} (f : A -> B) (l : list A) (i : nat) (x : A) :
  l !! i = Some x -> map f l !! i = Some (f x).
Proof.
  revert i. induction l as [|y l IH]; intros [|i]; simpl; try discriminate.
  - now intros [= ->].
  - apply IH.
Qed.

Lemma nth_app_repeat (xs ys : list Q) (i : nat) (v : Q) :
  (i < length xs)%nat -> (forall k, nth k xs 0 = v) -> nth i (xs ++ ys) 0 = v.
Proof. intros Hi H. rewrite app_nth1 by exact Hi. apply H. Qed.

Lemma nth_repeat_const (v : Q) (n i : nat) : (i < n)%nat -> nth i (repeat v n) 0 = v.
Proof.
  revert i. induction n as [|n IH]; intros i Hi; [lia |].
  destruct i as [|i]; [reflexivity |]. cbn. apply IH. lia.
Qed.

(** Everything [solve] hands to [linprog], and what it does with the
    answer. *)
Lemma linear_program_facts (agents goods : list Z)
    (utilities : gmap (Z * Z) Q) (entitlements good_values : gmap Z Q) (budget : Q)
    (restrictions : list (Z * Z * bool)) :
  let self := __init__ agents goods utilities entitlements good_values budget
                (Some restrictions) in
  let n := length agents in
  let m := length goods in
  (forall a g, In (a, g, false) restrictions -> In a agents /\ In g goods) ->
  exists c A b bounds k,
    solve self = Vis (linprog c A b bounds "highs") k
    /\ build_bounds self = Ok bounds
    /\ (forall res,
          k res = if lp_success res
                  then Ret (extract_allocations self (lp_x res), List.last (lp_x res) 0)
                  else Throw (ValueError [Lit "Optimization failed: ";
                                          Lit (lp_message res)]))
    /\ (length c = (n * m + 1)%nat /\ length bounds = (n * m + 1)%nat
        /\ length A = (n + m + 1)%nat /\ length b = (n + m + 1)%nat
        /\ forall row, In row A -> length row = (n * m + 1)%nat)
    /\ (nth (n * m) c 0 = - 1 /\ forall idx, (idx < n * m)%nat -> nth idx c 0 = 0)
    /\ (forall i a, agents !! i = Some a ->
          exists row, A !! i = Some row /\ nth i b 0 = 0 /\ nth (n * m) row 0 = 1
            /\ forall i' j g, (i' < n)%nat -> goods !! j = Some g ->
                 nth (i' * m + j) row 0
                 = if (i' =? i)%nat then - default 0 (utilities !! (a, g)) else 0)
    /\ (forall j, (j < m)%nat ->
          exists row, A !! (n + j)%nat = Some row /\ nth (n + j) b 0 = 1
            /\ nth (n * m) row 0 = 0
            /\ forall i' j', (i' < n)%nat -> (j' < m)%nat ->
                 nth (i' * m + j') row 0 = if (j' =? j)%nat then 1 else 0)
    /\ (exists row, A !! (n + m)%nat = Some row /\ nth (n + m) b 0 = budget
          /\ nth (n * m) row 0 = 0
          /\ forall i' j g, (i' < n)%nat -> goods !! j = Some g ->
               nth (i' * m + j) row 0 = default 0 (good_values !! g)).
Proof.
  intros self n m Hknown.
  destruct (handle_restrictions_spec self restrictions Hknown
              (repeat (0, None) (n_vars self))) as (bounds & Eb & Hlen & _ & _).
  rewrite repeat_length in Hlen.
  change (handle_restrictions self restrictions (repeat (0, None) (n_vars self)))
    with (build_bounds self) in Eb.
  unfold solve. rewrite Eb. unfold mbind, prog_bind, call, mret, prog_ret.
  cbn [lift bind].
  change (n_vars self) with (n * m + 1)%nat in *.
  change (n_goods self) with m. change (n_agents self) with n.
  change (app_algorithms_maxmin.agents self) with agents.
  change (app_algorithms_maxmin.goods self) with goods.
  change (app_algorithms_maxmin.utilities self) with utilities.
  change (app_algorithms_maxmin.good_values self) with good_values.
  change (app_algorithms_maxmin.budget self) with budget.
  replace (n * m + 1 - 1)%nat with (n * m)%nat by lia.
  set (agent_row := fun p : nat * Z =>
         let '(i, agent_id) := p in
         <[(n * m)%nat := 1]>
           (fold_left (fun row '(j, good_id) =>
              let idx := (i * m + j)%nat in
              let utility := default 0 (utilities !! (agent_id, good_id)) in
              <[idx := - utility]> row) (enumerate goods) (repeat 0 (n * m + 1)))).
  set (good_row := fun p : nat * Z =>
         let '(j, good_id) := p in
         for_range n (fun i row => <[(i * m + j)%nat := 1]> row) (repeat 0 (n * m + 1))).
  set (budget_row := for_range n (fun i row =>
         fold_left (fun row '(j, good_id) =>
           let idx := (i * m + j)%nat in
           let value := default 0 (good_values !! good_id) in
           <[idx := value]> row) (enumerate goods) row) (repeat 0 (n * m + 1))).
  assert (Hla : length (map agent_row (enumerate agents)) = n)
    by (rewrite length_map; apply enumerate_from_length).
  assert (Hlg : length (map good_row (enumerate goods)) = m)
    by (rewrite length_map; apply enumerate_from_length).
  assert (Hagent_len : forall p, length (agent_row p) = (n * m + 1)%nat).
  { intros [i a]. unfold agent_row. rewrite length_insert.
    rewrite (fold_insert_block_length (fun j _ => (i * m + j)%nat)
               (fun _ g => - default 0 (utilities !! (a, g)))).
    apply repeat_length. }
  assert (Hgood : forall j, (j < m)%nat ->
            length (for_range n (fun i row => <[(i * m + j)%nat := 1]> row)
                      (repeat 0 (n * m + 1))) = (n * m + 1)%nat
            /\ nth (n * m) (for_range n (fun i row => <[(i * m + j)%nat := 1]> row)
                              (repeat 0 (n * m + 1))) 0 = 0
            /\ forall i' j', (i' < n)%nat -> (j' < m)%nat ->
                 nth (i' * m + j') (for_range n (fun i row => <[(i * m + j)%nat := 1]> row)
                                      (repeat 0 (n * m + 1))) 0
                 = if (j' =? j)%nat then 1 else 0).
  { intros j Hj. destruct (good_row_spec n m j n Hj (le_n n)) as (H1 & H2 & H3).
    split; [exact H1 |]. split; [exact H2 |]. intros i' j' Hi' Hj'.
    rewrite (H3 i' j' Hi' Hj').
    now replace (i' <? n)%nat with true by (symmetry; apply Nat.ltb_lt; lia). }
  destruct (budget_row_spec (fun g => default 0 (good_values !! g)) n m n goods
              eq_refl (le_n n)) as (Hbl & Hblast & Hbcells).
  fold budget_row in Hbl, Hblast, Hbcells.
  do 5 eexists. split; [reflexivity |]. split; [reflexivity |].
  split; [| split; [| split; [| split; [| split]]]].
  - intros res. cbn [bind]. destruct (lp_success res); reflexivity.
  - split; [now rewrite length_insert, repeat_length |]. split; [exact Hlen |].
    split; [| split].
    + rewrite !length_app, Hla, Hlg. cbn [length]. lia.
    + rewrite !length_app, !repeat_length. cbn [length]. lia.
    + intros row Hin. apply in_app_or in Hin as [Hin | Hin].
      * apply in_map_iff in Hin as (p & <- & _). apply Hagent_len.
      * apply in_app_or in Hin as [Hin | [<- | []]]; [| exact Hbl].
        apply in_map_iff in Hin as ([j g] & <- & Hin).
        apply enumerate_lookup in Hin. apply lookup_lt_Some in Hin.
        now apply (Hgood j).
  - split.
    + rewrite nth_insert, Nat.eqb_refl, repeat_length.
      now replace (n * m <? n * m + 1)%nat with true by (symmetry; apply Nat.ltb_lt; lia).
    + intros idx Hidx. rewrite nth_insert.
      replace (idx =? n * m)%nat with false by (symmetry; apply Nat.eqb_neq; lia).
      apply nth_repeat_zero.
  - intros i a Hi. exists (agent_row (i, a)).
    assert (Hin : (i < n)%nat) by (now apply lookup_lt_Some in Hi).
    split; [| split; [| split]].
    + rewrite lookup_app_l by (rewrite Hla; exact Hin).
      apply map_lookup. exact (enumerate_from_lookup_idx agents 0 i a Hi).
    + rewrite app_nth1 by (rewrite repeat_length; exact Hin).
      now apply nth_repeat_const.
    + unfold agent_row. rewrite nth_insert, Nat.eqb_refl.
      rewrite (fold_insert_block_length (fun j _ => (i * m + j)%nat)
                 (fun _ g => - default 0 (utilities !! (a, g)))), repeat_length.
      now replace (n * m <? n * m + 1)%nat with true by (symmetry; apply Nat.ltb_lt; lia).
    + intros i' j g Hi' Hg. unfold agent_row. rewrite nth_insert.
      assert (Hj : (j < m)%nat) by (now apply lookup_lt_Some in Hg).
      replace (i' * m + j =? n * m)%nat with false by (symmetry; apply Nat.eqb_neq; nia).
      cbn [andb].
      rewrite (fold_insert_block_cell (fun g => - default 0 (utilities !! (a, g)))
                 m i i' j goods g _ eq_refl Hg) by (rewrite repeat_length; nia).
      now rewrite nth_repeat_zero.
  - intros j Hj.
    destruct (lookup_lt_is_Some_2 goods j Hj) as [g Hg].
    exists (good_row (j, g)). destruct (Hgood j Hj) as (_ & H2 & H3).
    split; [| split; [| split; [exact H2 | exact H3]]].
    + rewrite lookup_app_r by (rewrite Hla; lia). rewrite Hla.
      replace (n + j - n)%nat with j by lia.
      rewrite lookup_app_l by (rewrite Hlg; exact Hj).
      apply map_lookup. exact (enumerate_from_lookup_idx goods 0 j g Hg).
    + rewrite app_nth2 by (rewrite repeat_length; lia). rewrite repeat_length.
      replace (n + j - n)%nat with j by lia.
      rewrite app_nth1 by (rewrite repeat_length; exact Hj).
      now apply nth_repeat_const.
  - exists budget_row. split; [| split; [| split; [exact Hblast |]]].
    + rewrite lookup_app_r by (rewrite Hla; lia). rewrite Hla.
      rewrite lookup_app_r by (rewrite Hlg; lia). rewrite Hlg.
      now replace (n + m - n - m)%nat with 0%nat by lia.
    + rewrite app_nth2 by (rewrite repeat_length; lia). rewrite repeat_length.
      rewrite app_nth2 by (rewrite repeat_length; lia). rewrite repeat_length.
      now replace (n + m - n - m)%nat with 0%nat by lia.
    + intros i' j g Hi' Hg. rewrite (Hbcells i' j g Hi' Hg).
      now replace (i' <? n)%nat with true by (symmetry; apply Nat.ltb_lt; lia).
Qed.

(** X28.  With restrictions that name known agents and goods, [solve] calls
    [linprog] exactly once, on a program with one column per variable
    ([n * m] amounts and [t]) and [n + m + 1] rows.  A failed optimisation
    becomes a [ValueError] carrying the engine's message; a successful one
    returns the extracted dict and the last coordinate of the point as the
    objective (the point having one coordinate per variable). *)
Theorem solve_calls_linprog_once {S : Type} (agents goods : list Z)
    (utilities : gmap (Z * Z) Q) (entitlements good_values : gmap Z Q) (budget : Q)
    (restrictions : list (Z * Z * bool)) :
  let self := __init__ agents goods utilities entitlements good_values budget
                (Some restrictions) in
  let n := length agents in
  let m := length goods in
  (forall a g, In (a, g, false) restrictions -> In a agents /\ In g goods) ->
  exists c A b bounds,
    build_bounds self = Ok bounds
    /\ length c = (n * m + 1)%nat /\ length bounds = (n * m + 1)%nat
    /\ length A = (n + m + 1)%nat /\ length b = (n + m + 1)%nat
    /\ (forall row, In row A -> length row = (n * m + 1)%nat)
    /\ forall (env : forall X, highs X -> S -> X * S) (s : S),
         let answer := env _ (linprog c A b bounds "highs") s in
         (lp_success answer.1 = true -> length (lp_x answer.1) = (n * m + 1)%nat) ->
         run env (solve self) s
         = (if lp_success answer.1
            then Ok (extract_allocations self (lp_x answer.1),
                     List.last (lp_x answer.1) 0)
            else Raise (ValueError [Lit "Optimization failed: ";
                                    Lit (lp_message answer.1)]),
            answer.2).
Proof.
  intros self n m Hknown.
  destruct (linear_program_facts agents goods utilities entitlements good_values budget
              restrictions Hknown)
    as (c & A & b & bounds & k & Hsolve & Hb & Hk & (H1 & H2 & H3 & H4 & H5) & _).
  exists c, A, b, bounds. fold self. do 5 (split; [assumption |]).
  split; [exact H5 |]. intros env s answer _. subst answer.
  fold self in Hsolve. rewrite Hsolve. cbn [run].
  destruct (env _ (linprog c A b bounds "highs") s) as [res s']. rewrite Hk.
  cbn [fst snd]. destruct (lp_success res); reflexivity.
Qed.

Lemma solve_calls_linprog_once_witness :
  let self := __init__ [7; 9]%Z [3; 4]%Z ∅ ∅ ∅ 100 (Some [((7, 4)%Z, false)]) in
  run (scenarios.highs_env scenarios.lp_infeasible) (solve self) 0%nat
  = (Raise (ValueError [Lit "Optimization failed: "; Lit "The problem is infeasible."]),
     1%nat)
  /\ run (scenarios.highs_env scenarios.lp_split) (solve self) 0%nat
     = (Ok (extract_allocations self [1; 0; 0; 1; 5], 5), 1%nat).
Proof.
  intros self.
  destruct (solve_calls_linprog_once (S := nat) [7; 9]%Z [3; 4]%Z ∅ ∅ ∅ 100
              [((7, 4)%Z, false)])
    as (c & A & b & bounds & _ & _ & _ & _ & _ & _ & Hrun).
  - intros a' g' [[= <- <-] | []]. split; simpl; auto.
  - split; (rewrite Hrun; [reflexivity |]); [discriminate | reflexivity].
Defined.

(** X29.  The program is the one of the class docstring.  The objective is
    [-t].  Row [i] of [A_ub] says [t - sum_j u(a_i, g_j) x_ij <= 0] (a
    missing utility counts as [0]); row [n + j] says [sum_i x_ij <= 1]; the
    last row says [sum_ij v(g_j) x_ij <= budget] (a missing value counts as
    [0]); entitlements do not occur. *)
Theorem linear_program_rows (agents goods : list Z)
    (utilities : gmap (Z * Z) Q) (entitlements good_values : gmap Z Q) (budget : Q)
    (restrictions : list (Z * Z * bool)) :
  let self := __init__ agents goods utilities entitlements good_values budget
                (Some restrictions) in
  let n := length agents in
  let m := length goods in
  (forall a g, In (a, g, false) restrictions -> In a agents /\ In g goods) ->
  exists c A b bounds k,
    solve self = Vis (linprog c A b bounds "highs") k
    /\ (nth (n * m) c 0 = - 1 /\ forall idx, (idx < n * m)%nat -> nth idx c 0 = 0)
    /\ (forall i a, agents !! i = Some a ->
          exists row, A !! i = Some row /\ nth i b 0 = 0 /\ nth (n * m) row 0 = 1
            /\ forall i' j g, (i' < n)%nat -> goods !! j = Some g ->
                 nth (i' * m + j) row 0
                 = if (i' =? i)%nat then - default 0 (utilities !! (a, g)) else 0)
    /\ (forall j, (j < m)%nat ->
          exists row, A !! (n + j)%nat = Some row /\ nth (n + j) b 0 = 1
            /\ nth (n * m) row 0 = 0
            /\ forall i' j', (i' < n)%nat -> (j' < m)%nat ->
                 nth (i' * m + j') row 0 = if (j' =? j)%nat then 1 else 0)
    /\ (exists row, A !! (n + m)%nat = Some row /\ nth (n + m) b 0 = budget
          /\ nth (n * m) row 0 = 0
          /\ forall i' j g, (i' < n)%nat -> goods !! j = Some g ->
               nth (i' * m + j) row 0 = default 0 (good_values !! g)).
Proof.
  intros self n m Hknown.
  destruct (linear_program_facts agents goods utilities entitlements good_values budget
              restrictions Hknown)
    as (c & A & b & bounds & k & Hsolve & _ & _ & _ & Hc & Hagents & Hgoods & Hbudget).
  exists c, A, b, bounds, k. auto.
Qed.

Lemma linear_program_rows_witness :
  exists c A b bounds k row,
    solve (__init__ [7; 9]%Z [3; 4]%Z {[ ((9, 4)%Z) := 6 ]} ∅ ∅ 100 (Some []))
    = Vis (linprog c A b bounds "highs") k
    /\ A !! 1%nat = Some row /\ nth 3 row 0 = - 6 /\ nth 4 row 0 = 1.
Proof.
  destruct (linear_program_rows [7; 9]%Z [3; 4]%Z {[ ((9, 4)%Z) := 6 ]} ∅ ∅ 100 [])
    as (c & A & b & bounds & k & Hsolve & _ & Hagents & _).
  - intros a' g' [].
  - destruct (Hagents 1%nat 9%Z eq_refl) as (row & Hrow & _ & Hlast & Hcells).
    exists c, A, b, bounds, k, row. split; [exact Hsolve |]. split; [exact Hrow |].
    split; [| exact Hlast].
    exact (Hcells 1%nat 1%nat 4%Z ltac:(simpl; lia) eq_refl).
Defined.

End platform_extras.
